(** * vite-plugin-unlock: override index, resolution and invalidation

    A shallow embedding of the scanner ([scanner.ts]), the resolver
    ([resolver.ts]), the [unlock] start-up and the hooks [config],
    [configResolved], [resolveId], [load], [transform] and
    [configureServer] ([plugin.ts]), the watcher ([watcher.ts]), the
    resolution of the options ([config.ts]), the Medusa preset
    ([medusa.ts], [menu-patch.ts]) and the helpers of [utils.ts],
    followed by the properties of the override index that the
    specification states and by further properties of the code.

    Conventions of the embedding:
    - a JavaScript string is the [string] of the bytes of its UTF-8
      encoding (the strings are well-formed); where JavaScript looks at
      UTF-16 code units or at characters beyond ASCII (the order of
      [sort], the line terminators of a regular expression) the
      definition says how that reads on the bytes; paths are POSIX
      paths, and the functions of Node's [path] module are written out;
    - a JavaScript [Map] is an insertion-ordered association list ([JsMap]);
    - the file system, the host resolver and the host module graph are
      explicit values passed to the functions that consult them;
    - an [async] hook is a resumable computation ([Async.t]) in which every
      access to the shared resolver state and every [await] is explicit;
    - the watcher is a state machine over logical time: what it holds is
      the due instant of its one pending timer, and what it does to the
      outside (scans, invalidations, reload messages, log lines) is
      appended to a trace;
    - every call of the logger is recorded, whether or not [debug] would
      print it. *)

From Stdlib Require Import String Ascii List Bool Arith Lia DecimalString.
Import ListNotations.
Open Scope list_scope.
Open Scope string_scope.

(* ===================================================================== *)
(** ** JavaScript string primitives *)
(* ===================================================================== *)

Module Str.

Definition slash : ascii := "/"%char.
Definition backslash : ascii := "\"%char.
Definition dot : ascii := "."%char.

(** The character U+0000 that prefixes virtual module ids. *)
Definition NUL : string := String Ascii.zero "".

Definition is_slash (c : ascii) : bool := Ascii.eqb c slash.

(** [s.startsWith(p)] *)
Definition startsWith (s p : string) : bool := String.prefix p s.

(** [s.includes(sub)] *)
Fixpoint includes (s sub : string) : bool :=
  if String.prefix sub s then true
  else match s with
       | EmptyString => false
       | String _ r => includes r sub
       end.

(** [strip_suffix suf s] is [Some p] exactly when [s = p ++ suf]. *)
Fixpoint strip_suffix (suf s : string) : option string :=
  if String.eqb s suf then Some ""
  else match s with
       | EmptyString => None
       | String c r =>
           match strip_suffix suf r with
           | Some p => Some (String c p)
           | None => None
           end
       end.

(** [s.endsWith(suf)] *)
Definition endsWith (s suf : string) : bool :=
  match strip_suffix suf s with Some _ => true | None => false end.

(** [s.split("/")]: never empty, [""] splits into one empty piece. *)
Fixpoint split_slash (s : string) : list string :=
  match s with
  | EmptyString => [""]
  | String c r =>
      if is_slash c then "" :: split_slash r
      else match split_slash r with
           | h :: t => String c h :: t
           | [] => [String c ""]
           end
  end.

(** [parts.join("/")] *)
Fixpoint join_slash (l : list string) : string :=
  match l with
  | [] => ""
  | [x] => x
  | x :: r => x ++ "/" ++ join_slash r
  end.

(** A string is truthy when it is not empty. *)
Definition truthy (s : string) : bool :=
  match s with EmptyString => false | _ => true end.

(** [l.filter(Boolean)] on strings *)
Definition filter_truthy (l : list string) : list string := filter truthy l.

Fixpoint rev_string_aux (s acc : string) : string :=
  match s with
  | EmptyString => acc
  | String c r => rev_string_aux r (String c acc)
  end.

Definition rev_string (s : string) : string := rev_string_aux s "".

(** Drop the longest prefix of characters satisfying [p]. *)
Fixpoint drop_while (p : ascii -> bool) (s : string) : string :=
  match s with
  | EmptyString => ""
  | String c r => if p c then drop_while p r else s
  end.

(** Keep the longest prefix of characters satisfying [p]. *)
Fixpoint take_while (p : ascii -> bool) (s : string) : string :=
  match s with
  | EmptyString => ""
  | String c r => if p c then String c (take_while p r) else ""
  end.

Definition has_char (c : ascii) (s : string) : bool :=
  truthy (drop_while (fun x => negb (Ascii.eqb x c)) s).

(** The line terminators that the dot of a regular expression refuses:
    LF, CR, and the characters U+2028 and U+2029, whose encodings are the
    bytes E2 80 A8 and E2 80 A9. *)
Definition LINE_SEPARATOR : string :=
  String (ascii_of_nat 226) (String (ascii_of_nat 128)
                                    (String (ascii_of_nat 168) "")).

Definition PARAGRAPH_SEPARATOR : string :=
  String (ascii_of_nat 226) (String (ascii_of_nat 128)
                                    (String (ascii_of_nat 169) "")).

(** Whether a line terminator occurs in [s]. *)
Fixpoint has_line_terminator (s : string) : bool :=
  match s with
  | EmptyString => false
  | String c r =>
      Ascii.eqb c (ascii_of_nat 10) || Ascii.eqb c (ascii_of_nat 13)
      || String.prefix LINE_SEPARATOR s
      || String.prefix PARAGRAPH_SEPARATOR s
      || has_line_terminator r
  end.

(** [s.replace(/\?.*$/, "")]: cut at the leftmost [?] that is followed by
    no line terminator up to the end of the string. *)
Fixpoint strip_query (s : string) : string :=
  match s with
  | EmptyString => ""
  | String c r =>
      if Ascii.eqb c "?"%char && negb (has_line_terminator r)
      then ""
      else String c (strip_query r)
  end.

(** The rank of a byte in the order of UTF-16 code units.  The bytes of
    an encoding compare like the characters, except that UTF-16 writes
    the characters from U+10000 on (lead bytes F0 to F4) with surrogates,
    which come before the code units of U+E000 to U+FFFF (lead bytes EE
    and EF). *)
Definition utf16_rank (c : ascii) : nat :=
  let n := nat_of_ascii c in
  if Nat.eqb n 238 then 254 else if Nat.eqb n 239 then 255 else n.

(** [a <= b] in the order of the UTF-16 code units of the two strings:
    decided at the first byte in which they differ. *)
Fixpoint utf16_leb (a b : string) : bool :=
  match a, b with
  | EmptyString, _ => true
  | String _ _, EmptyString => false
  | String x a', String y b' =>
      if Ascii.eqb x y then utf16_leb a' b'
      else Nat.ltb (utf16_rank x) (utf16_rank y)
  end.

(** Insertion sort by code units, the order of [Array.prototype.sort()]
    without a comparator. *)
Fixpoint insert_sorted (x : string) (l : list string) : list string :=
  match l with
  | [] => [x]
  | y :: r => if utf16_leb x y then x :: l else y :: insert_sorted x r
  end.

Definition sort (l : list string) : list string :=
  fold_right insert_sorted [] l.

Definition mem (x : string) (l : list string) : bool :=
  existsb (String.eqb x) l.

End Str.

(* ===================================================================== *)
(** ** Node's [path] module (POSIX flavour) *)
(* ===================================================================== *)

Module Path.
Import Str.

Definition isAbsolute (p : string) : bool := startsWith p "/".

(** [normalizeString]: resolve [.] and [..] segments over a stack that is
    kept in reverse order. *)
Fixpoint normalize_segments (allowAboveRoot : bool) (segs stack : list string)
  : list string :=
  match segs with
  | [] => rev stack
  | s :: r =>
      if String.eqb s "" || String.eqb s "." then
        normalize_segments allowAboveRoot r stack
      else if String.eqb s ".." then
        match stack with
        | top :: below =>
            if String.eqb top ".." then
              normalize_segments allowAboveRoot r (".." :: stack)
            else normalize_segments allowAboveRoot r below
        | [] =>
            if allowAboveRoot then
              normalize_segments allowAboveRoot r [".."]
            else normalize_segments allowAboveRoot r []
        end
      else normalize_segments allowAboveRoot r (s :: stack)
  end.

(** [path.normalize(p)] *)
Definition normalize (p : string) : string :=
  match p with
  | EmptyString => "."
  | _ =>
      let abs := isAbsolute p in
      let trailing := endsWith p "/" in
      let body := join_slash (normalize_segments (negb abs) (split_slash p) []) in
      match body with
      | EmptyString =>
          if abs then "/" else if trailing then "./" else "."
      | _ =>
          let body' := if trailing then body ++ "/" else body in
          if abs then "/" ++ body' else body'
      end
  end.

(** [path.join(a, b)] *)
Definition join (a b : string) : string :=
  match a, b with
  | EmptyString, EmptyString => "."
  | EmptyString, _ => normalize b
  | _, EmptyString => normalize a
  | _, _ => normalize (a ++ "/" ++ b)
  end.

(** Segments of [path.resolve(p)] for a process whose working directory
    is [cwd] (an absolute path). *)
Definition resolved_segments (cwd p : string) : list string :=
  if isAbsolute p then normalize_segments false (split_slash p) []
  else normalize_segments false (split_slash (cwd ++ "/" ++ p)) [].

(** [path.resolve(a, b)]: an absolute [b] stands alone, and an empty
    [a] is skipped. *)
Definition resolve (cwd a b : string) : string :=
  if isAbsolute b then "/" ++ join_slash (resolved_segments cwd b)
  else
    match a with
    | EmptyString => "/" ++ join_slash (resolved_segments cwd b)
    | _ => "/" ++ join_slash (resolved_segments cwd (a ++ "/" ++ b))
    end.

Fixpoint strip_common (f t : list string) : list string * list string :=
  match f, t with
  | x :: f', y :: t' =>
      if String.eqb x y then strip_common f' t' else (f, t)
  | _, _ => (f, t)
  end.

(** [path.relative(from, to)] *)
Definition relative (cwd from to : string) : string :=
  let '(f, t) := strip_common (resolved_segments cwd from)
                              (resolved_segments cwd to) in
  join_slash (map (fun _ => "..") f ++ t)%list.

(** [path.basename(p)]: the last non-empty segment. *)
Definition basename (p : string) : string :=
  last (filter_truthy (split_slash p)) "".

(** [path.dirname(p)] *)
Definition dirname (p : string) : string :=
  match p with
  | EmptyString => "."
  | String c0 rest =>
      let hasRoot := is_slash c0 in
      let r1 := drop_while is_slash (rev_string rest) in
      let r2 := drop_while (fun c => negb (is_slash c)) r1 in
      match r2 with
      | EmptyString => if hasRoot then "/" else "."
      | String _ r3 =>
          match r3 with
          | EmptyString => if hasRoot then "//" else String c0 ""
          | _ => String c0 (rev_string r3)
          end
      end
  end.

(** [path.extname(p)]: from the last dot of the basename, unless that dot
    is its first character or the basename is [..]. *)
Definition extname (p : string) : string :=
  let b := basename p in
  let r := rev_string b in
  if negb (has_char dot b) then ""
  else if String.eqb b ".." then ""
  else
    let ext_rev := take_while (fun c => negb (Ascii.eqb c dot)) r in
    match drop_while (fun c => negb (Ascii.eqb c dot)) r with
    | String _ EmptyString => ""
    | _ => String dot (rev_string ext_rev)
    end.

End Path.


(* ===================================================================== *)
(** ** [utils.ts] and [constants.ts] *)
(* ===================================================================== *)

Module Utils.
Import Str.

(** Maximum recursion depth when scanning directories. *)
Definition MAX_SCAN_DEPTH : nat := 20.

(** Plugin name used in Vite. *)
Definition PLUGIN_NAME : string := "vite-plugin-unlock".

(** [normalizePath]: every backslash becomes a forward slash. *)
Fixpoint normalizePath (p : string) : string :=
  match p with
  | EmptyString => ""
  | String c r =>
      String (if Ascii.eqb c backslash then slash else c) (normalizePath r)
  end.

(** The alternatives of the pattern [\.(tsx?|jsx?|mts|mjs|vue|svelte)$]. *)
Definition STRIPPED_EXTENSIONS : list string :=
  [".tsx"; ".ts"; ".jsx"; ".js"; ".mts"; ".mjs"; ".vue"; ".svelte"].

Fixpoint strip_first_suffix (exts : list string) (s : string) : string :=
  match exts with
  | [] => s
  | e :: r =>
      match strip_suffix e s with
      | Some p => p
      | None => strip_first_suffix r s
      end
  end.

(** [stripExtension] *)
Definition stripExtension (filename : string) : string :=
  strip_first_suffix STRIPPED_EXTENSIONS filename.

(** [generateAlias]: [~] before the last piece of the package name. *)
Definition generateAlias (packageName : string) : string :=
  let parts := split_slash packageName in
  let lastPart := last parts "" in
  "~" ++ lastPart.

(** Decimal rendering of a number inside a template string. *)
Definition show_nat (n : nat) : string :=
  NilZero.string_of_uint (Nat.to_uint n).

Inductive LogLevel := Info | Warn | Error.

(** One call of [logger.info], [logger.warn] or [logger.error]. *)
Definition LogEntry : Type := LogLevel * string.

(** Record one more logger call. *)
Definition logged (l : list LogEntry) (level : LogLevel) (msg : string)
  : list LogEntry := (l ++ [(level, msg)])%list.

(** Only [logger.info] calls. *)
Definition all_info (l : list LogEntry) : Prop :=
  Forall (fun e : LogEntry => fst e = Info) l.

(** [createLogger(debug)]: what the calls recorded in a log write to the
    console, each line behind the prefix [[vite-plugin-unlock]];
    [logger.info] writes only when [debug] is set. *)
Inductive Console := ConsoleLog | ConsoleWarn | ConsoleError.

Definition PREFIX : string := "[" ++ PLUGIN_NAME ++ "]".

Definition createLogger (debug : bool) (entry : LogEntry)
  : list (Console * string) :=
  match fst entry with
  | Info => if debug then [(ConsoleLog, PREFIX ++ " " ++ snd entry)] else []
  | Warn => [(ConsoleWarn, PREFIX ++ " " ++ snd entry)]
  | Error => [(ConsoleError, PREFIX ++ " " ++ snd entry)]
  end.

(** The console output of a sequence of logger calls. *)
Definition console (debug : bool) (l : list LogEntry)
  : list (Console * string) :=
  flat_map (createLogger debug) l.

End Utils.

(* ===================================================================== *)
(** ** JavaScript [Map] with string keys, in insertion order *)
(* ===================================================================== *)

Module JsMap.

Definition t (V : Type) : Type := list (string * V).

Section Ops.
Context {V : Type}.

Definition empty : t V := [].

Fixpoint get (m : t V) (k : string) : option V :=
  match m with
  | [] => None
  | (k', v) :: r => if String.eqb k' k then Some v else get r k
  end.

Definition has (m : t V) (k : string) : bool :=
  match get m k with Some _ => true | None => false end.

(** [m.set(k, v)]: an existing key keeps its position. *)
Fixpoint set (m : t V) (k : string) (v : V) : t V :=
  match m with
  | [] => [(k, v)]
  | (k', v') :: r =>
      if String.eqb k' k then (k, v) :: r else (k', v') :: set r k v
  end.

Definition keys (m : t V) : list string := map fst m.
Definition values (m : t V) : list V := map snd m.
Definition size (m : t V) : nat := length m.

End Ops.

(** [new Set([...a, ...b])] on strings: first occurrences, in order. *)
Fixpoint dedupe_from (seen l : list string) : list string :=
  match l with
  | [] => []
  | x :: r =>
      if Str.mem x seen then dedupe_from seen r
      else x :: dedupe_from (x :: seen) r
  end.

Definition key_union (a b : list string) : list string :=
  dedupe_from [] (a ++ b)%list.

End JsMap.

(* ===================================================================== *)
(** ** [types.ts] *)
(* ===================================================================== *)

Module Types.

Inductive MatchStrategy := Basename | ByPath.

Inductive ConflictStrategy := OnError | OnWarn | OnFirst.

Record TargetHmrConfig := {
  cssRedirect : option (string * string);
  entryBoundary : option bool
}.

(** Entry redirect [{ from, to }]. *)
Record EntryRedirect := { from : string; to : string }.

Record ResolvedTarget := {
  package : string;
  alias : string;
  srcDir : string;
  srcPath : string;
  entryRedirect : option EntryRedirect;
  hmr : option TargetHmrConfig;
  entryFilePath : option string
}.

(** [ResolvedPatch]: [target] is the [test] of the declared pattern, and
    [configPath] the discovered config file, [None] for [null]. *)
Module Patch.
Record ResolvedPatch := {
  target : string -> bool;
  configFile : string;
  apply : string -> string -> string;
  configPath : option string
}.
End Patch.

(** [ResolvedOptions]; [extensionSet] is [extensions] read as a set. *)
Record ResolvedOptions := {
  targets : list ResolvedTarget;
  overrideDirs : list string;
  match_ : MatchStrategy;
  onConflict : ConflictStrategy;
  debug : bool;
  extensions : list string;
  patches : list Patch.ResolvedPatch;
  hmrBoundaries : list string
}.

Definition extensionSet_has (opts : ResolvedOptions) (ext : string) : bool :=
  Str.mem ext (extensions opts).

Definition OverrideMap : Type := JsMap.t string.
Definition NamespacedOverrideMap : Type := JsMap.t OverrideMap.

(** An entry of the combined target file index. *)
Record TargetFile := { target : ResolvedTarget; filePath : string }.

End Types.

(* ===================================================================== *)
(** ** The file system as the scanner sees it *)
(* ===================================================================== *)

Module Fs.

Inductive DirentKind := IsFile | IsDirectory | IsOther.

Record Dirent := { name : string; kind : DirentKind }.

(** [readdirSync] and [readFileSync] answer [None] where the call
    throws. *)
Record FileSystem := {
  cwd : string;
  readdirSync : string -> option (list Dirent);
  existsSync : string -> bool;
  readFileSync : string -> option string
}.

End Fs.

(* ===================================================================== *)
(** ** [scanner.ts] *)
(* ===================================================================== *)

Module Scanner.
Import Str Utils Types Fs.

(** [collectFiles] with [budget = MAX_SCAN_DEPTH + 1 - depth]: the guard
    [depth > MAX_SCAN_DEPTH] is [budget = 0]. *)
Fixpoint collectFiles_at (budget : nat) (fs : FileSystem) (dir : string)
         (extensionSet : list string) : list string :=
  match budget with
  | O => []
  | S budget' =>
      match readdirSync fs dir with
      | None => []
      | Some entries =>
          flat_map
            (fun entry =>
               if startsWith (name entry) "."
                  || String.eqb (name entry) "node_modules"
               then []
               else
                 let fullPath := Path.resolve (cwd fs) dir (name entry) in
                 match kind entry with
                 | IsDirectory =>
                     collectFiles_at budget' fs fullPath extensionSet
                 | IsFile =>
                     if mem (Path.extname (name entry)) extensionSet
                     then [fullPath] else []
                 | IsOther => []
                 end)
            entries
      end
  end.

(** [collectFiles(dir, extensionSet)] at the default depth 0. *)
Definition collectFiles (fs : FileSystem) (dir : string)
           (extensionSet : list string) : list string :=
  collectFiles_at (S MAX_SCAN_DEPTH) fs dir extensionSet.

(** [parts[parts.length - 2]] *)
Definition second_last (parts : list string) : option string :=
  match rev parts with
  | _ :: x :: _ => Some x
  | _ => None
  end.

(** [getOverrideKey]; [None] is the source's [null]. *)
Definition getOverrideKey (fs : FileSystem) (filePath baseDir : string)
           (m : MatchStrategy) : option string :=
  let normalized := normalizePath filePath in
  let parts := filter_truthy (split_slash normalized) in
  match parts with
  | [] => None
  | _ =>
      let fileName := last parts "" in
      let baseName := stripExtension fileName in
      if negb (truthy baseName) then None
      else
        match m with
        | ByPath =>
            let normalizedBase := normalizePath baseDir in
            let relative :=
              normalizePath (Path.relative (cwd fs) normalizedBase normalized) in
            Some (stripExtension relative)
        | Basename =>
            if String.eqb baseName "index" then
              if Nat.leb 2 (List.length parts) then
                match second_last parts with
                | Some d => if truthy d then Some d else None
                | None => None
                end
              else None
            else Some baseName
        end
  end.

(** [scanTarget] *)
Definition scanTarget (fs : FileSystem) (t : ResolvedTarget)
           (opts : ResolvedOptions) : OverrideMap :=
  fold_left
    (fun (map : OverrideMap) f =>
       match getOverrideKey fs f (srcPath t) (match_ opts) with
       | Some key => if truthy key then JsMap.set map key f else map
       | None => map
       end)
    (collectFiles fs (srcPath t) (extensions opts))
    JsMap.empty.

(** [scanAllTargets]: the combined index and the logger calls. *)
Definition scanAllTargets (fs : FileSystem) (opts : ResolvedOptions)
  : JsMap.t TargetFile * list LogEntry :=
  fold_left
    (fun (acc : JsMap.t TargetFile * list LogEntry) t =>
       let targetMap := scanTarget fs t opts in
       let line :=
         "Scanned " ++ show_nat (JsMap.size targetMap) ++ " files in "
         ++ package t ++ " (" ++ srcPath t ++ ")" in
       (fold_left
          (fun (combined : JsMap.t TargetFile) (kv : string * string) =>
             JsMap.set combined (fst kv)
                       {| target := t; filePath := snd kv |})
          targetMap (fst acc),
        logged (snd acc) Info line))
    (targets opts)
    (JsMap.empty, []).

(** [detectNamespace]: the pattern [^(@[^/]+\/[^/]+)\/] on the path
    relative to the override directory. *)
Definition detectNamespace (fs : FileSystem) (filePath overrideDir : string)
  : option string :=
  let relative := normalizePath (Path.relative (cwd fs) overrideDir filePath) in
  match split_slash relative with
  | scope :: pkg :: _ :: _ =>
      match scope with
      | String c rest =>
          if Ascii.eqb c "@"%char && truthy rest && truthy pkg
          then Some (scope ++ "/" ++ pkg)
          else None
      | EmptyString => None
      end
  | _ => None
  end.

Record ScanResult := {
  flat : OverrideMap;
  namespaced : NamespacedOverrideMap;
  scan_logs : list LogEntry
}.

Definition empty_scan : ScanResult :=
  {| flat := JsMap.empty; namespaced := JsMap.empty; scan_logs := [] |}.

(** The test [ns && targetPackages.has(ns)]: the detected namespace when
    it names a configured target. *)
Definition namespace_of_target (ns : option string)
           (targetPackages : list string) : option string :=
  match ns with
  | Some n => if truthy n && mem n targetPackages then Some n else None
  | None => None
  end.

(** The body of the inner loop of [scanOverrides], for one collected
    file of the override directory [dir]. *)
Definition scanOverrides_file (fs : FileSystem) (opts : ResolvedOptions)
           (dir : string) (acc : ScanResult) (fullPath : string)
  : ScanResult :=
  let targetPackages := map package (targets opts) in
  let relative := normalizePath (Path.relative (cwd fs) dir fullPath) in
  if existsb (fun part => startsWith part "_") (split_slash relative)
  then acc
  else
    let ns := detectNamespace fs fullPath dir in
    match namespace_of_target ns targetPackages with
    | Some n =>
        let nsDir := Path.join dir n in
        let key := getOverrideKey fs fullPath nsDir (match_ opts) in
        match key with
        | Some k =>
            if truthy k && negb (String.eqb k "index") then
              let inner :=
                match JsMap.get (namespaced acc) n with
                | Some m => m
                | None => JsMap.empty
                end in
              {| flat := flat acc;
                 namespaced :=
                   JsMap.set (namespaced acc) n (JsMap.set inner k fullPath);
                 scan_logs :=
                   logged (scan_logs acc) Info
                          ("Override [" ++ n ++ "]: " ++ k ++ " -> " ++ fullPath) |}
            else acc
        | None => acc
        end
    | None =>
        let key := getOverrideKey fs fullPath dir (match_ opts) in
        match key with
        | Some k =>
            if truthy k && negb (String.eqb k "index") then
              {| flat := JsMap.set (flat acc) k fullPath;
                 namespaced := namespaced acc;
                 scan_logs :=
                   logged (scan_logs acc) Info
                          ("Override: " ++ k ++ " -> " ++ fullPath) |}
            else acc
        | None => acc
        end
    end.

(** [scanOverrides] *)
Definition scanOverrides (fs : FileSystem) (opts : ResolvedOptions)
  : ScanResult :=
  fold_left
    (fun acc dir =>
       if negb (existsSync fs dir) then acc
       else
         fold_left (scanOverrides_file fs opts dir)
                   (sort (collectFiles fs dir (extensions opts)))
                   acc)
    (overrideDirs opts)
    empty_scan.

End Scanner.

(* ===================================================================== *)
(** ** [config.ts] *)
(* ===================================================================== *)

Module Config.
Import Str Utils Types Fs.

Definition CONFIG_EXTENSIONS : list string := [".tsx"; ".ts"; ".jsx"; ".js"].

(** The inner loop of [findConfigFile], over the extensions. *)
Fixpoint find_in_dir (fs : FileSystem) (basename dir : string)
         (exts : list string) : option string :=
  match exts with
  | [] => None
  | ext :: rest =>
      let p := Path.resolve (cwd fs) dir (basename ++ ext) in
      if existsSync fs p then Some p else find_in_dir fs basename dir rest
  end.

(** [findConfigFile] *)
Fixpoint findConfigFile (fs : FileSystem) (basename : string)
         (overrideDirs : list string) : option string :=
  match overrideDirs with
  | [] => None
  | dir :: rest =>
      match find_in_dir fs basename dir CONFIG_EXTENSIONS with
      | Some p => Some p
      | None => findConfigFile fs basename rest
      end
  end.

End Config.

(* ===================================================================== *)
(** ** [resolver.ts] *)
(* ===================================================================== *)

Module Resolver.
Import Str Utils Types Fs.

Record ResolverState := {
  flatOverrides : OverrideMap;
  namespacedOverrides : NamespacedOverrideMap;
  targetFiles : JsMap.t TargetFile
}.

(** The test of one loop iteration of [findImporterTarget]. *)
Definition owns_importer (norm : string) (t : ResolvedTarget) : bool :=
  let normSrc := normalizePath (srcPath t) in
  if startsWith norm (normSrc ++ "/") || String.eqb norm normSrc then true
  else
    let pkgDir := normalizePath (Path.dirname (srcPath t)) in
    startsWith norm (pkgDir ++ "/").

(** [findImporterTarget] *)
Definition findImporterTarget (importer : string) (opts : ResolvedOptions)
  : option ResolvedTarget :=
  let norm := normalizePath importer in
  find (owns_importer norm) (targets opts).

(** [norm.replace(/\/dist\/app\.(mjs|js)$/, "/src/app.tsx")] *)
Definition replace_dist_entry (norm : string) : string :=
  match strip_suffix "/dist/app.mjs" norm with
  | Some p => p ++ "/src/app.tsx"
  | None =>
      match strip_suffix "/dist/app.js" norm with
      | Some p => p ++ "/src/app.tsx"
      | None => norm
      end
  end.

(** [parts[parts.length - 1]] of [package.split("/")] *)
Definition lastPart (pkg : string) : string := last (split_slash pkg) "".

Fixpoint entry_redirect_loop (fs : FileSystem) (resolvedId norm : string)
         (ts : list ResolvedTarget) : option string * list LogEntry :=
  match ts with
  | [] => (None, [])
  | t :: rest =>
      match entryRedirect t with
      | Some rule =>
          let fromPattern := normalizePath (from rule) in
          if endsWith norm ("/" ++ fromPattern)
             || includes norm ("/" ++ fromPattern)
          then
            let pkgDir := Path.dirname (srcPath t) in
            let srcEntry := Path.join pkgDir (to rule) in
            if existsSync fs srcEntry then
              (Some srcEntry,
               [(Info, "Entry redirect: " ++ Path.basename resolvedId
                       ++ " -> " ++ to rule)])
            else entry_redirect_loop fs resolvedId norm rest
          else entry_redirect_loop fs resolvedId norm rest
      | None =>
          if includes norm ("/" ++ lastPart (package t) ++ "/dist/app.") then
            let srcEntry := replace_dist_entry norm in
            if existsSync fs srcEntry then
              (Some srcEntry,
               [(Info, "Entry redirect (auto): dist/app -> src/app.tsx")])
            else entry_redirect_loop fs resolvedId norm rest
          else entry_redirect_loop fs resolvedId norm rest
      end
  end.

(** [resolveEntryRedirect] *)
Definition resolveEntryRedirect (fs : FileSystem) (resolvedId : string)
           (opts : ResolvedOptions) : option string * list LogEntry :=
  let norm := strip_query (normalizePath resolvedId) in
  entry_redirect_loop fs resolvedId norm (targets opts).

End Resolver.

(* ===================================================================== *)
(** ** Asynchronous hooks *)
(* ===================================================================== *)

Module Async.
Import Types Fs.

(** A hook as a resumable computation.  [ReadNamespaced] and [ReadFlat]
    are the accesses [state.namespacedOverrides] and
    [state.flatOverrides] to the shared resolver state, each returning
    what the property holds at the moment it is executed;
    [AwaitResolve] is [await this.resolve(source, importer)], where the
    function is suspended and later resumed with the host's answer,
    reading the file system as it is at that moment. *)
Inductive t (A : Type) : Type :=
| Done : A -> t A
| ReadNamespaced : (NamespacedOverrideMap -> t A) -> t A
| ReadFlat : (OverrideMap -> t A) -> t A
| AwaitResolve :
    string -> string -> (option string -> FileSystem -> t A) -> t A.

Arguments Done {A} _.
Arguments ReadNamespaced {A} _.
Arguments ReadFlat {A} _.
Arguments AwaitResolve {A} _ _ _.

(** Run to completion while the two mappings, the host resolver and the
    file system stay as they are. *)
Fixpoint run {A : Type} (flat : OverrideMap) (namespaced : NamespacedOverrideMap)
         (host : string -> string -> option string)
         (fs : FileSystem) (a : t A) : A :=
  match a with
  | Done x => x
  | ReadNamespaced k => run flat namespaced host fs (k namespaced)
  | ReadFlat k => run flat namespaced host fs (k flat)
  | AwaitResolve source importer k =>
      run flat namespaced host fs (k (host source importer) fs)
  end.

End Async.

(* ===================================================================== *)
(** ** [plugin.ts] *)
(* ===================================================================== *)

Module Plugin.
Import Str Utils Types Fs Scanner Resolver.

Definition dquote : string := String (ascii_of_nat 34) "".

(** [list.join(sep)] *)
Fixpoint join_with (sep : string) (l : list string) : string :=
  match l with
  | [] => ""
  | [x] => x
  | x :: r => x ++ sep ++ join_with sep r
  end.

Definition ResolveResult : Type := option string * list LogEntry.

(** [!importer || importer.startsWith("\0")] *)
Definition importer_rejected (importer : option string) : bool :=
  match importer with
  | None => true
  | Some i => negb (truthy i) || startsWith i NUL
  end.

(** [source === target.package || source.startsWith(target.package + "/")] *)
Definition imports_package (source : string) (t : ResolvedTarget) : bool :=
  String.eqb source (package t) || startsWith source (package t ++ "/").

(** What follows [await this.resolve(...)]: the entry redirect, if any. *)
Definition redirect_of (opts : ResolvedOptions) (resolved : option string)
           (fs : FileSystem) : option ResolveResult :=
  match resolved with
  | Some id =>
      match resolveEntryRedirect fs id opts with
      | (Some redirect, logs) =>
          if truthy redirect then Some (Some redirect, logs) else None
      | (None, _) => None
      end
  | None => None
  end.

(** The loop of [resolveId] for an importer outside every target. *)
Fixpoint outside_loop (opts : ResolvedOptions) (source importer : string)
         (ts : list ResolvedTarget) : Async.t ResolveResult :=
  match ts with
  | [] => Async.Done (None, [])
  | t :: rest =>
      if negb (imports_package source t) then
        outside_loop opts source importer rest
      else
        Async.AwaitResolve source importer
          (fun resolved fs =>
             match redirect_of opts resolved fs with
             | Some r => Async.Done r
             | None => outside_loop opts source importer rest
             end)
  end.

(** Step 2 of [resolveId] for an importer inside the target [t]. *)
Definition entry_redirect_step (opts : ResolvedOptions) (t : ResolvedTarget)
           (source imp : string) : Async.t ResolveResult :=
  if imports_package source t then
    Async.AwaitResolve source imp
      (fun resolved fs =>
         match redirect_of opts resolved fs with
         | Some r => Async.Done r
         | None => Async.Done (None, [])
         end)
  else Async.Done (None, []).

(** [nsOverrides?.get(basename)] *)
Definition ns_lookup (namespaced : NamespacedOverrideMap) (pkg key : string)
  : option string :=
  match JsMap.get namespaced pkg with
  | Some m => JsMap.get m key
  | None => None
  end.

(** Step 1 of [resolveId], the file-level override, followed by [rest]
    when no override answers. *)
Definition override_step (t : ResolvedTarget) (source : string)
           (rest : Async.t ResolveResult) : Async.t ResolveResult :=
  let basename := stripExtension (Path.basename source) in
  if truthy basename && negb (String.eqb basename "index") then
    Async.ReadNamespaced
      (fun namespacedOverrides =>
         match ns_lookup namespacedOverrides (package t) basename with
         | Some p =>
             Async.Done
               (Some p,
                [(Info, "Override [" ++ package t ++ "]: " ++ basename
                        ++ " -> " ++ Path.basename p)])
         | None =>
             Async.ReadFlat
               (fun flatOverrides =>
                  match JsMap.get flatOverrides basename with
                  | Some p =>
                      Async.Done
                        (Some p,
                         [(Info, "Override: " ++ basename ++ " -> "
                                 ++ Path.basename p)])
                  | None => rest
                  end)
         end)
  else rest.

(** The [resolveId] hook. *)
Definition resolveId (opts : ResolvedOptions) (source : string)
           (importer : option string) : Async.t ResolveResult :=
  if startsWith source NUL || importer_rejected importer then
    Async.Done (None, [])
  else
    let imp := match importer with Some i => i | None => "" end in
    match findImporterTarget imp opts with
    | Some t =>
        override_step t source (entry_redirect_step opts t source imp)
    | None => outside_loop opts source imp (targets opts)
    end.

(** [normalizePath(overridePath).replace(/"/g, '\\"')] *)
Fixpoint escape_dquote (s : string) : string :=
  match s with
  | EmptyString => ""
  | String c r =>
      if Ascii.eqb c (ascii_of_nat 34)
      then String backslash (String c (escape_dquote r))
      else String c (escape_dquote r)
  end.

Definition newline : string := String (ascii_of_nat 10) "".

(** The re-export shim that [load] returns for an override. *)
Definition shim_code (overridePath : string) : string :=
  let normalizedPath := escape_dquote (normalizePath overridePath) in
  "export { default } from " ++ dquote ++ normalizedPath ++ dquote ++ newline
  ++ "export * from " ++ dquote ++ normalizedPath ++ dquote.

(** Step 2 of [load]: the first patch declaration that matches [id] and
    whose config file exists transforms the content of [id]. *)
Fixpoint load_patches (fs : FileSystem) (id normalizedId : string)
         (ps : list Patch.ResolvedPatch) : option string * list LogEntry :=
  match ps with
  | [] => (None, [])
  | patch :: rest =>
      if negb (Patch.target patch normalizedId) then
        load_patches fs id normalizedId rest
      else
        match Patch.configPath patch with
        | Some configPath =>
            if truthy configPath && existsSync fs configPath then
              match readFileSync fs id with
              | None =>
                  (None, [(Error, "Failed to read file for patching: " ++ id)])
              | Some original =>
                  (Some (Patch.apply patch original configPath),
                   [(Info, "Patch applied: " ++ Path.basename id ++ " via "
                           ++ Patch.configFile patch)])
              end
            else load_patches fs id normalizedId rest
        | None => load_patches fs id normalizedId rest
        end
  end.

(** Step 1 of [load] for an override path found in a mapping: the shim if
    the file exists, the patches otherwise. *)
Definition load_serve (fs : FileSystem) (ps : list Patch.ResolvedPatch)
           (id basename overridePath : string)
  : option string * list LogEntry :=
  if truthy overridePath && existsSync fs overridePath then
    (Some (shim_code overridePath),
     [(Info, "Load override: " ++ basename ++ " -> "
             ++ Path.basename overridePath)])
  else load_patches fs id (normalizePath id) ps.

(** The [load] hook, with the patch declarations [ps] as they are bound
    when it is called; the result is the code it returns, [None] for
    [null].  The calls of [addWatchFile] are not recorded. *)
Definition load (fs : FileSystem) (opts : ResolvedOptions)
           (ps : list Patch.ResolvedPatch) (id : string)
  : Async.t (option string * list LogEntry) :=
  match findImporterTarget id opts with
  | None => Async.Done (None, [])
  | Some t =>
      let basename := stripExtension (Path.basename id) in
      if negb (truthy basename) || String.eqb basename "index" then
        Async.Done (None, [])
      else
        Async.ReadNamespaced
          (fun namespacedOverrides =>
             match ns_lookup namespacedOverrides (package t) basename with
             | Some overridePath =>
                 Async.Done (load_serve fs ps id basename overridePath)
             | None =>
                 Async.ReadFlat
                   (fun flatOverrides =>
                      match JsMap.get flatOverrides basename with
                      | Some overridePath =>
                          Async.Done (load_serve fs ps id basename overridePath)
                      | None =>
                          Async.Done (load_patches fs id (normalizePath id) ps)
                      end)
             end)
  end.

(** [detectConflicts]: [inl] carries the message of the thrown error,
    [inr] the logger calls of a run that returns. *)
Fixpoint detectConflicts_loop
         (perTargetMaps : list (ResolvedTarget * OverrideMap))
         (policy : ConflictStrategy) (keys : list string)
         (logs : list LogEntry) : string + list LogEntry :=
  match keys with
  | [] => inr logs
  | key :: rest =>
      let matchingTargets :=
        filter (fun tm => JsMap.has (snd tm) key) perTargetMaps in
      if Nat.ltb 1 (List.length matchingTargets) then
        let names :=
          join_with ", " (map (fun tm => package (fst tm)) matchingTargets) in
        match policy with
        | OnError =>
            inl ("[" ++ PLUGIN_NAME ++ "] Override " ++ dquote ++ key
                 ++ dquote ++ " matches files in multiple targets: "
                 ++ names ++ ". "
                 ++ "Use namespaced overrides (overrides/@scope/pkg/"
                 ++ key ++ ".tsx) or set onConflict: " ++ dquote ++ "warn"
                 ++ dquote ++ ".")
        | OnWarn =>
            detectConflicts_loop perTargetMaps policy rest
              (logged logs Warn
                 ("Override " ++ dquote ++ key ++ dquote
                  ++ " matches files in multiple targets: " ++ names
                  ++ ". Using first match."))
        | OnFirst => detectConflicts_loop perTargetMaps policy rest logs
        end
      else detectConflicts_loop perTargetMaps policy rest logs
  end.

Definition detectConflicts (fs : FileSystem) (flat : OverrideMap)
           (opts : ResolvedOptions) : string + list LogEntry :=
  let perTargetMaps := map (fun t => (t, scanTarget fs t opts)) (targets opts) in
  detectConflicts_loop perTargetMaps (onConflict opts) (JsMap.keys flat) [].

(** The filter of the flat overrides at start-up, with its warnings. *)
Definition filter_flat_startup (targetFiles : JsMap.t TargetFile)
           (flat : OverrideMap) : OverrideMap * list LogEntry :=
  fold_left
    (fun (acc : OverrideMap * list LogEntry) (kv : string * string) =>
       if JsMap.has targetFiles (fst kv) then
         (JsMap.set (fst acc) (fst kv) (snd kv), snd acc)
       else
         (fst acc,
          logged (snd acc) Warn
            ("Override " ++ dquote ++ fst kv ++ dquote
             ++ " does not match any file in target packages — skipped")))
    flat (JsMap.empty, []).

(** The outcome of calling [unlock]. *)
Inductive Activation :=
| Inactive (logs : list LogEntry)
| Aborted (error : string) (logs : list LogEntry)
| Active (state : ResolverState) (logs : list LogEntry).

(** The summary lines that [unlock] logs about the active overrides. *)
Definition summary_logs (fileOverrides : OverrideMap)
           (namespaced : NamespacedOverrideMap) : list LogEntry :=
  let totalFileOverrides :=
    JsMap.size fileOverrides
    + fold_left (fun sum m => sum + JsMap.size m) (JsMap.values namespaced) 0 in
  if Nat.ltb 0 totalFileOverrides then
    let l1 := logged [] Info ("Active overrides: " ++ show_nat totalFileOverrides) in
    let l2 :=
      if Nat.ltb 0 (JsMap.size fileOverrides)
      then logged l1 Info
                  ("  File-level: " ++ join_with ", " (JsMap.keys fileOverrides))
      else l1 in
    fold_left
      (fun l (nm : string * OverrideMap) =>
         logged l Info
                ("  [" ++ fst nm ++ "]: " ++ join_with ", " (JsMap.keys (snd nm))))
      namespaced l2
  else [].

(** The lines that [unlock] logs about the patch declarations. *)
Definition patch_logs (ps : list Patch.ResolvedPatch) : list LogEntry :=
  map (fun patch =>
         match Patch.configPath patch with
         | Some configPath =>
             if truthy configPath then
               (Info, "Patch: " ++ Patch.configFile patch ++ " -> " ++ configPath)
             else
               (Info, "Patch: " ++ Patch.configFile patch
                      ++ " (no config file found)")
         | None =>
             (Info, "Patch: " ++ Patch.configFile patch
                    ++ " (no config file found)")
         end)
      ps.

(** [unlock], up to the construction of the resolver state. *)
Definition unlock (fs : FileSystem) (opts : ResolvedOptions) : Activation :=
  match targets opts with
  | [] => Inactive [(Warn, "No target packages found. Plugin will be inactive.")]
  | _ =>
      let '(targetFiles, logs1) := scanAllTargets fs opts in
      let scan := scanOverrides fs opts in
      let '(fileOverrides, logs2) := filter_flat_startup targetFiles (flat scan) in
      let logs := (logs1 ++ scan_logs scan ++ logs2)%list in
      let conflicts :=
        if Nat.ltb 1 (List.length (targets opts))
           && Nat.ltb 0 (JsMap.size fileOverrides)
        then detectConflicts fs fileOverrides opts
        else inr [] in
      match conflicts with
      | inl err => Aborted err logs
      | inr logs3 =>
          Active
            {| flatOverrides := fileOverrides;
               namespacedOverrides := namespaced scan;
               targetFiles := targetFiles |}
            (logs ++ logs3 ++ summary_logs fileOverrides (namespaced scan)
             ++ patch_logs (patches opts))%list
      end
  end.

End Plugin.

(* ===================================================================== *)
(** ** The host's module graph *)
(* ===================================================================== *)

Module Graph.
Import Str.

(** The host's graph is known to this system through three capabilities:
    the modules of a file, the importers of a module, and the request to
    invalidate one module.  The request is recorded for the module it
    names; what the host makes of it is the host's. *)

(** A module node: its identity, its file and the modules importing it. *)
Record ModuleNode := {
  id : nat;
  file : option string;
  importers : list nat
}.

(** The part of the host graph this system consults: the nodes and the
    index from file to modules. *)
Record ModuleGraph := {
  idToModuleMap : list ModuleNode;
  fileToModulesMap : JsMap.t (list nat)
}.

(** [moduleGraph.getModulesByFile(file)]; [None] is [undefined]. *)
Definition getModulesByFile (g : ModuleGraph) (f : string)
  : option (list nat) :=
  JsMap.get (fileToModulesMap g) f.

Definition mem_nat (x : nat) (l : list nat) : bool := existsb (Nat.eqb x) l.

(** [mod.importers] *)
Definition importers_of (g : ModuleGraph) (m : nat) : list nat :=
  match find (fun n => Nat.eqb (id n) m) (idToModuleMap g) with
  | Some n => importers n
  | None => []
  end.

(** [for (const mod of mods) roots.add(mod)] *)
Definition add_all (roots mods : list nat) : list nat :=
  fold_left (fun r m => if mem_nat m r then r else (r ++ [m])%list) mods roots.

(** The [while (queue.length > 0)] loop over the importers; the result is
    the [seen] set in the order in which its members were invalidated. *)
Fixpoint bfs_ancestors (fuel : nat) (g : ModuleGraph) (seen queue : list nat)
  : list nat :=
  match fuel with
  | O => seen
  | S fuel' =>
      match queue with
      | [] => seen
      | m :: q =>
          if mem_nat m seen then bfs_ancestors fuel' g seen q
          else bfs_ancestors fuel' g (seen ++ [m])%list
                             (q ++ importers_of g m)%list
      end
  end.

(** Enough iterations for the loop to empty its queue: every iteration
    removes one element, and a module's importers are pushed once. *)
Definition bfs_fuel (g : ModuleGraph) (queue : list nat) : nat :=
  S (List.length queue
     + fold_right (fun n acc => List.length (importers n) + acc) 0
                  (idToModuleMap g)).

(** The importers still to be pushed: those of the nodes not yet seen. *)
Definition unseen_weight (nodes : list ModuleNode) (seen : list nat) : nat :=
  fold_right
    (fun n acc =>
       (if mem_nat (id n) seen then 0 else List.length (importers n)) + acc)
    0 nodes.

(** [m] is one of [roots] or imports one, directly or through other
    modules. *)
Inductive ancestor (g : ModuleGraph) (roots : list nat) : nat -> Prop :=
| ancestor_root : forall r, In r roots -> ancestor g roots r
| ancestor_step : forall m p,
    ancestor g roots m -> In p (importers_of g m) -> ancestor g roots p.

End Graph.

(* ===================================================================== *)
(** ** [watcher.ts] *)
(* ===================================================================== *)

Module Watcher.
Import Str Utils Types Fs Scanner Resolver Graph.

(** What the watcher does to the outside, in order. *)
Inductive Effect :=
| Scan                          (* a call of [scanOverrides] *)
| Invalidate (m : nat)          (* [moduleGraph.invalidateModule(mod)] *)
| FullReload                    (* [ws.send({ type: "full-reload" })] *)
| Log (entry : LogEntry).

Definition is_scan (e : Effect) : bool :=
  match e with Scan => true | _ => false end.
Definition is_reload (e : Effect) : bool :=
  match e with FullReload => true | _ => false end.

(** The modules that a trace asks the host to invalidate, in order. *)
Fixpoint invalidated (tr : list Effect) : list nat :=
  match tr with
  | [] => []
  | Invalidate m :: r => m :: invalidated r
  | _ :: r => invalidated r
  end.

Definition count (p : Effect -> bool) (tr : list Effect) : nat :=
  List.length (filter p tr).

(** The delay of the [setTimeout] in [handleStructuralChange]. *)
Definition DEBOUNCE_MS : nat := 50.

(** [opts.extensionSet.has(ext)] and the [isOverrideFile] test. *)
Definition isOverrideFile (opts : ResolvedOptions) (filePath : string) : bool :=
  let normFile := normalizePath filePath in
  existsb (fun dir => startsWith normFile (normalizePath dir ++ "/"))
          (overrideDirs opts).

Definition qualifies (opts : ResolvedOptions) (filePath : string) : bool :=
  extensionSet_has opts (Path.extname filePath) && isOverrideFile opts filePath.

(** The [roots] set that [invalidateForKey] collects: the modules of the
    original target file of [key], then those of the override file. *)
Definition invalidation_roots (key : string) (isNowOverride : bool)
           (oldOverrides : OverrideMap) (state : ResolverState)
           (g : ModuleGraph) : list nat :=
  let roots1 :=
    match JsMap.get (targetFiles state) key with
    | Some targetInfo =>
        match getModulesByFile g (normalizePath (filePath targetInfo)) with
        | Some mods => add_all [] mods
        | None => []
        end
    | None => []
    end in
  let overridePath :=
    if isNowOverride then JsMap.get (flatOverrides state) key
    else JsMap.get oldOverrides key in
  match overridePath with
  | Some p =>
      if truthy p then
        match getModulesByFile g (normalizePath p) with
        | Some mods => add_all roots1 mods
        | None => roots1
        end
      else roots1
  | None => roots1
  end.

(** [invalidateForKey] *)
Definition invalidateForKey (key : string) (isNowOverride : bool)
           (oldOverrides : OverrideMap) (state : ResolverState)
           (g : ModuleGraph) : list Effect :=
  let roots := invalidation_roots key isNowOverride oldOverrides state g in
  if Nat.ltb 0 (List.length roots) then
    let queue := flat_map (importers_of g) roots in
    let seen := bfs_ancestors (bfs_fuel g queue) g [] queue in
    (map Invalidate roots ++ map Invalidate seen
     ++ [Log (Info, ("Invalidated " ++ Plugin.dquote ++ key ++ Plugin.dquote
                     ++ " + " ++ show_nat (List.length seen)
                     ++ " ancestor modules")%string)])%list
  else
    [Log (Info, "Override map updated for " ++ Plugin.dquote ++ key
                ++ Plugin.dquote ++ " (module not in graph yet)")].

(** The filter of the flat overrides inside the debounced callback. *)
Definition filter_flat (targetFiles : JsMap.t TargetFile) (flat : OverrideMap)
  : OverrideMap :=
  fold_left
    (fun (acc : OverrideMap) (kv : string * string) =>
       if JsMap.has targetFiles (fst kv) then JsMap.set acc (fst kv) (snd kv)
       else acc)
    flat JsMap.empty.

Definition opt_string_eqb (a b : option string) : bool :=
  match a, b with
  | Some x, Some y => String.eqb x y
  | None, None => true
  | _, _ => false
  end.

(** The keys that one diff loop does not skip. *)
Definition changed_keys (oldMap newMap : OverrideMap) : list string :=
  filter
    (fun key =>
       negb (Bool.eqb (JsMap.has oldMap key) (JsMap.has newMap key)
             && opt_string_eqb (JsMap.get oldMap key) (JsMap.get newMap key)))
    (JsMap.key_union (JsMap.keys oldMap) (JsMap.keys newMap)).

Definition action (was is_ : bool) : string :=
  if is_ then (if was then "changed" else "created") else "deleted".

(** The body of one diff loop, for the mapping [oldMap] against
    [newMap]; [label] renders the key in the log line. *)
Definition diff_effects (label : string -> string)
           (oldMap newMap : OverrideMap) (state : ResolverState)
           (g : ModuleGraph) : list Effect :=
  flat_map
    (fun key =>
       let was := JsMap.has oldMap key in
       let is_ := JsMap.has newMap key in
       Log (Info, label key ++ " " ++ action was is_)
       :: invalidateForKey key is_ oldMap state g)
    (changed_keys oldMap newMap).

Definition map_or_empty (m : NamespacedOverrideMap) (ns : string)
  : OverrideMap :=
  match JsMap.get m ns with Some x => x | None => JsMap.empty end.

(** [Object.assign(state, { flatOverrides, namespacedOverrides })]: the
    two properties are written one after the other inside one
    synchronous block. *)
Definition assign_flatOverrides (state : ResolverState) (m : OverrideMap)
  : ResolverState :=
  {| flatOverrides := m;
     namespacedOverrides := namespacedOverrides state;
     targetFiles := targetFiles state |}.

Definition assign_namespacedOverrides (state : ResolverState)
           (m : NamespacedOverrideMap) : ResolverState :=
  {| flatOverrides := flatOverrides state;
     namespacedOverrides := m;
     targetFiles := targetFiles state |}.

Definition object_assign (state : ResolverState) (fileOverrides : OverrideMap)
           (namespaced : NamespacedOverrideMap) : ResolverState :=
  assign_namespacedOverrides (assign_flatOverrides state fileOverrides)
                             namespaced.

(** The callback of the debounce timer: rescan, swap, diff, invalidate,
    and one full reload if anything changed. *)
Definition rebuild (fs : FileSystem) (opts : ResolvedOptions)
           (g : ModuleGraph) (state : ResolverState)
  : ResolverState * list Effect :=
  let oldFlat := flatOverrides state in
  let oldNamespaced := namespacedOverrides state in
  let scan := scanOverrides fs opts in
  let fileOverrides := filter_flat (targetFiles state) (flat scan) in
  let state' := object_assign state fileOverrides (namespaced scan) in
  let flat_effects :=
    diff_effects
      (fun key => "Override " ++ Plugin.dquote ++ key ++ Plugin.dquote)
      oldFlat fileOverrides state' g in
  let allNs :=
    JsMap.key_union (JsMap.keys oldNamespaced) (JsMap.keys (namespaced scan)) in
  let ns_effects :=
    flat_map
      (fun ns =>
         diff_effects
           (fun key => "Override [" ++ ns ++ "] " ++ Plugin.dquote ++ key
                       ++ Plugin.dquote)
           (map_or_empty oldNamespaced ns)
           (map_or_empty (namespaced scan) ns) state' g)
      allNs in
  let hasChanges :=
    Nat.ltb 0 (List.length (changed_keys oldFlat fileOverrides))
    || existsb
         (fun ns =>
            Nat.ltb 0 (List.length
                         (changed_keys (map_or_empty oldNamespaced ns)
                                       (map_or_empty (namespaced scan) ns))))
         allNs in
  (state',
   (Scan :: map Log (scan_logs scan) ++ flat_effects ++ ns_effects
    ++ (if hasChanges
        then [Log (Info, "Structural change detected -> full reload");
              FullReload]
        else []))%list).

(** The watcher: the due time of the pending debounce timer, if one is
    pending, the shared resolver state, the patch declarations with their
    current [configPath], and the effects so far. *)
Record Watcher := {
  pending : option nat;
  state : ResolverState;
  bound : list Patch.ResolvedPatch;
  trace : list Effect
}.

(** [handleStructuralChange] at time [now]:
    [clearTimeout(debounceTimer); debounceTimer = setTimeout(..., 50)]. *)
Definition handleStructuralChange (opts : ResolvedOptions) (now : nat)
           (filePath : string) (w : Watcher) : Watcher :=
  if negb (extensionSet_has opts (Path.extname filePath)) then w
  else if negb (isOverrideFile opts filePath) then w
  else {| pending := Some (now + DEBOUNCE_MS);
          state := state w;
          bound := bound w;
          trace := trace w |}.

(** The listener of [change] events for override files. *)
Definition handleChange (opts : ResolvedOptions) (g : ModuleGraph)
           (filePath : string) (w : Watcher) : Watcher :=
  if negb (extensionSet_has opts (Path.extname filePath)) then w
  else
    let normFile := normalizePath filePath in
    if negb (isOverrideFile opts filePath) then w
    else
      let basename := stripExtension (Path.basename filePath) in
      if negb (truthy basename) then w
      else
        let isTrackedOverride :=
          JsMap.has (flatOverrides (state w)) basename
          || existsb (fun m : OverrideMap => JsMap.has m basename)
                     (JsMap.values (namespacedOverrides (state w))) in
        if negb isTrackedOverride then w
        else
          match getModulesByFile g normFile with
          | Some (_ :: _) => w
          | _ =>
              match JsMap.get (targetFiles (state w)) basename with
              | None => w
              | Some targetInfo =>
                  match getModulesByFile
                          g (normalizePath (Types.filePath targetInfo)) with
                  | Some origMods =>
                      {| pending := pending w;
                         state := state w;
                         bound := bound w;
                         trace :=
                           (trace w ++ map Invalidate origMods
                            ++ [Log (Info, ("Override content changed: "
                                            ++ basename ++ " -> reload")%string);
                                FullReload])%list |}
                  | None => w
                  end
              end
          end.

(** [invalidatePatchTarget] *)
Definition invalidatePatchTarget (patch : Patch.ResolvedPatch)
           (g : ModuleGraph) : list Effect :=
  let matching :=
    filter (fun m : ModuleNode =>
              match file m with
              | Some f => truthy f && Patch.target patch (normalizePath f)
              | None => false
              end)
           (idToModuleMap g) in
  let roots := add_all [] (map id matching) in
  let root_effects :=
    flat_map
      (fun m : ModuleNode =>
         [Invalidate (id m);
          Log (Info, "Invalidated patch target: "
                     ++ Path.basename (match file m with
                                       | Some f => f
                                       | None => ""
                                       end))])
      matching in
  let queue := flat_map (importers_of g) roots in
  let seen := bfs_ancestors (bfs_fuel g queue) g [] queue in
  (root_effects ++ map Invalidate seen
   ++ (if Nat.ltb 0 (List.length roots) && Nat.ltb 0 (List.length seen)
       then [Log (Info, ("Invalidated " ++ show_nat (List.length seen)
                         ++ " ancestor modules")%string)]
       else []))%list.

(** The loop of [handlePatchConfigStructural] over the declarations: the
    declarations with their new bindings, and the effects. *)
Fixpoint rebind_patches (fs : FileSystem) (opts : ResolvedOptions)
         (g : ModuleGraph) (basename : string)
         (ps : list Patch.ResolvedPatch)
  : list Patch.ResolvedPatch * list Effect :=
  match ps with
  | [] => ([], [])
  | patch :: rest =>
      let '(rest', effects) := rebind_patches fs opts g basename rest in
      if negb (String.eqb basename (Patch.configFile patch)) then
        (patch :: rest', effects)
      else
        let newPath :=
          Config.findConfigFile fs (Patch.configFile patch) (overrideDirs opts) in
        if opt_string_eqb newPath (Patch.configPath patch) then
          (patch :: rest', effects)
        else
          let patch' :=
            {| Patch.target := Patch.target patch;
               Patch.configFile := Patch.configFile patch;
               Patch.apply := Patch.apply patch;
               Patch.configPath := newPath |} in
          (patch' :: rest',
           (Log (Info, ("Patch config "
                        ++ (match newPath with
                            | Some _ => "detected"
                            | None => "removed"
                            end)
                        ++ ": " ++ Patch.configFile patch)%string)
            :: invalidatePatchTarget patch' g ++ [FullReload] ++ effects)%list)
  end.

(** [handlePatchConfigStructural] *)
Definition handlePatchConfigStructural (fs : FileSystem)
           (opts : ResolvedOptions) (g : ModuleGraph) (filePath : string)
           (w : Watcher) : Watcher :=
  let basename := stripExtension (Path.basename filePath) in
  if negb (truthy basename) then w
  else if negb (isOverrideFile opts filePath) then w
  else
    let '(ps, effects) := rebind_patches fs opts g basename (bound w) in
    {| pending := pending w; state := state w; bound := ps;
       trace := (trace w ++ effects)%list |}.

(** The loop of [handlePatchConfigContentEdit]: the effects for the first
    declaration bound to the edited file. *)
Fixpoint config_edit_effects (g : ModuleGraph) (normFile : string)
         (ps : list Patch.ResolvedPatch) : list Effect :=
  match ps with
  | [] => []
  | patch :: rest =>
      match Patch.configPath patch with
      | Some configPath =>
          if truthy configPath
             && String.eqb (normalizePath configPath) normFile
          then
            (Log (Info, ("Patch config content changed: "
                         ++ Patch.configFile patch)%string)
             :: invalidatePatchTarget patch g ++ [FullReload])%list
          else config_edit_effects g normFile rest
      | None => config_edit_effects g normFile rest
      end
  end.

(** [handlePatchConfigContentEdit] *)
Definition handlePatchConfigContentEdit (g : ModuleGraph) (filePath : string)
           (w : Watcher) : Watcher :=
  {| pending := pending w; state := state w; bound := bound w;
     trace := (trace w
               ++ config_edit_effects g (normalizePath filePath) (bound w))%list |}.

(** The file system and the module graph as they are at each instant. *)
Record World := {
  fs_at : nat -> FileSystem;
  graph_at : nat -> ModuleGraph
}.

(** The timer callback runs at its due time. *)
Definition fire (opts : ResolvedOptions) (world : World) (due : nat)
           (w : Watcher) : Watcher :=
  let '(state', effects) :=
    rebuild (fs_at world due) opts (graph_at world due) (state w) in
  {| pending := None; state := state'; bound := bound w;
     trace := (trace w ++ effects)%list |}.

(** Let time pass up to [now]: a pending timer that is due fires. *)
Definition advance (opts : ResolvedOptions) (world : World) (now : nat)
           (w : Watcher) : Watcher :=
  match pending w with
  | Some due => if Nat.leb due now then fire opts world due w else w
  | None => w
  end.

Inductive FsEvent :=
| Add (filePath : string)
| Unlink (filePath : string)
| Change (filePath : string).

(** The listeners registered by [setupWatcher], in the order of their
    registration; those of the patch configs are registered only when a
    patch is declared. *)
Definition dispatch (opts : ResolvedOptions) (world : World) (now : nat)
           (ev : FsEvent) (w : Watcher) : Watcher :=
  let has_patches := Nat.ltb 0 (List.length (patches opts)) in
  match ev with
  | Add p | Unlink p =>
      let w1 := handleStructuralChange opts now p w in
      if has_patches then
        handlePatchConfigStructural (fs_at world now) opts
                                    (graph_at world now) p w1
      else w1
  | Change p =>
      let w1 := handleChange opts (graph_at world now) p w in
      if has_patches then
        handlePatchConfigContentEdit (graph_at world now) p w1
      else w1
  end.

(** Events delivered at their instants, in order. *)
Fixpoint run (opts : ResolvedOptions) (world : World)
         (events : list (nat * FsEvent)) (w : Watcher) : Watcher :=
  match events with
  | [] => w
  | (now, ev) :: rest =>
      run opts world rest (dispatch opts world now ev (advance opts world now w))
  end.

(** The logger calls of a trace. *)
Fixpoint logs_of (tr : list Effect) : list LogEntry :=
  match tr with
  | [] => []
  | Log entry :: r => entry :: logs_of r
  | _ :: r => logs_of r
  end.

(** The file bears the name of the config file of a patch declaration. *)
Definition names_patch_config (ps : list Patch.ResolvedPatch)
           (filePath : string) : bool :=
  existsb (fun patch =>
             String.eqb (stripExtension (Path.basename filePath))
                        (Patch.configFile patch))
          ps.

(** The file is the config file that a patch declaration is bound to. *)
Definition bound_config (ps : list Patch.ResolvedPatch) (filePath : string)
  : bool :=
  existsb (fun patch =>
             match Patch.configPath patch with
             | Some configPath =>
                 truthy configPath
                 && String.eqb (normalizePath configPath)
                               (normalizePath filePath)
             | None => false
             end)
          ps.

(** A structural event: the creation or deletion of an override file, a
    file with an allowed extension under an override directory that is
    not the config file of a patch declaration. *)
Definition structural (opts : ResolvedOptions) (ps : list Patch.ResolvedPatch)
           (ev : FsEvent) : bool :=
  match ev with
  | Add p | Unlink p => qualifies opts p && negb (names_patch_config ps p)
  | Change _ => false
  end.

(** The events that follow an event at instant [prev], each one a
    qualifying structural event that arrives before the debounce window
    opened by the one before it has elapsed. *)
Fixpoint within_window (opts : ResolvedOptions)
         (ps : list Patch.ResolvedPatch) (prev : nat)
         (events : list (nat * FsEvent)) : Prop :=
  match events with
  | [] => True
  | (now, ev) :: rest =>
      structural opts ps ev = true
      /\ prev <= now /\ now < prev + DEBOUNCE_MS
      /\ within_window opts ps now rest
  end.

(** The instant of the last event. *)
Fixpoint last_instant (prev : nat) (events : list (nat * FsEvent)) : nat :=
  match events with
  | [] => prev
  | (now, _) :: rest => last_instant now rest
  end.

(** Effects that are neither a scan nor a reload. *)
Definition quiet (tr : list Effect) : Prop :=
  Forall (fun e => is_scan e || is_reload e = false) tr.

End Watcher.

(* ===================================================================== *)
(** ** The cooperative event loop *)
(* ===================================================================== *)

Module EventLoop.
Import Str Utils Types Fs Scanner Resolver Graph Plugin Watcher.

(** The hooks that read the resolver state. *)
Inductive Hook :=
| ResolveIdHook (source : string) (importer : option string)
| LoadHook (id : string) (ps : list Patch.ResolvedPatch).

Definition Outcome : Type := option string * list LogEntry.

Definition hook_body (fs : FileSystem) (opts : ResolvedOptions) (h : Hook)
  : Async.t Outcome :=
  match h with
  | ResolveIdHook source importer => resolveId opts source importer
  | LoadHook id ps => load fs opts ps id
  end.

(** What a hook call got from one access to the shared state. *)
Inductive Observation :=
| SawNamespaced (m : NamespacedOverrideMap)
| SawFlat (m : OverrideMap).

Definition Continuation : Type :=
  option string -> FileSystem -> Async.t Outcome.

(** One synchronous stretch of a hook, from where it stands to its
    return or to its next [await]: every access reads the shared state
    [cell] as it is now. *)
Fixpoint run_turn (cell : ResolverState) (a : Async.t Outcome)
  : (Outcome + Continuation) * list Observation :=
  match a with
  | Async.Done r => (inl r, [])
  | Async.ReadNamespaced k =>
      let '(res, obs) := run_turn cell (k (namespacedOverrides cell)) in
      (res, SawNamespaced (namespacedOverrides cell) :: obs)
  | Async.ReadFlat k =>
      let '(res, obs) := run_turn cell (k (flatOverrides cell)) in
      (res, SawFlat (flatOverrides cell) :: obs)
  | Async.AwaitResolve _ _ k => (inr k, [])
  end.

(** The loop: the shared state, the suspended calls, the finished
    calls, and all the accesses made, each tagged with the number of its
    call. *)
Record Loop := {
  cell : ResolverState;
  next_call : nat;
  suspended : list (nat * Continuation);
  finished : list (nat * Outcome);
  observed : list (nat * Observation)
}.

Definition init (cell0 : ResolverState) : Loop :=
  {| cell := cell0; next_call := 0;
     suspended := []; finished := []; observed := [] |}.

(** What the loop runs next; each is one uninterrupted synchronous
    block. *)
Inductive Turn :=
| TimerFires (fs : FileSystem) (g : ModuleGraph)
| HookCalled (h : Hook) (fs : FileSystem)
| HostAnswers (call : nat) (resolved : option string) (fs : FileSystem).

Definition settle (l : Loop) (call : nat)
           (r : (Outcome + Continuation) * list Observation)
           (others : list (nat * Continuation)) (next : nat) : Loop :=
  {| cell := cell l;
     next_call := next;
     suspended :=
       match fst r with
       | inr k => (call, k) :: others
       | inl _ => others
       end;
     finished :=
       match fst r with
       | inl out => (call, out) :: finished l
       | inr _ => finished l
       end;
     observed := (observed l ++ map (fun o => (call, o)) (snd r))%list |}.

Fixpoint take_call (call : nat) (s : list (nat * Continuation))
  : option (Continuation * list (nat * Continuation)) :=
  match s with
  | [] => None
  | (c, k) :: rest =>
      if Nat.eqb c call then Some (k, rest)
      else match take_call call rest with
           | Some (k', rest') => Some (k', (c, k) :: rest')
           | None => None
           end
  end.

Definition step (opts : ResolvedOptions) (turn : Turn) (l : Loop) : Loop :=
  match turn with
  | TimerFires fs g =>
      {| cell := fst (rebuild fs opts g (cell l));
         next_call := next_call l;
         suspended := suspended l;
         finished := finished l;
         observed := observed l |}
  | HookCalled h fs =>
      settle l (next_call l) (run_turn (cell l) (hook_body fs opts h))
             (suspended l) (S (next_call l))
  | HostAnswers call resolved fs =>
      match take_call call (suspended l) with
      | Some (k, others) =>
          settle l call (run_turn (cell l) (k resolved fs)) others
                 (next_call l)
      | None => l
      end
  end.

Definition run_loop (opts : ResolvedOptions) (turns : list Turn) (l : Loop)
  : Loop :=
  fold_left (fun l turn => step opts turn l) turns l.

(** An access agrees with a state when it returned that state's
    mapping. *)
Definition agrees (s : ResolverState) (o : Observation) : Prop :=
  match o with
  | SawNamespaced m => m = namespacedOverrides s
  | SawFlat m => m = flatOverrides s
  end.

Definition is_call (turn : Turn) : bool :=
  match turn with HookCalled _ _ => true | _ => false end.

(** The number of hook calls that a schedule starts: the number that the
    next call gets. *)
Definition calls_in (turns : list Turn) : nat :=
  List.length (filter is_call turns).

(** The file system that the last scan of the override tree read: the
    one that the last timer callback of the schedule found, or that of
    start-up, [fs0], when no timer fired. *)
Definition last_scanned (fs0 : FileSystem) (turns : list Turn) : FileSystem :=
  fold_left
    (fun fs turn => match turn with TimerFires fs' _ => fs' | _ => fs end)
    turns fs0.

(** The resolver state that holds the two mappings of one scan of the
    override tree on [fs], the flat one filtered, next to the target
    file index built at start-up on [fs0]. *)
Definition scanned_state (opts : ResolvedOptions) (fs0 fs : FileSystem)
  : ResolverState :=
  {| flatOverrides :=
       filter_flat (fst (scanAllTargets fs0 opts))
                   (flat (scanOverrides fs opts));
     namespacedOverrides := namespaced (scanOverrides fs opts);
     targetFiles := fst (scanAllTargets fs0 opts) |}.

(** No access to the shared state on any path. *)
Inductive read_free {A : Type} : Async.t A -> Prop :=
| rf_done : forall x, read_free (Async.Done x)
| rf_await : forall s i k,
    (forall r fs, read_free (k r fs)) -> read_free (Async.AwaitResolve s i k).

(** Every access to the shared state comes before the first [await]. *)
Inductive reads_first {A : Type} : Async.t A -> Prop :=
| rb_done : forall x, reads_first (Async.Done x)
| rb_ns : forall k,
    (forall m, reads_first (k m)) -> reads_first (Async.ReadNamespaced k)
| rb_flat : forall k,
    (forall m, reads_first (k m)) -> reads_first (Async.ReadFlat k)
| rb_await : forall s i k,
    (forall r fs, read_free (k r fs)) -> reads_first (Async.AwaitResolve s i k).

(** What holds of the loop once it has run the turns [done] from the
    state of start-up: the shared state is the pair of the last scan,
    calls are numbered in the order they are started, a suspended call
    has nothing left to read, and every access of a call was answered
    by the state as it stood when the call was started. *)
Definition invariant (opts : ResolvedOptions) (fs0 : FileSystem)
           (done : list Turn) (l : Loop) : Prop :=
  cell l = scanned_state opts fs0 (last_scanned fs0 done)
  /\ next_call l = calls_in done
  /\ (forall c k, In (c, k) (suspended l) -> forall r fs, read_free (k r fs))
  /\ forall c o,
      In (c, o) (observed l) ->
      exists before h fs after,
        done = (before ++ HookCalled h fs :: after)%list
        /\ calls_in before = c
        /\ agrees (scanned_state opts fs0 (last_scanned fs0 before)) o.

End EventLoop.

(* ===================================================================== *)
(** ** Concrete projects used as test inputs *)
(* ===================================================================== *)

Module Sample.
Import Str Utils Types Fs Scanner Resolver Graph Plugin Watcher.

Definition fileEntry (n : string) : Dirent := {| name := n; kind := IsFile |}.
Definition dirEntry (n : string) : Dirent := {| name := n; kind := IsDirectory |}.

(** A file system given by the listing of each of its directories. *)
Definition fs_of (listing : JsMap.t (list Dirent)) (files : list string)
  : FileSystem :=
  {| cwd := "/proj";
     readdirSync := fun d => JsMap.get listing d;
     existsSync := fun p => JsMap.has listing p || mem p files;
     readFileSync := fun p => if mem p files then Some "" else None |}.

Definition default_extensions : list string :=
  [".tsx"; ".ts"; ".jsx"; ".js"; ".vue"; ".svelte"; ".mts"; ".mjs"].

Definition mkTarget (pkg src : string) : ResolvedTarget :=
  {| package := pkg; alias := "~" ++ lastPart pkg; srcDir := "src";
     srcPath := src; entryRedirect := None; hmr := None;
     entryFilePath := None |}.

Definition dashboard : ResolvedTarget :=
  mkTarget "@acme/dashboard" "/proj/node_modules/@acme/dashboard/src".
Definition ui : ResolvedTarget :=
  mkTarget "@acme/ui" "/proj/node_modules/@acme/ui/src".
Definition mylib : ResolvedTarget :=
  mkTarget "my-lib" "/proj/node_modules/my-lib/src".

Definition mkOpts (ts : list ResolvedTarget) (policy : ConflictStrategy)
  : ResolvedOptions :=
  {| targets := ts; overrideDirs := ["/proj/src/overrides"];
     match_ := Basename; onConflict := policy; debug := false;
     extensions := default_extensions; patches := []; hmrBoundaries := [] |}.

(** A state in which the key [Button] is overridden both for the target
    [@acme/ui] and flatly. *)
Definition both_state : ResolverState :=
  {| flatOverrides := [("Button", "/proj/src/overrides/Button.tsx")];
     namespacedOverrides :=
       [("@acme/ui", [("Button", "/proj/src/overrides/@acme/ui/Button.tsx")])];
     targetFiles :=
       [("Button",
         {| target := ui;
            filePath := "/proj/node_modules/@acme/ui/src/Button.tsx" |})] |}.

Definition ui_importer : string := "/proj/node_modules/@acme/ui/src/App.tsx".

Definition no_host : string -> string -> option string := fun _ _ => None.

Definition empty_fs : FileSystem := fs_of [] [].


Definition two_targets : ResolvedOptions := mkOpts [dashboard; ui] OnError.

(** A virtual module id whose last segment is [Button.tsx]. *)
Definition virtual_button : string := NUL ++ "virtual/Button.tsx".


(** An override root that holds only [index.tsx]. *)
Definition root_index_fs : FileSystem :=
  fs_of [("/proj/src/overrides", [fileEntry "index.tsx"])] [].

(** An override root with a directory named after the unscoped target
    [my-lib]. *)
Definition bare_name_fs : FileSystem :=
  fs_of [("/proj/src/overrides", [dirEntry "my-lib"]);
         ("/proj/src/overrides/my-lib", [fileEntry "Card.tsx"])] [].

Definition bare_name_opts : ResolvedOptions := mkOpts [mylib] OnError.

(** An override root with a directory named after the scoped target
    [@acme/ui]. *)
Definition scoped_fs : FileSystem :=
  fs_of [("/proj/src/overrides", [dirEntry "@acme"]);
         ("/proj/src/overrides/@acme", [dirEntry "ui"]);
         ("/proj/src/overrides/@acme/ui", [fileEntry "Button.tsx"])] [].


(** [@acme/dashboard] with the explicit rule [dist/app.mjs -> src/main.tsx]. *)
Definition dashboard_explicit : ResolvedTarget :=
  {| package := "@acme/dashboard"; alias := "~dashboard"; srcDir := "src";
     srcPath := "/proj/node_modules/@acme/dashboard/src";
     entryRedirect := Some {| from := "dist/app.mjs"; to := "src/main.tsx" |};
     hmr := None; entryFilePath := None |}.

(** The application's own entry, outside every target. *)
Definition app_importer : string := "/proj/src/main.tsx".

(** Normal resolution of the package [@acme/dashboard]. *)
Definition entry_host : string -> string -> option string :=
  fun source _ =>
    if String.eqb source "@acme/dashboard"
    then Some "/proj/node_modules/@acme/dashboard/dist/app.mjs"
    else None.

(** A disk on which [src/app.tsx] of the dashboard exists. *)
Definition entry_fs : FileSystem :=
  fs_of [] ["/proj/node_modules/@acme/dashboard/src/app.tsx";
            "/proj/node_modules/@acme/dashboard/dist/app.mjs"].

(** A project whose only override is [@acme/ui/Orphan.tsx], a key that no
    target file has. *)
Definition orphan_fs : FileSystem :=
  fs_of [("/proj/src/overrides", [dirEntry "@acme"]);
         ("/proj/src/overrides/@acme", [dirEntry "ui"]);
         ("/proj/src/overrides/@acme/ui", [fileEntry "Orphan.tsx"]);
         ("/proj/node_modules/@acme/dashboard/src", [fileEntry "Button.tsx"]);
         ("/proj/node_modules/@acme/ui/src", [fileEntry "Card.tsx"])] [].

Definition orphan_state : ResolverState :=
  {| flatOverrides := [];
     namespacedOverrides :=
       [("@acme/ui", [("Orphan", "/proj/src/overrides/@acme/ui/Orphan.tsx")])];
     targetFiles :=
       [("Button",
         {| target := dashboard;
            filePath := "/proj/node_modules/@acme/dashboard/src/Button.tsx" |});
        ("Card",
         {| target := ui;
            filePath := "/proj/node_modules/@acme/ui/src/Card.tsx" |})] |}.

(** A virtual module id whose last segment is [Orphan.tsx]. *)
Definition virtual_orphan : string := NUL ++ "virtual/Orphan.tsx".

Definition empty_graph : ModuleGraph :=
  {| idToModuleMap := []; fileToModulesMap := [] |}.

Definition orphan_logs : list LogEntry :=
  match unlock orphan_fs two_targets with
  | Active _ logs => logs
  | _ => []
  end.

(** Two targets that both ship [Button.tsx], and one flat override of it. *)
Definition conflict_fs : FileSystem :=
  fs_of [("/proj/src/overrides", [fileEntry "Button.tsx"]);
         ("/proj/node_modules/@acme/dashboard/src", [fileEntry "Button.tsx"]);
         ("/proj/node_modules/@acme/ui/src", [fileEntry "Button.tsx"])] [].

Definition conflict_opts (policy : ConflictStrategy) : ResolvedOptions :=
  mkOpts [dashboard; ui] policy.

Definition conflict_state : ResolverState :=
  {| flatOverrides := [("Button", "/proj/src/overrides/Button.tsx")];
     namespacedOverrides := [];
     targetFiles :=
       [("Button",
         {| target := ui;
            filePath := "/proj/node_modules/@acme/ui/src/Button.tsx" |})] |}.

Definition conflict_names : string :=
  "Override " ++ dquote ++ "Button" ++ dquote
  ++ " matches files in multiple targets: @acme/dashboard, @acme/ui".

(** The state before the namespaced override [@acme/ui/Button.tsx] is
    created: no override at all. *)
Definition before_create : ResolverState :=
  {| flatOverrides := [];
     namespacedOverrides := [];
     targetFiles :=
       [("Button",
         {| target := ui;
            filePath := "/proj/node_modules/@acme/ui/src/Button.tsx" |})] |}.

(** A graph that holds the original [Button] of [@acme/ui] (module 1,
    imported by module 2) and the file of the new override (module 3,
    imported directly by the page of module 4). *)
Definition create_graph : ModuleGraph :=
  {| idToModuleMap :=
       [ {| id := 1;
            file := Some "/proj/node_modules/@acme/ui/src/Button.tsx";
            importers := [2] |};
         {| id := 2;
            file := Some "/proj/node_modules/@acme/ui/src/App.tsx";
            importers := [] |};
         {| id := 3;
            file := Some "/proj/src/overrides/@acme/ui/Button.tsx";
            importers := [4] |};
         {| id := 4;
            file := Some "/proj/src/pages/Demo.tsx";
            importers := [] |} ];
     fileToModulesMap :=
       [("/proj/node_modules/@acme/ui/src/Button.tsx", [1]);
        ("/proj/node_modules/@acme/ui/src/App.tsx", [2]);
        ("/proj/src/overrides/@acme/ui/Button.tsx", [3]);
        ("/proj/src/pages/Demo.tsx", [4])] |}.

(** Module [A] (2) imports module [B] (1), the original [Button]; the
    override file itself has no module. *)
Definition shim_graph : ModuleGraph :=
  {| idToModuleMap :=
       [ {| id := 1;
            file := Some "/proj/node_modules/@acme/ui/src/Button.tsx";
            importers := [2] |};
         {| id := 2;
            file := Some "/proj/node_modules/@acme/ui/src/App.tsx";
            importers := [] |} ];
     fileToModulesMap :=
       [("/proj/node_modules/@acme/ui/src/Button.tsx", [1]);
        ("/proj/node_modules/@acme/ui/src/App.tsx", [2])] |}.

Definition shim_world : World :=
  {| fs_at := fun _ => conflict_fs; graph_at := fun _ => shim_graph |}.

(** A patch of the main layout driven by [menu.config], not yet bound. *)
Definition menu_patch : Patch.ResolvedPatch :=
  {| Patch.target := fun f => endsWith f "/main-layout.tsx";
     Patch.configFile := "menu.config";
     Patch.apply := fun code _ => code;
     Patch.configPath := None |}.

Definition patched_opts : ResolvedOptions :=
  {| targets := [dashboard; ui]; overrideDirs := ["/proj/src/overrides"];
     match_ := Basename; onConflict := OnError; debug := false;
     extensions := default_extensions; patches := [menu_patch];
     hmrBoundaries := [] |}.

(** The override root once [menu.config.ts] and [@acme/ui/Button.tsx]
    have been created. *)
Definition patched_fs : FileSystem :=
  fs_of [("/proj/src/overrides", [dirEntry "@acme"; fileEntry "menu.config.ts"]);
         ("/proj/src/overrides/@acme", [dirEntry "ui"]);
         ("/proj/src/overrides/@acme/ui", [fileEntry "Button.tsx"])]
        ["/proj/src/overrides/menu.config.ts"].

Definition patched_world : World :=
  {| fs_at := fun _ => patched_fs; graph_at := fun _ => create_graph |}.

(** Two creations 20 ms apart: the config file of the patch, then a
    namespaced override. *)
Definition patched_burst : list (nat * FsEvent) :=
  [(100, Add "/proj/src/overrides/menu.config.ts");
   (120, Add "/proj/src/overrides/@acme/ui/Button.tsx")].

Definition patched_start : Watcher :=
  {| pending := None; state := before_create; bound := [menu_patch];
     trace := [] |}.

(** A watcher whose timer, armed at instant 80, is due at 130. *)
Definition armed : Watcher :=
  {| pending := Some 130; state := before_create; bound := []; trace := [] |}.

(** A schedule: a [resolveId] call, a rebuild on the disk of [scoped_fs],
    and the same call again. *)
Definition sample_turns : list EventLoop.Turn :=
  [EventLoop.HookCalled
     (EventLoop.ResolveIdHook "./Button.tsx" (Some ui_importer)) empty_fs;
   EventLoop.TimerFires scoped_fs create_graph;
   EventLoop.HookCalled
     (EventLoop.ResolveIdHook "./Button.tsx" (Some ui_importer)) empty_fs].

(** A schedule with a call in flight over a rebuild: a request for the
    package [@acme/ui] from inside it reads both mappings and awaits the
    host; the timer fires and the callback rescans on the disk of
    [scoped_fs]; the host answers and the first call resumes; a second
    call is made. *)
Definition suspended_turns : list EventLoop.Turn :=
  [EventLoop.HookCalled
     (EventLoop.ResolveIdHook "@acme/ui" (Some ui_importer)) empty_fs;
   EventLoop.TimerFires scoped_fs create_graph;
   EventLoop.HostAnswers 0 None empty_fs;
   EventLoop.HookCalled
     (EventLoop.ResolveIdHook "./Button.tsx" (Some ui_importer)) empty_fs].

Definition idle (st : ResolverState) : Watcher :=
  {| pending := None; state := st; bound := []; trace := [] |}.

Definition ui_button : TargetFile :=
  {| target := ui; filePath := "/proj/node_modules/@acme/ui/src/Button.tsx" |}.

(** A burst of three structural events, 20 ms apart. *)
Definition burst_rest : list (nat * FsEvent) :=
  [(120, Unlink "/proj/src/overrides/Old.tsx");
   (140, Add "/proj/src/overrides/@acme/ui/Button.tsx")].

Definition scoped_world : World :=
  {| fs_at := fun _ => scoped_fs; graph_at := fun _ => create_graph |}.

End Sample.

(* ===================================================================== *)
(** ** Where the entries of a scan come from *)
(* ===================================================================== *)

Module Provenance.
Import Str Utils Types Fs Scanner.

(** What holds of an entry [key -> p] of the flat mapping of a scan. *)
Definition flat_entry_ok (fs : FileSystem) (opts : ResolvedOptions)
           (key p : string) : Prop :=
  exists dir,
    In dir (overrideDirs opts)
    /\ existsSync fs dir = true
    /\ In p (collectFiles fs dir (extensions opts))
    /\ existsb (fun part => startsWith part "_")
               (split_slash (normalizePath (Path.relative (cwd fs) dir p)))
       = false
    /\ getOverrideKey fs p dir (match_ opts) = Some key
    /\ key <> "" /\ key <> "index".

(** What holds of an entry [key -> p] of the mapping of the namespace
    [ns]. *)
Definition namespaced_entry_ok (fs : FileSystem) (opts : ResolvedOptions)
           (ns key p : string) : Prop :=
  exists dir,
    In dir (overrideDirs opts)
    /\ existsSync fs dir = true
    /\ In p (collectFiles fs dir (extensions opts))
    /\ existsb (fun part => startsWith part "_")
               (split_slash (normalizePath (Path.relative (cwd fs) dir p)))
       = false
    /\ detectNamespace fs p dir = Some ns
    /\ getOverrideKey fs p (Path.join dir ns) (match_ opts) = Some key
    /\ key <> "" /\ key <> "index".

Definition scan_ok (fs : FileSystem) (opts : ResolvedOptions)
           (acc : ScanResult) : Prop :=
  (forall key p, JsMap.get (flat acc) key = Some p ->
                 flat_entry_ok fs opts key p)
  /\ forall ns m,
      JsMap.get (namespaced acc) ns = Some m ->
      In ns (map package (targets opts))
      /\ m <> []
      /\ forall key p, JsMap.get m key = Some p ->
                       namespaced_entry_ok fs opts ns key p.

End Provenance.

(* ===================================================================== *)
(** ** Reading a double-quoted string literal *)
(* ===================================================================== *)

Module JsLiteral.
Import Str.

(** Scanning the inside of a double-quoted literal: a backslash takes the
    character after it with it; a double quote met otherwise would end
    the literal. *)
Fixpoint has_bare_dquote (s : string) : bool :=
  match s with
  | EmptyString => false
  | String c r =>
      if Ascii.eqb c backslash then
        match r with
        | String _ r' => has_bare_dquote r'
        | EmptyString => false
        end
      else if Ascii.eqb c (ascii_of_nat 34) then true
      else has_bare_dquote r
  end.

(** The string that a literal denotes when its only escape sequence is
    the escaped double quote. *)
Fixpoint read_literal (s : string) : string :=
  match s with
  | EmptyString => ""
  | String c r =>
      if Ascii.eqb c backslash then
        match r with
        | String d r' => String d (read_literal r')
        | EmptyString => ""
        end
      else String c (read_literal r)
  end.

End JsLiteral.

(* ===================================================================== *)
(** ** More sample projects *)
(* ===================================================================== *)

Module Cases.
Import Str Utils Types Fs Scanner Resolver Graph Plugin Watcher Sample.

(** Two targets that both ship [Button.tsx] and one flat override of it,
    with the override file readable on disk. *)
Definition button_fs : FileSystem :=
  fs_of [("/proj/src/overrides", [fileEntry "Button.tsx"]);
         ("/proj/node_modules/@acme/dashboard/src", [fileEntry "Button.tsx"]);
         ("/proj/node_modules/@acme/ui/src", [fileEntry "Button.tsx"])]
        ["/proj/src/overrides/Button.tsx"].

(** One target with [Button.tsx]; the override root holds an override of
    it and [Ghost.tsx], which matches no target file. *)
Definition ghost_fs : FileSystem :=
  fs_of [("/proj/src/overrides",
          [fileEntry "Button.tsx"; fileEntry "Ghost.tsx"]);
         ("/proj/node_modules/@acme/ui/src", [fileEntry "Button.tsx"])]
        ["/proj/src/overrides/Button.tsx"; "/proj/src/overrides/Ghost.tsx"].

Definition ghost_opts : ResolvedOptions := mkOpts [ui] OnError.

Definition ghost_state : ResolverState :=
  {| flatOverrides := [("Button", "/proj/src/overrides/Button.tsx")];
     namespacedOverrides := [];
     targetFiles := [("Button", ui_button)] |}.

Definition ghost_logs : list LogEntry :=
  match unlock ghost_fs ghost_opts with
  | Active _ logs => logs
  | _ => []
  end.

(** The dashboard as the Medusa preset configures it, resolved: an
    entry redirect, a CSS redirect and an entry boundary. *)
Definition dashboard_hmr : ResolvedTarget :=
  {| package := "@medusajs/dashboard"; alias := "~dashboard"; srcDir := "src";
     srcPath := "/proj/node_modules/@medusajs/dashboard/src";
     entryRedirect := Some {| from := "dist/app.mjs"; to := "src/app.tsx" |};
     hmr := Some {| cssRedirect := Some ("./index.css", "../dist/app.css");
                    entryBoundary := Some true |};
     entryFilePath :=
       Some "/proj/node_modules/@medusajs/dashboard/src/app.tsx" |}.

Definition hmr_opts : ResolvedOptions :=
  {| targets := [dashboard_hmr]; overrideDirs := ["/proj/src/admin/overrides"];
     match_ := Basename; onConflict := OnError; debug := false;
     extensions := default_extensions; patches := [];
     hmrBoundaries := ["defineRouteConfig"; "defineWidgetConfig"] |}.

(** The entry file of the dashboard: a CSS import and a component. *)
Definition entry_code : string :=
  "import " ++ dquote ++ "./index.css" ++ dquote ++ newline
  ++ "export const App = () => null".

End Cases.

(* ===================================================================== *)
(** ** The targets that match a key *)
(* ===================================================================== *)

Module Conflicts.
Import Str Utils Types Fs Scanner.

(** The targets whose own index has [key]: the [matchingTargets] of
    [detectConflicts]. *)
Definition matchingTargets (fs : FileSystem) (opts : ResolvedOptions)
           (key : string) : list ResolvedTarget :=
  filter (fun t => JsMap.has (scanTarget fs t opts) key) (targets opts).

(** [matchingTargets.length > 1] *)
Definition conflicting (fs : FileSystem) (opts : ResolvedOptions)
           (key : string) : bool :=
  Nat.ltb 1 (List.length (matchingTargets fs opts key)).

End Conflicts.

(* ===================================================================== *)
(** ** [String.prototype.replace] with a string pattern *)
(* ===================================================================== *)

Module JsString.
Import Str.

(** [strip_prefix p s] is [Some a] exactly when [s = p ++ a]. *)
Fixpoint strip_prefix (p s : string) : option string :=
  match p with
  | EmptyString => Some s
  | String c p' =>
      match s with
      | EmptyString => None
      | String d s' => if Ascii.eqb c d then strip_prefix p' s' else None
      end
  end.

(** The text before and after the first occurrence of [pat] in [s]. *)
Fixpoint split_first (pat s : string) : option (string * string) :=
  match strip_prefix pat s with
  | Some after => Some ("", after)
  | None =>
      match s with
      | EmptyString => None
      | String c r =>
          match split_first pat r with
          | Some (before, after) => Some (String c before, after)
          | None => None
          end
      end
  end.

(** [GetSubstitution] for a pattern without capture groups: in the
    replacement text, [$$] is a dollar sign, [$&] the matched text, a
    dollar sign followed by a backquote the text before the match, a
    dollar sign followed by a quote the text after it; any other dollar
    sign stands for itself. *)
Fixpoint getSubstitution (matched before after replacement : string)
  : string :=
  match replacement with
  | EmptyString => ""
  | String c r =>
      if Ascii.eqb c "$"%char then
        match r with
        | EmptyString => "$"
        | String d r' =>
            if Ascii.eqb d "$"%char then
              "$" ++ getSubstitution matched before after r'
            else if Ascii.eqb d "&"%char then
              matched ++ getSubstitution matched before after r'
            else if Ascii.eqb d "`"%char then
              before ++ getSubstitution matched before after r'
            else if Ascii.eqb d "'"%char then
              after ++ getSubstitution matched before after r'
            else String c (getSubstitution matched before after r)
        end
      else String c (getSubstitution matched before after r)
  end.

(** [s.replace(pat, replacement)] for a string [pat]: the first
    occurrence only. *)
Definition replace (s pat replacement : string) : string :=
  match split_first pat s with
  | Some (before, after) =>
      before ++ getSubstitution pat before after replacement ++ after
  | None => s
  end.

End JsString.

(* ===================================================================== *)
(** ** The parts of Vite's configuration that the plugin touches *)
(* ===================================================================== *)

Module Vite.

(** [server.fs]: [allow] may be missing. *)
Record FsOptions := { allow : option (list string) }.

Record ServerOptions := { fs : option FsOptions }.

(** [optimizeDeps.entries]: a string or an array of strings. *)
Inductive Entries :=
| EntriesString (entry : string)
| EntriesArray (entries : list string).

Record DepOptimizationOptions := {
  exclude : option (list string);
  include : option (list string);
  entries : option Entries
}.

(** What an alias looks for: a string, or a regular expression that is
    kept as it is. *)
Inductive AliasFind :=
| FindString (s : string)
| FindRegExp (source : string).

Record Alias := { find : AliasFind; replacement : string }.

(** [resolve.alias]: an array of alias entries, or an object from alias
    to replacement. *)
Inductive AliasOptions :=
| AliasArray (aliases : list Alias)
| AliasObject (aliases : JsMap.t string).

Record ResolveOptions := { alias : option AliasOptions }.

Record UserConfig := {
  server : option ServerOptions;
  optimizeDeps : option DepOptimizationOptions;
  resolve : option ResolveOptions
}.

End Vite.

(* ===================================================================== *)
(** ** [plugin.ts]: the hooks [config], [configResolved], [transform]
       and [configureServer] *)
(* ===================================================================== *)

Module Hooks.
Import Str Utils Types Fs.

(** [path.resolve(p)] with one argument. *)
Definition path_resolve (cwd p : string) : string :=
  "/" ++ join_slash (Path.resolved_segments cwd p).

(** [config.server.fs.allow] after
    [config.server = config.server || {}] and the two lines that follow
    it. *)
Definition allow_or_empty (server : option Vite.ServerOptions) : list string :=
  match server with
  | Some s =>
      match Vite.fs s with
      | Some f => match Vite.allow f with Some l => l | None => [] end
      | None => []
      end
  | None => []
  end.

(** The body of the first loop of [config]: the directory is pushed. *)
Definition allow_dir (cwd : string) (allow : list string) (dir : string)
  : list string :=
  (allow ++ [path_resolve cwd dir])%list.

(** The first loop of [config]. *)
Definition config_server (cwd : string) (opts : ResolvedOptions)
           (server : option Vite.ServerOptions) : Vite.ServerOptions :=
  {| Vite.fs :=
       Some {| Vite.allow :=
                 Some (fold_left (allow_dir cwd) (overrideDirs opts)
                                 (allow_or_empty server)) |} |}.

(** [config.optimizeDeps.exclude], empty when there is none. *)
Definition exclude_or_empty (d : Vite.DepOptimizationOptions) : list string :=
  match Vite.exclude d with Some l => l | None => [] end.

(** The body of the second loop of [config]: the package of the target
    is pushed to [exclude] and filtered out of [include], when there is
    one. *)
Definition exclude_target (d : Vite.DepOptimizationOptions)
           (target : ResolvedTarget) : Vite.DepOptimizationOptions :=
  {| Vite.exclude := Some (exclude_or_empty d ++ [package target])%list;
     Vite.include :=
       match Vite.include d with
       | Some l =>
           Some (filter (fun dep => negb (String.eqb dep (package target))) l)
       | None => None
       end;
     Vite.entries := Vite.entries d |}.

(** The second loop of [config], after
    [config.optimizeDeps = config.optimizeDeps || {}] and
    [config.optimizeDeps.exclude = config.optimizeDeps.exclude || []]. *)
Definition config_exclude (opts : ResolvedOptions)
           (deps : option Vite.DepOptimizationOptions)
  : Vite.DepOptimizationOptions :=
  let deps0 :=
    match deps with
    | Some d => d
    | None => {| Vite.exclude := None; Vite.include := None;
                 Vite.entries := None |}
    end in
  fold_left exclude_target (targets opts)
            {| Vite.exclude := Some (exclude_or_empty deps0);
               Vite.include := Vite.include deps0;
               Vite.entries := Vite.entries deps0 |}.

(** [obj[key] = value] on a plain object: the key [__proto__] reaches the
    setter of [Object.prototype], which ignores a string.  The order in
    which an object lists its keys is not modelled. *)
Definition object_set (obj : JsMap.t string) (key value : string)
  : JsMap.t string :=
  if String.eqb key "__proto__" then obj else JsMap.set obj key value.

(** The body of the third loop of [config]: the alias of the target is
    pushed to an array, or set in an object. *)
Definition alias_target (a : Vite.AliasOptions) (target : ResolvedTarget)
  : Vite.AliasOptions :=
  match a with
  | Vite.AliasArray l =>
      Vite.AliasArray
        (l ++ [{| Vite.find := Vite.FindString (alias target);
                  Vite.replacement := srcPath target |}])%list
  | Vite.AliasObject o =>
      Vite.AliasObject (object_set o (alias target) (srcPath target))
  end.

(** The third loop of [config], after
    [config.resolve = config.resolve || {}] and
    [config.resolve.alias = config.resolve.alias || {}]. *)
Definition config_alias (opts : ResolvedOptions)
           (resolve : option Vite.ResolveOptions) : Vite.ResolveOptions :=
  let alias0 :=
    match resolve with
    | Some r =>
        match Vite.alias r with
        | Some a => a
        | None => Vite.AliasObject JsMap.empty
        end
    | None => Vite.AliasObject JsMap.empty
    end in
  {| Vite.alias := Some (fold_left alias_target (targets opts) alias0) |}.

(** The body of the fourth loop of [config]: the [app.tsx] of the
    target, when it exists, is added to [optimizeDeps.entries]. *)
Definition add_entry (fs : FileSystem) (d : Vite.DepOptimizationOptions)
           (target : ResolvedTarget) : Vite.DepOptimizationOptions :=
  let entryFile := Path.join (srcPath target) "app.tsx" in
  if existsSync fs entryFile then
    {| Vite.exclude := Vite.exclude d;
       Vite.include := Vite.include d;
       Vite.entries :=
         match Vite.entries d with
         | Some (Vite.EntriesArray existing) =>
             Some (Vite.EntriesArray (existing ++ [entryFile])%list)
         | Some (Vite.EntriesString existing) =>
             Some (Vite.EntriesArray [existing; entryFile])
         | None => Some (Vite.EntriesArray [entryFile])
         end |}
  else d.

(** The fourth loop of [config]. *)
Definition config_entries (fs : FileSystem) (opts : ResolvedOptions)
           (deps : Vite.DepOptimizationOptions) : Vite.DepOptimizationOptions :=
  fold_left (add_entry fs) (targets opts) deps.

(** The [config] hook: the configuration as the hook leaves it. *)
Definition config (fs : FileSystem) (opts : ResolvedOptions)
           (c : Vite.UserConfig) : Vite.UserConfig :=
  {| Vite.server := Some (config_server (cwd fs) opts (Vite.server c));
     Vite.optimizeDeps :=
       Some (config_entries fs opts
                            (config_exclude opts (Vite.optimizeDeps c)));
     Vite.resolve := Some (config_alias opts (Vite.resolve c)) |}.

(** The [configResolved] hook, given the names of the registered
    plugins: the flag [hasExternalReactPlugin] and the logger calls. *)
Definition configResolved (plugins : list string) : bool * list LogEntry :=
  let hasExternalReactPlugin :=
    existsb (fun name =>
               String.eqb name "vite:react-babel"
               || String.eqb name "vite:react-swc"
               || String.eqb name "vite:react-refresh")
            plugins in
  (hasExternalReactPlugin,
   if hasExternalReactPlugin
   then [(Info, "React plugin detected — handing over HMR to React Fast Refresh")]
   else []).

(** The code appended as an HMR boundary. *)
Definition HMR_BOUNDARY : string :=
  Plugin.newline ++ "if (import.meta.hot) { import.meta.hot.accept() }".

(** The body of the first loop of [transform] for the target [t], once
    [id] is known to be the entry file of [t]: the code, the logger
    calls and the flag [modified]. *)
Definition transform_entry (t : ResolvedTarget) (h : TargetHmrConfig)
           (code : string) : string * list LogEntry * bool :=
  let '(code1, logs1, modified1) :=
    match cssRedirect h with
    | Some (from_, to_) =>
        let importPattern := "import " ++ Plugin.dquote ++ from_ ++ Plugin.dquote in
        if includes code importPattern then
          (JsString.replace code importPattern
                            ("import " ++ Plugin.dquote ++ to_ ++ Plugin.dquote),
           [(Info, "CSS rewritten: " ++ from_ ++ " -> " ++ to_)],
           true)
        else (code, [], false)
    | None => (code, [], false)
    end in
  match entryBoundary h with
  | Some true =>
      (code1 ++ HMR_BOUNDARY,
       logged logs1 Info ("HMR boundary injected: " ++ package t ++ " entry"),
       true)
  | _ => (code1, logs1, modified1)
  end.

(** The test at the head of the first loop of [transform]: the HMR
    configuration of the target when [id] is its entry file. *)
Definition entry_hmr (t : ResolvedTarget) (id : string)
  : option TargetHmrConfig :=
  match hmr t, entryFilePath t with
  | Some h, Some entry =>
      if truthy entry && String.eqb (normalizePath id) (normalizePath entry)
      then Some h else None
  | _, _ => None
  end.

(** The first loop of [transform]: [Some] when an iteration returns. *)
Fixpoint transform_targets (code id : string) (ts : list ResolvedTarget)
  : option (string * list LogEntry) :=
  match ts with
  | [] => None
  | t :: rest =>
      match entry_hmr t id with
      | Some h =>
          let '(code', logs, modified) := transform_entry t h code in
          if modified then Some (code', logs)
          else transform_targets code id rest
      | None => transform_targets code id rest
      end
  end.

(** The [transform] hook: the code it returns, [None] for [null], and
    the logger calls. *)
Definition transform (opts : ResolvedOptions) (hasExternalReactPlugin : bool)
           (code id : string) : option string * list LogEntry :=
  match transform_targets code id (targets opts) with
  | Some (code', logs) => (Some code', logs)
  | None =>
      if negb hasExternalReactPlugin
         && Nat.ltb 0 (List.length (hmrBoundaries opts))
      then
        if negb (includes (normalizePath id) "/node_modules/") then
          if existsb (fun p => includes code p) (hmrBoundaries opts) then
            (Some (code ++ HMR_BOUNDARY),
             [(Info, "HMR boundary injected: " ++ Path.basename id)])
          else (None, [])
        else (None, [])
      else (None, [])
  end.

(** The body of the loop of [configureServer]: the directory is pushed
    unless the list holds it. *)
Definition allow_missing_dir (cwd : string) (allow : list string)
           (dir : string) : list string :=
  let resolved := path_resolve cwd dir in
  if mem resolved allow then allow else (allow ++ [resolved])%list.

(** [configureServer], before it sets up the watcher: the loop runs when
    the resolved configuration has an allow list. *)
Definition configureServer (cwd : string) (opts : ResolvedOptions)
           (server : option Vite.ServerOptions) : option Vite.ServerOptions :=
  match server with
  | Some s =>
      match Vite.fs s with
      | Some f =>
          match Vite.allow f with
          | Some allow =>
              Some {| Vite.fs :=
                        Some {| Vite.allow :=
                                  Some (fold_left (allow_missing_dir cwd)
                                                  (overrideDirs opts)
                                                  allow) |} |}
          | None => server
          end
      | None => server
      end
  | None => server
  end.

End Hooks.

(* ===================================================================== *)
(** ** [config.ts]: from the user's options to the resolved options *)
(* ===================================================================== *)

(** The options as the user writes them ([types.ts]). *)
Module Input.
Import Types.

Record UnlockTarget := {
  package : string;
  alias : option string;
  srcDir : option string;
  entryRedirect : option EntryRedirect;
  hmr : option TargetHmrConfig
}.

(** A target given by its package name, or in full. *)
Inductive UnlockTargetInput :=
| TargetName (name : string)
| TargetConfig (t : UnlockTarget).

(** [PatchConfig]: [target] is the [test] of the pattern. *)
Record PatchConfig := {
  target : string -> bool;
  configFile : string;
  apply : string -> string -> string
}.

(** [overrides]: one directory or several. *)
Inductive Overrides :=
| OneDir (dir : string)
| ManyDirs (dirs : list string).

Record UnlockOptions := {
  targets : list UnlockTargetInput;
  overrides : option Overrides;
  match_ : option MatchStrategy;
  onConflict : option ConflictStrategy;
  debug : option bool;
  extensions : option (list string);
  patches : option (list PatchConfig);
  hmrBoundaries : option (list string)
}.

End Input.

Module Options.
Import Str Utils Types Fs Config.

Definition DEFAULT_EXTENSIONS : list string :=
  [".tsx"; ".ts"; ".jsx"; ".js"; ".vue"; ".svelte"; ".mts"; ".mjs"].

Definition DEFAULT_OVERRIDE_DIR : string := "./src/overrides".

Definition DEFAULT_SRC_DIR : string := "src".

(** What the start-up asks of Node beyond the file system: the resolution
    of a module request from the project root, and [fs.realpathSync];
    [None] where the call throws. *)
Record Host := {
  require_resolve : string -> option string;
  realpathSync : string -> option string
}.

(** [path.join(...args)] *)
Definition join_all (args : list string) : string :=
  match filter_truthy args with
  | [] => "."
  | l => Path.normalize (join_slash l)
  end.

(** The outcome of a call that may throw. *)
Inductive Outcome (A : Type) : Type :=
| Returns (a : A)
| Throws.

Arguments Returns {A} _.
Arguments Throws {A}.

(** The manual lookup of [findPackageSrcPath], after the [catch]. *)
Definition manual_lookup (fs : FileSystem) (host : Host)
           (packageName srcDir : string) : Outcome (option string) :=
  let parts :=
    if startsWith packageName "@" then split_slash packageName
    else [packageName] in
  let candidates :=
    [join_all (cwd fs :: "node_modules" :: parts ++ [srcDir])%list;
     join_all (cwd fs :: ".yalc" :: parts ++ [srcDir])%list] in
  match find (existsSync fs) candidates with
  | Some dir =>
      match realpathSync host dir with
      | Some real => Returns (Some real)
      | None => Throws
      end
  | None =>
      let rootCandidates :=
        [join_all (cwd fs :: "node_modules" :: parts)%list;
         join_all (cwd fs :: ".yalc" :: parts)%list] in
      match find (existsSync fs) rootCandidates with
      | Some dir =>
          match realpathSync host dir with
          | Some real => Returns (Some real)
          | None => Throws
          end
      | None => Returns None
      end
  end.

(** [findPackageSrcPath]: whatever throws inside the [try] leads to the
    manual lookup. *)
Definition findPackageSrcPath (fs : FileSystem) (host : Host)
           (packageName srcDir : string) : Outcome (option string) :=
  match require_resolve host (packageName ++ "/package.json") with
  | Some resolved =>
      match realpathSync host resolved with
      | Some pkgJsonPath =>
          let pkgRoot := Path.dirname pkgJsonPath in
          let srcPath := Path.join pkgRoot srcDir in
          if existsSync fs srcPath then Returns (Some srcPath)
          else Returns (Some pkgRoot)
      | None => manual_lookup fs host packageName srcDir
      end
  | None => manual_lookup fs host packageName srcDir
  end.

(** The target before its source path is known. *)
Definition initial_target (input : Input.UnlockTargetInput) : ResolvedTarget :=
  match input with
  | Input.TargetName name =>
      {| package := name; alias := generateAlias name;
         srcDir := DEFAULT_SRC_DIR; srcPath := "";
         entryRedirect := None; hmr := None; entryFilePath := None |}
  | Input.TargetConfig t =>
      {| package := Input.package t;
         alias := match Input.alias t with
                  | Some a => a
                  | None => generateAlias (Input.package t)
                  end;
         srcDir := match Input.srcDir t with
                   | Some d => d
                   | None => DEFAULT_SRC_DIR
                   end;
         srcPath := "";
         entryRedirect := Input.entryRedirect t;
         hmr := Input.hmr t;
         entryFilePath := None |}
  end.

(** [resolveTarget]; [Returns None] is [null]. *)
Definition resolveTarget (fs : FileSystem) (host : Host)
           (input : Input.UnlockTargetInput)
  : Outcome (option ResolvedTarget) :=
  let target := initial_target input in
  match findPackageSrcPath fs host (package target) (srcDir target) with
  | Throws => Throws
  | Returns None => Returns None
  | Returns (Some found) =>
      if negb (truthy found) then Returns None
      else
        Returns
          (Some
             {| package := package target;
                alias := alias target;
                srcDir := srcDir target;
                srcPath := found;
                entryRedirect := entryRedirect target;
                hmr := hmr target;
                entryFilePath :=
                  match entryRedirect target, hmr target with
                  | Some rule, Some _ =>
                      let pkgDir := Path.dirname found in
                      let entryFile := Path.resolve (cwd fs) pkgDir (to rule) in
                      if existsSync fs entryFile then Some entryFile else None
                  | _, _ => None
                  end |})
  end.

(** The loop of [resolveOptions] over the targets. *)
Fixpoint resolve_targets (fs : FileSystem) (host : Host)
         (inputs : list Input.UnlockTargetInput)
  : Outcome (list ResolvedTarget) :=
  match inputs with
  | [] => Returns []
  | input :: rest =>
      match resolveTarget fs host input with
      | Throws => Throws
      | Returns resolved =>
          match resolve_targets fs host rest with
          | Throws => Throws
          | Returns ts =>
              match resolved with
              | Some t => Returns (t :: ts)
              | None => Returns ts
              end
          end
      end
  end.

(** [resolveOptions] *)
Definition resolveOptions (fs : FileSystem) (host : Host)
           (options : Input.UnlockOptions) : Outcome ResolvedOptions :=
  let extensions :=
    match Input.extensions options with
    | Some e => e
    | None => DEFAULT_EXTENSIONS
    end in
  let overrideInput :=
    match Input.overrides options with
    | Some o => o
    | None => Input.OneDir DEFAULT_OVERRIDE_DIR
    end in
  let overrideDirs :=
    map (fun dir => Path.resolve (cwd fs) (cwd fs) dir)
        (match overrideInput with
         | Input.ManyDirs dirs => dirs
         | Input.OneDir dir => [dir]
         end) in
  match resolve_targets fs host (Input.targets options) with
  | Throws => Throws
  | Returns targets =>
      Returns
        {| targets := targets;
           overrideDirs := overrideDirs;
           match_ := match Input.match_ options with
                     | Some m => m
                     | None => Basename
                     end;
           onConflict := match Input.onConflict options with
                         | Some c => c
                         | None => OnError
                         end;
           debug := match Input.debug options with
                    | Some d => d
                    | None => false
                    end;
           extensions := extensions;
           patches :=
             map (fun p =>
                    {| Patch.target := Input.target p;
                       Patch.configFile := Input.configFile p;
                       Patch.apply := Input.apply p;
                       Patch.configPath :=
                         findConfigFile fs (Input.configFile p) overrideDirs |})
                 (match Input.patches options with
                  | Some ps => ps
                  | None => []
                  end);
           hmrBoundaries := match Input.hmrBoundaries options with
                            | Some b => b
                            | None => []
                            end |}
  end.

End Options.

(* ===================================================================== *)
(** ** The Medusa preset ([medusa.ts], [menu-patch.ts]) *)
(* ===================================================================== *)

Module Preset.
Import Str Utils Types.
Import Plugin.

Definition coreMarker : string := "const coreRoutes = useCoreRoutes()".

Definition extMarker : string :=
  "const menuItems = getMenu(" ++ dquote ++ "coreExtensions" ++ dquote
  ++ ").filter((item) => !item.nested)".

(** What replaces the first [coreMarker]. *)
Definition coreReplacement : string :=
  "const coreRoutes = __applyMenuConfig(useCoreRoutes(), __menuConfig)".

(** What replaces the first [extMarker]. *)
Definition extReplacement : string :=
  "const menuItems = getMenu(" ++ dquote ++ "coreExtensions" ++ dquote
  ++ ").filter((item) => !item.nested).filter(function(item) { return !__getPromotedPaths(__menuConfig).includes(item.to) })".

(** The three import lines put before the layout. *)
Definition importLine (configPath : string) : string :=
  let safePath := escape_dquote (normalizePath configPath) in
  "import __menuConfig from " ++ dquote ++ safePath ++ dquote ++ ";" ++ newline
  ++ "import * as __React from " ++ dquote ++ "react" ++ dquote ++ ";" ++ newline
  ++ "import __i18n from " ++ dquote ++ "i18next" ++ dquote ++ ";" ++ newline.

(** The helper functions that the patch appends to the layout. *)
Definition helperFn : string :=
  "
function __toNavItems(list) {
  return list.map(function(item) {
    var icon = typeof item.icon === "
  ++ dquote ++ "function"
  ++ dquote ++ " || (item.icon && item.icon.render) ? __React.createElement(item.icon) : item.icon;
    var label = __i18n.t(item.label);
    var kids = item.items;
    var translatedKids = kids && kids.length > 0 ? kids.map(function(k) { return { label: __i18n.t(k.label), to: k.to }; }) : undefined;
    return { icon: icon, label: label, to: item.to, items: translatedKids };
  });
}

function __applyMenuConfig(routes, config) {
  if (!config) return routes;
  if (typeof config === "
  ++ dquote ++ "function"
  ++ dquote ++ ") return __toNavItems(config(routes));
  if (config.items) return __toNavItems(config.items);
  let result = [...routes];
  if (config.remove) {
    result = result.filter(function(r) { return !config.remove.includes(r.to) });
  }
  if (config.add) {
    result = result.concat(__toNavItems(config.add));
  }
  if (config.order) {
    var ordered = [];
    var rest = [].concat(result);
    for (var k = 0; k < config.order.length; k++) {
      var p = config.order[k];
      var i = rest.findIndex(function(r) { return r.to === p });
      if (i !== -1) ordered.push(rest.splice(i, 1)[0]);
    }
    result = ordered.concat(rest);
  }
  return result;
}

function __getPromotedPaths(config) {
  if (!config || typeof config === "
  ++ dquote ++ "function"
  ++ dquote ++ ") return [];
  var paths = [];
  if (config.items) {
    config.items.forEach(function(item) { paths.push(item.to) });
  }
  if (config.add) {
    config.add.forEach(function(item) { paths.push(item.to) });
  }
  return paths;
}
".

(** [patchMenuLayout] *)
Definition patchMenuLayout (code configPath : string) : string :=
  if negb (includes code coreMarker) then code
  else
    let patched := JsString.replace code coreMarker coreReplacement in
    let patched' :=
      if includes patched extMarker
      then JsString.replace patched extMarker extReplacement
      else patched in
    importLine configPath ++ patched' ++ helperFn.

(** The preset's own options. *)
Record MedusaPresetOptions := {
  overrides : option Input.Overrides;
  debug : option bool
}.

(** [medusa(options)]; the pattern [/main-layout\.tsx$/] is the test
    for that ending. *)
Definition medusa (options : option MedusaPresetOptions) : Input.UnlockOptions :=
  let overrides0 :=
    match options with
    | Some o =>
        match overrides o with
        | Some dirs => dirs
        | None => Input.OneDir "./src/admin/overrides"
        end
    | None => Input.OneDir "./src/admin/overrides"
    end in
  let debug0 :=
    match options with
    | Some o => match debug o with Some d => d | None => false end
    | None => false
    end in
  {| Input.targets :=
       [Input.TargetConfig
          {| Input.package := "@medusajs/dashboard";
             Input.alias := Some "~dashboard";
             Input.srcDir := None;
             Input.entryRedirect :=
               Some {| from := "dist/app.mjs"; to := "src/app.tsx" |};
             Input.hmr :=
               Some {| cssRedirect := Some ("./index.css", "../dist/app.css");
                       entryBoundary := Some true |} |}];
     Input.overrides := Some overrides0;
     Input.match_ := None;
     Input.onConflict := None;
     Input.debug := Some debug0;
     Input.extensions := None;
     Input.patches :=
       Some [{| Input.target := fun f => endsWith f "main-layout.tsx";
                Input.configFile := "menu.config";
                Input.apply := patchMenuLayout |}];
     Input.hmrBoundaries := Some ["defineRouteConfig"; "defineWidgetConfig"] |}.

End Preset.

(* ===================================================================== *)
(** ** A project that uses the Medusa preset *)
(* ===================================================================== *)

Module MedusaProject.
Import Str Utils Types Fs Sample.

(** The dashboard is installed under [node_modules], with its sources;
    the override root holds [menu.config.ts]. *)
Definition disk : FileSystem :=
  fs_of [("/proj/src/admin/overrides", [fileEntry "menu.config.ts"]);
         ("/proj/node_modules/@medusajs/dashboard/src", [fileEntry "app.tsx"])]
        ["/proj/src/admin/overrides/menu.config.ts";
         "/proj/node_modules/@medusajs/dashboard/package.json";
         "/proj/node_modules/@medusajs/dashboard/src/app.tsx"].

(** Node resolves the dashboard's [package.json]; no path is a link. *)
Definition node : Options.Host :=
  {| Options.require_resolve :=
       fun request =>
         if String.eqb request "@medusajs/dashboard/package.json"
         then Some "/proj/node_modules/@medusajs/dashboard/package.json"
         else None;
     Options.realpathSync := fun p => Some p |}.

(** The options that [resolveOptions] makes of the preset's. *)
Definition resolved : ResolvedOptions :=
  match Options.resolveOptions disk node (Preset.medusa None) with
  | Options.Returns r => r
  | Options.Throws =>
      {| targets := []; overrideDirs := []; match_ := Basename;
         onConflict := OnError; debug := false; extensions := [];
         patches := []; hmrBoundaries := [] |}
  end.

End MedusaProject.

(* ===================================================================== *)
(** ** Where an importer lies, and which entry rule applies *)
(* ===================================================================== *)

Module Ownership.
Import Str Utils Types Fs Resolver.

(** The first test of [findImporterTarget] for one target: the path is
    the source root of the target or lies below it. *)
Definition in_source_tree (t : ResolvedTarget) (importer : string) : bool :=
  let norm := normalizePath importer in
  let normSrc := normalizePath (srcPath t) in
  startsWith norm (normSrc ++ "/") || String.eqb norm normSrc.

(** Both tests of [findImporterTarget] for one target: the source tree,
    or the directory that holds the source root. *)
Definition claims (t : ResolvedTarget) (importer : string) : bool :=
  owns_importer (normalizePath importer) t.

(** The test of one iteration of [resolveEntryRedirect]: the rule of the
    target, its explicit one or else the default one, applies to the
    resolved path. *)
Definition rule_applies (norm : string) (t : ResolvedTarget) : bool :=
  match entryRedirect t with
  | Some rule =>
      endsWith norm ("/" ++ normalizePath (from rule))
      || includes norm ("/" ++ normalizePath (from rule))
  | None => includes norm ("/" ++ lastPart (package t) ++ "/dist/app.")
  end.

(** The file that the rule of the target sends the resolved path to. *)
Definition rule_destination (norm : string) (t : ResolvedTarget) : string :=
  match entryRedirect t with
  | Some rule => Path.join (Path.dirname (srcPath t)) (to rule)
  | None => replace_dist_entry norm
  end.

End Ownership.

(* ===================================================================== *)
(** ** Projects with two targets *)
(* ===================================================================== *)

Module Projects.
Import Str Utils Types Fs Scanner Resolver Graph Plugin Watcher Sample.

(** [@acme/dashboard] ships no [src] directory: [findPackageSrcPath]
    falls back to the root of the package. *)
Definition dashboard_rooted : ResolvedTarget :=
  mkTarget "@acme/dashboard" "/proj/node_modules/@acme/dashboard".

Definition rooted_targets : ResolvedOptions :=
  mkOpts [dashboard_rooted; ui] OnError.

(** Two targets and one flat override, [Card.tsx], that only [@acme/ui]
    ships. *)
Definition card_fs : FileSystem :=
  fs_of [("/proj/src/overrides", [fileEntry "Card.tsx"]);
         ("/proj/node_modules/@acme/dashboard/src", [fileEntry "Button.tsx"]);
         ("/proj/node_modules/@acme/ui/src", [fileEntry "Card.tsx"])] [].

Definition card_state : ResolverState :=
  match unlock card_fs two_targets with
  | Active st _ => st
  | _ => before_create
  end.

Definition card_logs : list LogEntry :=
  match unlock card_fs two_targets with
  | Active _ logs => logs
  | _ => []
  end.

(** A file of the dashboard that imports the package [@acme/ui]. *)
Definition dashboard_importer : string :=
  "/proj/node_modules/@acme/dashboard/src/App.tsx".

(** Normal resolution of the packages [@acme/dashboard] and [@acme/ui]. *)
Definition packages_host : string -> string -> option string :=
  fun source _ =>
    if String.eqb source "@acme/dashboard"
    then Some "/proj/node_modules/@acme/dashboard/dist/app.mjs"
    else if String.eqb source "@acme/ui"
    then Some "/proj/node_modules/@acme/ui/dist/app.mjs"
    else None.

(** A disk on which both packages have [src/app.tsx]. *)
Definition packages_fs : FileSystem :=
  fs_of [] ["/proj/node_modules/@acme/dashboard/src/app.tsx";
            "/proj/node_modules/@acme/dashboard/dist/app.mjs";
            "/proj/node_modules/@acme/ui/src/app.tsx";
            "/proj/node_modules/@acme/ui/dist/app.mjs"].

(** [@acme/dashboard] with the rule of the Medusa preset,
    [dist/app.mjs -> src/app.tsx]. *)
Definition dashboard_preset : ResolvedTarget :=
  {| package := "@acme/dashboard"; alias := "~dashboard"; srcDir := "src";
     srcPath := "/proj/node_modules/@acme/dashboard/src";
     entryRedirect := Some {| from := "dist/app.mjs"; to := "src/app.tsx" |};
     hmr := None; entryFilePath := None |}.

(** A state in which the flat mapping answers for the key [ui]. *)
Definition ui_key_state : ResolverState :=
  {| flatOverrides := [("ui", "/proj/src/overrides/ui.tsx")];
     namespacedOverrides := [];
     targetFiles := [] |}.

(** An override root with a flat override, two overrides in the
    namespace [@acme/ui] and a file set aside under [_archive]. *)
Definition mixed_fs : FileSystem :=
  fs_of [("/proj/src/overrides",
          [dirEntry "@acme"; fileEntry "Header.tsx"; dirEntry "_archive"]);
         ("/proj/src/overrides/@acme", [dirEntry "ui"]);
         ("/proj/src/overrides/@acme/ui",
          [fileEntry "Button.tsx"; fileEntry "Card.tsx"]);
         ("/proj/src/overrides/_archive", [fileEntry "Old.tsx"])] [].

(** Two override roots, the second inside the first, under the
    directory of the namespace [@acme/ui]. *)
Definition nested_fs : FileSystem :=
  fs_of [("/proj/src/overrides", [dirEntry "@acme"]);
         ("/proj/src/overrides/@acme", [dirEntry "ui"]);
         ("/proj/src/overrides/@acme/ui", [fileEntry "Button.tsx"])] [].

Definition nested_opts : ResolvedOptions :=
  {| targets := [dashboard; ui];
     overrideDirs := ["/proj/src/overrides"; "/proj/src/overrides/@acme/ui"];
     match_ := Basename; onConflict := OnError; debug := false;
     extensions := default_extensions; patches := []; hmrBoundaries := [] |}.

End Projects.

(* ===================================================================== *)
(** * Properties *)
(* ===================================================================== *)

(** ** Maps *)

Module JsMapFacts.
Import JsMap.

Lemma has_get {V : Type} (m : t V) (k : string) :
  has m k = true <-> exists v, get m k = Some v.
Proof.
  unfold has. destruct (get m k) as [v|]; split; intro H.
  - now exists v.
  - reflexivity.
  - discriminate.
  - destruct H as [v Hv]. discriminate.
Qed.

Lemma has_false_get {V : Type} (m : t V) (k : string) :
  has m k = false <-> get m k = None.
Proof.
  unfold has. destruct (get m k); split; intro H; congruence.
Qed.

Lemma get_set_same {V : Type} (m : t V) (k : string) (v : V) :
  get (set m k v) k = Some v.
Proof.
  induction m as [|[k' v'] m IH]; simpl.
  - now rewrite String.eqb_refl.
  - destruct (String.eqb k' k) eqn:E; simpl.
    + now rewrite String.eqb_refl.
    + now rewrite E.
Qed.

Lemma get_set_other {V : Type} (m : t V) (k k' : string) (v : V) :
  k <> k' -> get (set m k v) k' = get m k'.
Proof.
  intro Hne. induction m as [|[k0 v0] m IH]; simpl.
  - apply String.eqb_neq in Hne. now rewrite Hne.
  - destruct (String.eqb k0 k) eqn:E; simpl.
    + apply String.eqb_eq in E. subst k0.
      apply String.eqb_neq in Hne. now rewrite Hne.
    + destruct (String.eqb k0 k'); [reflexivity | exact IH].
Qed.

End JsMapFacts.

(** ** Folds *)

Module ListFacts.

(** An invariant of a left fold is kept by every step, which may rely on
    its element being one of the list. *)
Lemma fold_left_invariant_In {A B : Type} (P : A -> Prop) (f : A -> B -> A)
      (l : list B) (a : A) :
  (forall x b, In b l -> P x -> P (f x b)) -> P a -> P (fold_left f l a).
Proof.
  revert a. induction l as [|b l IH]; intros a Hstep Ha; simpl.
  - exact Ha.
  - apply IH.
    + intros x b' Hb' Hx. apply Hstep; [now right | exact Hx].
    + apply Hstep; [now left | exact Ha].
Qed.

Lemma fold_left_invariant {A B : Type} (P : A -> Prop) (f : A -> B -> A)
      (l : list B) (a : A) :
  (forall x b, P x -> P (f x b)) -> P a -> P (fold_left f l a).
Proof.
  intros Hstep. apply fold_left_invariant_In. intros x b _. apply Hstep.
Qed.

End ListFacts.

(** ** Strings and paths *)

Module StrFacts.
Import Str Utils.

Lemma has_char_cons (c a : ascii) (r : string) :
  has_char c (String a r) = if Ascii.eqb a c then true else has_char c r.
Proof.
  unfold has_char. simpl. destruct (Ascii.eqb a c); reflexivity.
Qed.

Lemma append_assoc (a b c : string) : (a ++ b) ++ c = a ++ (b ++ c).
Proof. induction a as [|x a IH]; simpl; [reflexivity | now rewrite IH]. Qed.

Lemma append_nil_r (a : string) : a ++ "" = a.
Proof. induction a as [|x a IH]; simpl; [reflexivity | now rewrite IH]. Qed.

Lemma length_append (a b : string) :
  String.length (a ++ b) = String.length a + String.length b.
Proof. induction a as [|x a IH]; simpl; [reflexivity | now rewrite IH]. Qed.

Lemma split_slash_nonempty (s : string) : split_slash s <> [].
Proof.
  induction s as [|c r IH]; simpl; [discriminate |].
  destruct (is_slash c); [discriminate |].
  destruct (split_slash r); discriminate.
Qed.

(** Splitting distributes over a separator. *)
Lemma split_slash_app (a b : string) :
  split_slash (a ++ String slash b) = (split_slash a ++ split_slash b)%list.
Proof.
  induction a as [|c a IH]; simpl.
  - reflexivity.
  - rewrite IH. destruct (is_slash c); [reflexivity |].
    destruct (split_slash a) as [|h t] eqn:E.
    + now destruct (split_slash_nonempty a).
    + reflexivity.
Qed.

(** A string without a slash is its own single piece. *)
Lemma split_slash_single (s : string) :
  has_char slash s = false -> split_slash s = [s].
Proof.
  induction s as [|c r IH]; simpl; intro H; [reflexivity |].
  rewrite has_char_cons in H. unfold is_slash.
  destruct (Ascii.eqb c slash); [discriminate |].
  now rewrite (IH H).
Qed.

Lemma normalizePath_app (a b : string) :
  normalizePath (a ++ b) = normalizePath a ++ normalizePath b.
Proof. induction a as [|c a IH]; simpl; [reflexivity | now rewrite IH]. Qed.

Lemma normalizePath_id (s : string) :
  has_char backslash s = false -> normalizePath s = s.
Proof.
  induction s as [|c r IH]; simpl; intro H; [reflexivity |].
  rewrite has_char_cons in H.
  destruct (Ascii.eqb c backslash); [discriminate |].
  now rewrite (IH H).
Qed.

Lemma has_char_normalizePath (s : string) :
  has_char slash s = false -> has_char slash (normalizePath s) = false \/
                              has_char backslash s = true.
Proof.
  intro H. destruct (has_char backslash s) eqn:E; [now right | left].
  now rewrite (normalizePath_id s E).
Qed.

Lemma last_app2 {A : Type} (l : list A) (a b d : A) :
  last (l ++ [a; b])%list d = b.
Proof.
  induction l as [|x l IH]; [reflexivity |].
  simpl app. simpl last.
  destruct (l ++ [a; b])%list eqn:E.
  - now destruct l.
  - exact IH.
Qed.

Lemma strip_suffix_unfold (suf s : string) :
  strip_suffix suf s =
  if String.eqb s suf then Some ""
  else match s with
       | EmptyString => None
       | String c r =>
           match strip_suffix suf r with
           | Some p => Some (String c p)
           | None => None
           end
       end.
Proof. destruct s; reflexivity. Qed.

Lemma strip_suffix_app (p suf : string) : strip_suffix suf (p ++ suf) = Some p.
Proof.
  induction p as [|c p IH].
  - simpl. rewrite strip_suffix_unfold. now rewrite String.eqb_refl.
  - rewrite strip_suffix_unfold.
    destruct (String.eqb (String c p ++ suf) suf) eqn:E.
    + apply String.eqb_eq in E.
      apply (f_equal String.length) in E.
      rewrite length_append in E. simpl in E. lia.
    + simpl. now rewrite IH.
Qed.

Lemma strip_suffix_sound (suf s p : string) :
  strip_suffix suf s = Some p -> s = p ++ suf.
Proof.
  revert p. induction s as [|c s IH]; intros p H;
    rewrite strip_suffix_unfold in H.
  - destruct (String.eqb "" suf) eqn:E; [|discriminate].
    apply String.eqb_eq in E. inversion H. now subst.
  - destruct (String.eqb (String c s) suf) eqn:E.
    + apply String.eqb_eq in E. inversion H. now subst.
    + destruct (strip_suffix suf s) as [p'|] eqn:E'; [|discriminate].
      inversion H. subst. simpl. now rewrite <- (IH p' eq_refl).
Qed.

(** [includes] finds a piece wherever it stands. *)
Lemma prefix_app (a b : string) : String.prefix a (a ++ b) = true.
Proof.
  induction a as [|c a IH]; simpl.
  - now destruct b.
  - destruct (ascii_dec c c); [exact IH | congruence].
Qed.

Lemma includes_prefix (s sub : string) :
  String.prefix sub s = true -> includes s sub = true.
Proof.
  intro H. destruct s as [|c r].
  - destruct sub; [reflexivity | discriminate H].
  - unfold includes; fold includes. now rewrite H.
Qed.

Lemma includes_app (a b c : string) : includes (a ++ b ++ c) b = true.
Proof.
  induction a as [|x a IH].
  - simpl. apply includes_prefix, prefix_app.
  - change (includes (String x (a ++ b ++ c)) b = true).
    unfold includes; fold includes. rewrite IH.
    now destruct (String.prefix b (String x (a ++ b ++ c))).
Qed.

End StrFacts.

(** ** Resolution: namespaced before flat *)

Module ResolutionFacts.
Import Str Utils Types Fs Scanner Resolver Plugin Sample Projects.

Lemma truthy_ne (s : string) : s <> "" -> truthy s = true.
Proof. destruct s; [congruence | reflexivity]. Qed.

Lemma truthy_true (s : string) : truthy s = true -> s <> "".
Proof. destruct s; [discriminate | congruence]. Qed.

(** The first step of the hook answers from the namespaced mapping of the
    importer's target whenever that mapping has the key, whatever the flat
    mapping holds. *)
Lemma override_step_namespaced (t : ResolvedTarget) (source : string)
      (rest : Async.t ResolveResult) (flat : OverrideMap)
      (namespaced : NamespacedOverrideMap)
      (host : string -> string -> option string) (fs : FileSystem)
      (p : string) :
  stripExtension (Path.basename source) <> "" ->
  stripExtension (Path.basename source) <> "index" ->
  ns_lookup namespaced (package t) (stripExtension (Path.basename source))
  = Some p ->
  fst (Async.run flat namespaced host fs (override_step t source rest))
  = Some p.
Proof.
  intros Hne Hidx Hns. unfold override_step.
  rewrite (truthy_ne _ Hne).
  apply String.eqb_neq in Hidx. rewrite Hidx. simpl.
  now rewrite Hns.
Qed.

(** A request that passes the guards of the hook and whose key the
    namespaced mapping of the importer's target holds is answered with that
    entry; neither the flat mapping nor the target file index is
    consulted. *)
Lemma resolveId_namespaced_hit
      (opts : ResolvedOptions) (flat : OverrideMap)
      (namespaced : NamespacedOverrideMap)
      (host : string -> string -> option string) (fs : FileSystem)
      (source importer : string) (t : ResolvedTarget) (p : string) :
  startsWith source NUL = false ->
  importer_rejected (Some importer) = false ->
  findImporterTarget importer opts = Some t ->
  stripExtension (Path.basename source) <> "" ->
  stripExtension (Path.basename source) <> "index" ->
  ns_lookup namespaced (package t) (stripExtension (Path.basename source))
  = Some p ->
  fst (Async.run flat namespaced host fs
                 (resolveId opts source (Some importer)))
  = Some p.
Proof.
  intros Hsrc Himp Hown Hne Hidx Hns.
  unfold resolveId. rewrite Hsrc, Himp, Hown. cbn [orb].
  now apply override_step_namespaced.
Qed.

(** C1, as stated, fails: the importer lies in the source tree of
    [@acme/ui], the specifier's key is [Button], the namespaced mapping of
    [@acme/ui] and the flat mapping both contain [Button], and yet
    resolution declines, because the specifier is a virtual module id
    (it starts with U+0000) and the hook returns before any lookup. *)
Lemma resolveId_virtual_specifier_declines :
  findImporterTarget ui_importer two_targets = Some ui
  /\ stripExtension (Path.basename virtual_button) = "Button"
  /\ ns_lookup (namespacedOverrides both_state) (package ui) "Button"
     = Some "/proj/src/overrides/@acme/ui/Button.tsx"
  /\ JsMap.get (flatOverrides both_state) "Button"
     = Some "/proj/src/overrides/Button.tsx"
  /\ fst (Async.run (flatOverrides both_state)
                    (namespacedOverrides both_state) no_host empty_fs
                    (resolveId two_targets virtual_button (Some ui_importer)))
     = None.
Proof. repeat split; vm_compute; reflexivity. Qed.

(** The ownership lookup answers with the first configured target whose
    source tree, or the directory that holds its source root, contains
    the importer. *)
Lemma findImporterTarget_first (opts : ResolvedOptions) (importer : string)
      (earlier later : list ResolvedTarget) (t : ResolvedTarget) :
  targets opts = (earlier ++ t :: later)%list ->
  (forall u, In u earlier -> Ownership.claims u importer = false) ->
  Ownership.claims t importer = true ->
  findImporterTarget importer opts = Some t.
Proof.
  intros Hts Hearlier Ht. unfold findImporterTarget. rewrite Hts.
  clear Hts. induction earlier as [|u earlier IH]; cbn [app find].
  - unfold Ownership.claims in Ht. now rewrite Ht.
  - pose proof (Hearlier u (or_introl eq_refl)) as Hu.
    unfold Ownership.claims in Hu. rewrite Hu.
    apply IH. intros v Hv. apply Hearlier. now right.
Qed.

Lemma findImporterTarget_none (opts : ResolvedOptions) (importer : string) :
  (forall u, In u (targets opts) -> Ownership.claims u importer = false) ->
  findImporterTarget importer opts = None.
Proof.
  intro H. unfold findImporterTarget.
  induction (targets opts) as [|u ts IH]; [reflexivity |].
  cbn [find]. pose proof (H u (or_introl eq_refl)) as Hu.
  unfold Ownership.claims in Hu. rewrite Hu.
  apply IH. intros v Hv. apply H. now right.
Qed.

Lemma in_source_tree_claims (t : ResolvedTarget) (importer : string) :
  Ownership.in_source_tree t importer = true ->
  Ownership.claims t importer = true.
Proof.
  unfold Ownership.in_source_tree, Ownership.claims, owns_importer.
  intro H. now rewrite H.
Qed.

(** The second test of the ownership lookup takes the directory that
    holds the source root for the directory of the package.  For a target
    whose source path is the root of its package, that directory is the
    scope directory, which holds the sibling packages as well: a file of
    [@acme/ui] is then answered for [@acme/dashboard], configured before
    it, and gets the flat override although [@acme/ui] has a namespaced
    one. *)
Lemma sibling_importer_misassigned :
  Ownership.in_source_tree ui ui_importer = true
  /\ Ownership.in_source_tree dashboard_rooted ui_importer = false
  /\ Ownership.claims dashboard_rooted ui_importer = true
  /\ findImporterTarget ui_importer rooted_targets = Some dashboard_rooted
  /\ ns_lookup (namespacedOverrides both_state) (package ui) "Button"
     = Some "/proj/src/overrides/@acme/ui/Button.tsx"
  /\ fst (Async.run (flatOverrides both_state)
                    (namespacedOverrides both_state) no_host empty_fs
                    (resolveId rooted_targets "./Button.tsx"
                               (Some ui_importer)))
     = Some "/proj/src/overrides/Button.tsx".
Proof. repeat split; vm_compute; reflexivity. Qed.

(** C1 (amended): for a specifier that is not a virtual module id and an
    importer, not empty and no virtual module id, that lies inside the
    source tree of the configured target [t] and inside neither the
    source tree nor the directory holding the source root of a target
    configured before [t]: if the extension-stripped basename of the
    specifier is neither empty nor [index] and both the namespaced
    mapping of [t] and the flat mapping contain it, resolution returns
    the namespaced override file [p]. *)
Theorem resolveId_namespaced_precedence
        (opts : ResolvedOptions) (flat : OverrideMap)
        (namespaced : NamespacedOverrideMap)
        (host : string -> string -> option string) (fs : FileSystem)
        (source importer : string)
        (earlier later : list ResolvedTarget) (t : ResolvedTarget)
        (p q : string) :
  startsWith source NUL = false ->
  importer_rejected (Some importer) = false ->
  targets opts = (earlier ++ t :: later)%list ->
  Ownership.in_source_tree t importer = true ->
  (forall u, In u earlier -> Ownership.claims u importer = false) ->
  stripExtension (Path.basename source) <> "" ->
  stripExtension (Path.basename source) <> "index" ->
  ns_lookup namespaced (package t) (stripExtension (Path.basename source))
  = Some p ->
  JsMap.get flat (stripExtension (Path.basename source)) = Some q ->
  fst (Async.run flat namespaced host fs
                 (resolveId opts source (Some importer)))
  = Some p.
Proof.
  intros Hsrc Himp Hts Hin Hearlier Hne Hidx Hns _.
  apply (resolveId_namespaced_hit opts flat namespaced host fs
                                  source importer t p); try assumption.
  apply (findImporterTarget_first opts importer earlier later t Hts Hearlier).
  now apply in_source_tree_claims.
Qed.

Lemma resolveId_namespaced_precedence_witness :
  fst (Async.run (flatOverrides both_state) (namespacedOverrides both_state)
                 no_host empty_fs
                 (resolveId two_targets "./Button.tsx" (Some ui_importer)))
  = Some "/proj/src/overrides/@acme/ui/Button.tsx".
Proof.
  apply (resolveId_namespaced_precedence
           two_targets (flatOverrides both_state)
           (namespacedOverrides both_state) no_host empty_fs
           "./Button.tsx" ui_importer [dashboard] [] ui
           "/proj/src/overrides/@acme/ui/Button.tsx"
           "/proj/src/overrides/Button.tsx").
  - reflexivity.
  - reflexivity.
  - reflexivity.
  - vm_compute. reflexivity.
  - intros u [<- | []]. vm_compute. reflexivity.
  - vm_compute. discriminate.
  - vm_compute. discriminate.
  - vm_compute. reflexivity.
  - vm_compute. reflexivity.
Defined.

(** *** Entry redirect *)

Lemma append_same_length_inj (a b s1 s2 : string) :
  a ++ s1 = b ++ s2 -> String.length s1 = String.length s2 ->
  a = b /\ s1 = s2.
Proof.
  revert b. induction a as [|c a IH]; intros [|d b] H Hlen; simpl in H.
  - now split.
  - subst s1. simpl in Hlen. rewrite StrFacts.length_append in Hlen. lia.
  - subst s2. simpl in Hlen. rewrite StrFacts.length_append in Hlen. lia.
  - inversion H. subst d. destruct (IH b H2 Hlen) as [-> ->]. now split.
Qed.

(** The rewriting of the default rule on a [dist/app.mjs] or
    [dist/app.js] path. *)
Lemma replace_dist_entry_app (pkgDir e : string) :
  e = "mjs" \/ e = "js" ->
  replace_dist_entry (pkgDir ++ "/dist/app." ++ e) = pkgDir ++ "/src/app.tsx".
Proof.
  intros [-> | ->]; unfold replace_dist_entry.
  - change ("/dist/app." ++ "mjs") with "/dist/app.mjs".
    now rewrite StrFacts.strip_suffix_app.
  - change ("/dist/app." ++ "js") with "/dist/app.js".
    destruct (strip_suffix "/dist/app.mjs" (pkgDir ++ "/dist/app.js"))
      as [p|] eqn:E.
    + apply StrFacts.strip_suffix_sound in E.
      change "/dist/app.js" with ("/dist/app" ++ ".js") in E.
      change "/dist/app.mjs" with ("/dist/app." ++ "mjs") in E.
      rewrite <- !StrFacts.append_assoc in E.
      apply append_same_length_inj in E; [|reflexivity].
      destruct E as [_ E]. discriminate.
    + now rewrite StrFacts.strip_suffix_app.
Qed.

Lemma outside_loop_run (opts : ResolvedOptions) (flat : OverrideMap)
      (namespaced : NamespacedOverrideMap)
      (host : string -> string -> option string) (fs : FileSystem)
      (source imp : string) (ts : list ResolvedTarget) :
  Async.run flat namespaced host fs (outside_loop opts source imp ts)
  = if existsb (imports_package source) ts
    then match redirect_of opts (host source imp) fs with
         | Some r => r
         | None => (None, [])
         end
    else (None, []).
Proof.
  induction ts as [|u ts IH]; [reflexivity |].
  simpl. destruct (imports_package source u); simpl.
  - destruct (redirect_of opts (host source imp) fs); [reflexivity |].
    rewrite IH. now destruct (existsb (imports_package source) ts).
  - exact IH.
Qed.

Lemma override_step_miss (t : ResolvedTarget) (source : string)
      (rest : Async.t ResolveResult) (flat : OverrideMap)
      (namespaced : NamespacedOverrideMap)
      (host : string -> string -> option string) (fs : FileSystem) :
  ns_lookup namespaced (package t) (stripExtension (Path.basename source))
  = None ->
  JsMap.get flat (stripExtension (Path.basename source)) = None ->
  Async.run flat namespaced host fs (override_step t source rest)
  = Async.run flat namespaced host fs rest.
Proof.
  intros Hns Hflat. unfold override_step.
  destruct (truthy _ && negb _); [|reflexivity].
  cbn [Async.run]. rewrite Hns. cbn [Async.run]. now rewrite Hflat.
Qed.

Lemma truthy_app_r (a b : string) : truthy b = true -> truthy (a ++ b) = true.
Proof. intro H. destruct a; [exact H | reflexivity]. Qed.

Lemma existsb_In {A : Type} (f : A -> bool) (l : list A) (x : A) :
  In x l -> f x = true -> existsb f l = true.
Proof. intros Hin Hf. apply existsb_exists. now exists x. Qed.

(** C9, as stated, fails: a target may carry an explicit entry rule.  With
    the rule [dist/app.mjs -> src/main.tsx] on [@acme/dashboard], a request
    for the package that normal resolution resolves to
    [<package>/dist/app.mjs] is not redirected to [<package>/src/app.tsx],
    although that file exists on disk: resolution declines, because the
    rule's own destination [src/main.tsx] does not exist. *)
Lemma explicit_rule_ignores_src_app :
  imports_package "@acme/dashboard" dashboard_explicit = true
  /\ entry_host "@acme/dashboard" app_importer
     = Some "/proj/node_modules/@acme/dashboard/dist/app.mjs"
  /\ existsSync entry_fs "/proj/node_modules/@acme/dashboard/src/app.tsx"
     = true
  /\ fst (Async.run [] [] entry_host entry_fs
                    (resolveId (mkOpts [dashboard_explicit] OnError)
                               "@acme/dashboard" (Some app_importer)))
     = None.
Proof. repeat split; vm_compute; reflexivity. Qed.

(** When every rule that applies to the resolved path sends it to one
    and the same file, the loop of [resolveEntryRedirect] answers with
    that file as soon as some rule applies and the file exists. *)
Lemma entry_redirect_loop_one_destination (fs : FileSystem)
      (resolvedId norm : string) (ts : list ResolvedTarget) (dest : string) :
  (forall u, In u ts -> Ownership.rule_applies norm u = true ->
             Ownership.rule_destination norm u = dest) ->
  fst (entry_redirect_loop fs resolvedId norm ts)
  = if existsb (Ownership.rule_applies norm) ts && existsSync fs dest
    then Some dest else None.
Proof.
  intro H. induction ts as [|u ts IH]; [reflexivity |].
  assert (IH' := IH (fun v Hv => H v (or_intror Hv))). clear IH.
  pose proof (H u (or_introl eq_refl)) as Hu.
  cbn [entry_redirect_loop existsb].
  unfold Ownership.rule_applies at 1.
  unfold Ownership.rule_applies, Ownership.rule_destination in Hu.
  destruct (entryRedirect u) as [rule|].
  - destruct (endsWith norm ("/" ++ normalizePath (from rule))
              || includes norm ("/" ++ normalizePath (from rule))).
    + rewrite (Hu eq_refl). cbn [orb andb].
      destruct (existsSync fs dest) eqn:Ex; [reflexivity |].
      rewrite IH'. now rewrite andb_false_r.
    + exact IH'.
  - destruct (includes norm ("/" ++ lastPart (package u) ++ "/dist/app.")).
    + rewrite (Hu eq_refl). cbn [orb andb].
      destruct (existsSync fs dest) eqn:Ex; [reflexivity |].
      rewrite IH'. now rewrite andb_false_r.
    + exact IH'.
Qed.

(** The answer of the hook after the host resolved the request to a
    [dist/app] file, when the rule of a configured target applies and
    every explicit rule that applies names [<package>/src/app.tsx]. *)
Lemma redirect_of_src_app (opts : ResolvedOptions) (fs : FileSystem)
      (t : ResolvedTarget) (pkgDir e id : string) :
  In t (targets opts) ->
  e = "mjs" \/ e = "js" ->
  strip_query (normalizePath id) = pkgDir ++ "/dist/app." ++ e ->
  Ownership.rule_applies (strip_query (normalizePath id)) t = true ->
  (forall u rule,
      In u (targets opts) -> entryRedirect u = Some rule ->
      Ownership.rule_applies (strip_query (normalizePath id)) u = true ->
      Path.join (Path.dirname (srcPath u)) (to rule)
      = pkgDir ++ "/src/app.tsx") ->
  fst match redirect_of opts (Some id) fs with
      | Some r => r
      | None => (None, [])
      end
  = if existsSync fs (pkgDir ++ "/src/app.tsx")
    then Some (pkgDir ++ "/src/app.tsx") else None.
Proof.
  intros Hin He Hnorm Ht Hrules.
  pose proof (entry_redirect_loop_one_destination
                fs id (strip_query (normalizePath id)) (targets opts)
                (pkgDir ++ "/src/app.tsx")) as Hloop.
  rewrite (existsb_In _ _ t Hin Ht) in Hloop. cbn [andb] in Hloop.
  assert (Hdest : forall u,
             In u (targets opts) ->
             Ownership.rule_applies (strip_query (normalizePath id)) u = true ->
             Ownership.rule_destination (strip_query (normalizePath id)) u
             = pkgDir ++ "/src/app.tsx").
  { intros u Hu Happ. unfold Ownership.rule_destination.
    destruct (entryRedirect u) as [rule|] eqn:Er.
    - now apply (Hrules u rule).
    - rewrite Hnorm. now apply replace_dist_entry_app. }
  specialize (Hloop Hdest).
  unfold redirect_of, resolveEntryRedirect.
  destruct (entry_redirect_loop fs id (strip_query (normalizePath id))
                                (targets opts)) as [[r|] logs];
    cbn [fst] in Hloop.
  - destruct (existsSync fs _); [|discriminate].
    inversion Hloop. subst r.
    rewrite truthy_app_r by reflexivity.
    reflexivity.
  - destruct (existsSync fs _); [discriminate | reflexivity].
Qed.

(** The redirect is made only for a request that comes from outside
    every target or from the requested target itself: asked for from a
    file of [@acme/dashboard], the package [@acme/ui] is not redirected,
    although normal resolution gives [@acme/ui/dist/app.mjs] and
    [@acme/ui/src/app.tsx] exists. *)
Lemma entry_request_from_other_target_declines :
  findImporterTarget dashboard_importer two_targets = Some dashboard
  /\ imports_package "@acme/ui" ui = true
  /\ packages_host "@acme/ui" dashboard_importer
     = Some "/proj/node_modules/@acme/ui/dist/app.mjs"
  /\ existsSync packages_fs "/proj/node_modules/@acme/ui/src/app.tsx" = true
  /\ fst (Async.run [] [] packages_host packages_fs
                    (resolveId two_targets "@acme/ui"
                               (Some dashboard_importer)))
     = None.
Proof. repeat split; vm_compute; reflexivity. Qed.

(** Inside the requested target the file-level override comes first: the
    specifier [@acme/ui] has the key [ui], and a flat override of that
    key answers before the entry rule is looked at. *)
Lemma entry_request_answered_by_override :
  findImporterTarget ui_importer two_targets = Some ui
  /\ stripExtension (Path.basename "@acme/ui") = "ui"
  /\ existsSync packages_fs "/proj/node_modules/@acme/ui/src/app.tsx" = true
  /\ fst (Async.run (flatOverrides ui_key_state)
                    (namespacedOverrides ui_key_state)
                    packages_host packages_fs
                    (resolveId two_targets "@acme/ui" (Some ui_importer)))
     = Some "/proj/src/overrides/ui.tsx".
Proof. repeat split; vm_compute; reflexivity. Qed.

(** The loop of [resolveEntryRedirect] tries the rule of every target on
    the resolved path, whichever package was asked for: with the rule
    [dist/app.mjs -> src/app.tsx] on [@acme/dashboard], configured first,
    a request for [@acme/ui] that resolves to [@acme/ui/dist/app.mjs] is
    sent to the [src/app.tsx] of the dashboard. *)
Lemma entry_rule_of_other_target_answers :
  packages_host "@acme/ui" app_importer
  = Some "/proj/node_modules/@acme/ui/dist/app.mjs"
  /\ existsSync packages_fs "/proj/node_modules/@acme/ui/src/app.tsx" = true
  /\ fst (Async.run [] [] packages_host packages_fs
                    (resolveId (mkOpts [dashboard_preset; ui] OnError)
                               "@acme/ui" (Some app_importer)))
     = Some "/proj/node_modules/@acme/dashboard/src/app.tsx".
Proof. repeat split; vm_compute; reflexivity. Qed.

(** C9 (amended): for a request for the package of the configured
    target [t] (no virtual module id, from an importer that is not empty
    and no virtual module id) that comes from an importer inside no
    target's source tree or the directory holding its source root, or
    from an importer inside the source tree of [t] that no target
    configured before [t] claims and for which no override answers, and
    that normal resolution resolves to [<package>/dist/app.mjs] or
    [<package>/dist/app.js]: when the entry rule of [t] applies to that
    path (without an explicit rule: the path holds the last segment of
    the package identifier before [/dist/app.]; with one: its [from]
    occurs in the path) and every explicit rule of a configured target
    that applies to the path names [<package>/src/app.tsx] as its
    destination, resolution returns [<package>/src/app.tsx] if that file
    exists on disk, and declines if it does not. *)
Theorem entry_redirect_src_app
        (opts : ResolvedOptions) (flat : OverrideMap)
        (namespaced : NamespacedOverrideMap)
        (host : string -> string -> option string) (fs : FileSystem)
        (source importer : string)
        (earlier later : list ResolvedTarget) (t : ResolvedTarget)
        (pkgDir e id : string) :
  startsWith source NUL = false ->
  importer_rejected (Some importer) = false ->
  targets opts = (earlier ++ t :: later)%list ->
  imports_package source t = true ->
  ((forall u, In u (targets opts) -> Ownership.claims u importer = false)
   \/ (Ownership.in_source_tree t importer = true
       /\ (forall u, In u earlier -> Ownership.claims u importer = false)
       /\ ns_lookup namespaced (package t)
                    (stripExtension (Path.basename source)) = None
       /\ JsMap.get flat (stripExtension (Path.basename source)) = None)) ->
  host source importer = Some id ->
  e = "mjs" \/ e = "js" ->
  strip_query (normalizePath id) = pkgDir ++ "/dist/app." ++ e ->
  Ownership.rule_applies (strip_query (normalizePath id)) t = true ->
  (forall u rule,
      In u (targets opts) -> entryRedirect u = Some rule ->
      Ownership.rule_applies (strip_query (normalizePath id)) u = true ->
      Path.join (Path.dirname (srcPath u)) (to rule)
      = pkgDir ++ "/src/app.tsx") ->
  fst (Async.run flat namespaced host fs
                 (resolveId opts source (Some importer)))
  = if existsSync fs (pkgDir ++ "/src/app.tsx")
    then Some (pkgDir ++ "/src/app.tsx") else None.
Proof.
  intros Hsrc Himp Hts Hpkg Hown Hhost He Hnorm Ht Hrules.
  assert (Hin : In t (targets opts)).
  { rewrite Hts. apply in_or_app. right. now left. }
  unfold resolveId. rewrite Hsrc, Himp. cbn [orb].
  destruct Hown as [Hnone | (Htree & Hearlier & Hns & Hflat)].
  - rewrite (findImporterTarget_none opts importer Hnone), outside_loop_run.
    rewrite (existsb_In _ _ t Hin Hpkg), Hhost.
    now apply (redirect_of_src_app opts fs t pkgDir e id).
  - rewrite (findImporterTarget_first opts importer earlier later t Hts
               Hearlier (in_source_tree_claims t importer Htree)).
    rewrite (override_step_miss _ _ _ _ _ _ _ Hns Hflat).
    unfold entry_redirect_step. rewrite Hpkg. cbn [Async.run].
    rewrite Hhost.
    rewrite <- (redirect_of_src_app opts fs t pkgDir e id Hin He Hnorm
                                    Ht Hrules).
    now destruct (redirect_of opts (Some id) fs).
Qed.

Lemma entry_redirect_src_app_witness :
  fst (Async.run [] [] packages_host packages_fs
                 (resolveId (mkOpts [dashboard_preset] OnError)
                            "@acme/dashboard" (Some app_importer)))
  = Some "/proj/node_modules/@acme/dashboard/src/app.tsx"
  /\ fst (Async.run [] [] packages_host packages_fs
                    (resolveId two_targets "@acme/ui" (Some ui_importer)))
     = Some "/proj/node_modules/@acme/ui/src/app.tsx".
Proof.
  split.
  - apply (entry_redirect_src_app
             (mkOpts [dashboard_preset] OnError) [] [] packages_host
             packages_fs "@acme/dashboard" app_importer [] []
             dashboard_preset
             "/proj/node_modules/@acme/dashboard" "mjs"
             "/proj/node_modules/@acme/dashboard/dist/app.mjs").
    + reflexivity.
    + reflexivity.
    + reflexivity.
    + reflexivity.
    + left. intros u [<- | []]. vm_compute. reflexivity.
    + reflexivity.
    + now left.
    + vm_compute. reflexivity.
    + vm_compute. reflexivity.
    + intros u rule [<- | []] Hrule _. inversion Hrule. subst rule.
      vm_compute. reflexivity.
  - apply (entry_redirect_src_app
             two_targets [] [] packages_host packages_fs
             "@acme/ui" ui_importer [dashboard] [] ui
             "/proj/node_modules/@acme/ui" "mjs"
             "/proj/node_modules/@acme/ui/dist/app.mjs").
    + reflexivity.
    + reflexivity.
    + reflexivity.
    + reflexivity.
    + right. split; [vm_compute; reflexivity |].
      split; [intros u [<- | []]; vm_compute; reflexivity |].
      split; reflexivity.
    + reflexivity.
    + now left.
    + vm_compute. reflexivity.
    + vm_compute. reflexivity.
    + intros u rule [<- | [<- | []]] Hrule; discriminate Hrule.
Defined.

End ResolutionFacts.

(** ** Scanning: keys and namespaces *)

Module ScannerFacts.
Import Str Utils Types Fs Scanner Sample StrFacts JsMapFacts ListFacts.

Lemma truthy_filter_app (l : list string) (d f : string) :
  truthy d = true -> truthy f = true ->
  filter_truthy (l ++ [d; f]) = (filter_truthy l ++ [d; f])%list.
Proof.
  intros Hd Hf. unfold filter_truthy. rewrite filter_app. simpl.
  now rewrite Hd, Hf.
Qed.

(** Under the basename strategy, a path whose last two non-empty segments
    are [d] and a file named [index] yields the key [d]. *)
Lemma getOverrideKey_basename_parts (fs : FileSystem)
      (filePath baseDir : string) (l : list string) (d f : string) :
  filter_truthy (split_slash (normalizePath filePath)) = (l ++ [d; f])%list ->
  truthy d = true ->
  stripExtension f = "index" ->
  getOverrideKey fs filePath baseDir Basename = Some d.
Proof.
  intros Hparts Hd Hf. unfold getOverrideKey. rewrite Hparts.
  rewrite last_app2, Hf. cbn [truthy negb String.eqb Ascii.eqb Bool.eqb].
  assert (Hlen : Nat.leb 2 (List.length (l ++ [d; f])) = true).
  { apply Nat.leb_le. rewrite length_app. simpl. lia. }
  assert (Hsl : second_last (l ++ [d; f]) = Some d).
  { unfold second_last. rewrite rev_app_distr. reflexivity. }
  rewrite Hlen, Hsl, Hd.
  destruct (l ++ [d; f])%list eqn:E; [now destruct l | reflexivity].
Qed.

Lemma index_file_name (ext : string) :
  In ext STRIPPED_EXTENSIONS ->
  stripExtension ("index" ++ ext) = "index"
  /\ split_slash ("index" ++ ext) = ["index" ++ ext]
  /\ normalizePath ("/index" ++ ext) = String slash ("index" ++ ext)
  /\ truthy ("index" ++ ext) = true.
Proof.
  unfold STRIPPED_EXTENSIONS. simpl.
  intros [H|[H|[H|[H|[H|[H|[H|[H|[]]]]]]]]]; subst ext;
    repeat split; reflexivity.
Qed.

(** An [index] file inside the directory [foo] has the key [foo]. *)
Lemma getOverrideKey_index_in_dir (fs : FileSystem)
      (pre foo ext baseDir : string) :
  foo <> "" ->
  has_char slash foo = false ->
  has_char backslash foo = false ->
  In ext STRIPPED_EXTENSIONS ->
  getOverrideKey fs (pre ++ "/" ++ foo ++ "/index" ++ ext) baseDir Basename
  = Some foo.
Proof.
  intros Hne Hslash Hback Hext.
  destruct (index_file_name ext Hext) as (Hstrip & Hsplit & Hnorm & Htr).
  apply (getOverrideKey_basename_parts
           fs _ baseDir
           (filter_truthy (split_slash (normalizePath pre)))
           foo ("index" ++ ext)).
  - rewrite (normalizePath_app pre), (normalizePath_app "/"),
      (normalizePath_app foo), Hnorm, (normalizePath_id foo Hback).
    change (normalizePath "/" ++ foo ++ String slash ("index" ++ ext))
      with (String slash (foo ++ String slash ("index" ++ ext))).
    rewrite !split_slash_app, Hsplit, (split_slash_single foo Hslash).
    apply truthy_filter_app; [|exact Htr].
    destruct foo; [congruence | reflexivity].
  - destruct foo; [congruence | reflexivity].
  - exact Hstrip.
Qed.

(** A flat-scanned file whose key is [index] leaves both mappings as they
    were. *)
Lemma scanOverrides_file_drops_index (fs : FileSystem)
      (opts : ResolvedOptions) (dir : string) (acc : ScanResult)
      (fullPath : string) :
  namespace_of_target (detectNamespace fs fullPath dir)
                      (map package (targets opts)) = None ->
  getOverrideKey fs fullPath dir (match_ opts) = Some "index" ->
  scanOverrides_file fs opts dir acc fullPath = acc.
Proof.
  intros Hns Hkey. unfold scanOverrides_file.
  destruct (existsb _ _); [reflexivity |].
  rewrite Hns, Hkey. reflexivity.
Qed.

(** *** The result of a whole scan *)

(** Neither mapping of a scan ever holds the key [index]. *)
Lemma scan_never_keeps_index (fs : FileSystem) (opts : ResolvedOptions) :
  JsMap.get (flat (scanOverrides fs opts)) "index" = None
  /\ forall n m, JsMap.get (namespaced (scanOverrides fs opts)) n = Some m ->
                 JsMap.get m "index" = None.
Proof.
  unfold scanOverrides.
  apply (fold_left_invariant
           (fun acc : ScanResult =>
              JsMap.get (flat acc) "index" = None
              /\ forall n m, JsMap.get (namespaced acc) n = Some m ->
                             JsMap.get m "index" = None)).
  - intros acc dir Hacc. destruct (negb (existsSync fs dir)); [exact Hacc |].
    apply fold_left_invariant; [| exact Hacc].
    clear acc Hacc. intros acc f [Hflat Hns]. unfold scanOverrides_file.
    destruct (existsb _ _); [now split |].
    destruct (namespace_of_target _ _) as [n0|].
    + destruct (getOverrideKey _ _ _ _) as [k|]; [| now split].
      destruct (truthy k && negb (String.eqb k "index")) eqn:Hk; [| now split].
      apply andb_prop in Hk. destruct Hk as [_ Hk].
      apply negb_true_iff, String.eqb_neq in Hk.
      cbn [flat namespaced]. split; [exact Hflat |].
      intros n m Hget. destruct (string_dec n0 n) as [-> | Hne].
      * rewrite get_set_same in Hget. inversion Hget. subst m.
        rewrite (get_set_other _ k "index" f Hk).
        destruct (JsMap.get (namespaced acc) n) as [inner|] eqn:E.
        -- now apply (Hns n inner).
        -- reflexivity.
      * rewrite (get_set_other _ n0 n _ Hne) in Hget. now apply (Hns n m).
    + destruct (getOverrideKey _ _ _ _) as [k|]; [| now split].
      destruct (truthy k && negb (String.eqb k "index")) eqn:Hk; [| now split].
      apply andb_prop in Hk. destruct Hk as [_ Hk].
      apply negb_true_iff, String.eqb_neq in Hk.
      cbn [flat namespaced]. split; [| exact Hns].
      now rewrite (get_set_other _ k "index" f Hk).
  - split; [reflexivity | intros n m H; discriminate H].
Qed.

(** C8, as stated, fails on both of its halves: under the basename
    strategy an [index.tsx] directly in the override root
    [/proj/src/overrides] does not get the key [index] and is not dropped,
    it is kept in the flat mapping under the root directory's own name
    [overrides]; and an [index.tsx] inside a subdirectory that is itself
    named [index] does produce the key [index]. *)
Lemma root_index_file_kept_under_root_name :
  collectFiles root_index_fs "/proj/src/overrides" default_extensions
  = ["/proj/src/overrides/index.tsx"]
  /\ getOverrideKey root_index_fs "/proj/src/overrides/index.tsx"
                    "/proj/src/overrides" Basename = Some "overrides"
  /\ flat (scanOverrides root_index_fs (mkOpts [dashboard] OnError))
     = [("overrides", "/proj/src/overrides/index.tsx")]
  /\ getOverrideKey root_index_fs "/proj/src/overrides/index/index.tsx"
                    "/proj/src/overrides" Basename = Some "index".
Proof. repeat split; vm_compute; reflexivity. Qed.

(** C8 (amended): under the basename strategy a file [index.<ext>], for
    one of the extensions that [stripExtension] removes, inside a
    directory [foo] produces the key [foo], hence the key [index] only if
    the directory itself is named [index], and this also holds when [foo]
    is the override root itself; a flat-scanned file whose derived key is
    the literal [index] is dropped, and the flat mapping of a whole scan
    never holds the key [index]. *)
Theorem index_file_key (fs : FileSystem) (opts : ResolvedOptions)
        (dir : string) (acc : ScanResult) (fullPath : string)
        (pre foo ext baseDir : string) :
  foo <> "" ->
  has_char slash foo = false ->
  has_char backslash foo = false ->
  In ext STRIPPED_EXTENSIONS ->
  namespace_of_target (detectNamespace fs fullPath dir)
                      (map package (targets opts)) = None ->
  getOverrideKey fs fullPath dir (match_ opts) = Some "index" ->
  getOverrideKey fs (pre ++ "/" ++ foo ++ "/index" ++ ext) baseDir Basename
  = Some foo
  /\ (foo <> "index" ->
      getOverrideKey fs (pre ++ "/" ++ foo ++ "/index" ++ ext) baseDir Basename
      <> Some "index")
  /\ scanOverrides_file fs opts dir acc fullPath = acc
  /\ JsMap.get (flat (scanOverrides fs opts)) "index" = None.
Proof.
  intros Hne Hslash Hback Hext Hns Hkey.
  pose proof (getOverrideKey_index_in_dir fs pre foo ext baseDir
                Hne Hslash Hback Hext) as Hfoo.
  split; [exact Hfoo | split; [| split]].
  - intros Hidx. rewrite Hfoo. congruence.
  - now apply scanOverrides_file_drops_index.
  - apply scan_never_keeps_index.
Qed.

Lemma index_file_key_witness :
  getOverrideKey root_index_fs
                 ("/proj/src/overrides" ++ "/" ++ "foo" ++ "/index" ++ ".tsx")
                 "/proj/src/overrides" Basename
  = Some "foo"
  /\ scanOverrides_file root_index_fs (mkOpts [dashboard] OnError)
                        "/proj/src/overrides" empty_scan
                        "/proj/src/overrides/index/index.tsx"
     = empty_scan.
Proof.
  assert (H : "foo" <> "" /\ has_char slash "foo" = false
              /\ has_char backslash "foo" = false
              /\ In ".tsx" STRIPPED_EXTENSIONS
              /\ namespace_of_target
                   (detectNamespace root_index_fs
                      "/proj/src/overrides/index/index.tsx"
                      "/proj/src/overrides")
                   (map package (targets (mkOpts [dashboard] OnError))) = None
              /\ getOverrideKey root_index_fs
                                "/proj/src/overrides/index/index.tsx"
                                "/proj/src/overrides"
                                (match_ (mkOpts [dashboard] OnError))
                 = Some "index").
  { repeat split; try reflexivity; try discriminate.
    simpl. tauto. }
  destruct H as (H1 & H2 & H3 & H4 & H5 & H6).
  destruct (index_file_key root_index_fs (mkOpts [dashboard] OnError)
                           "/proj/src/overrides" empty_scan
                           "/proj/src/overrides/index/index.tsx"
                           "/proj/src/overrides" "foo" ".tsx"
                           "/proj/src/overrides" H1 H2 H3 H4 H5 H6)
    as (Hkey & _ & Hdrop & _).
  split; [exact Hkey | exact Hdrop].
Defined.

(** The pieces of a relative path that starts with [@scope/pkg/]. *)
Lemma split_scoped (scope pkg rest : string) :
  has_char slash scope = false ->
  has_char slash pkg = false ->
  exists h t,
    split_slash (String "@" scope ++ "/" ++ pkg ++ "/" ++ rest)
    = String "@" scope :: pkg :: h :: t.
Proof.
  intros Hs Hp.
  change (String "@" scope ++ "/" ++ pkg ++ "/" ++ rest)
    with (String "@" scope ++ String slash (pkg ++ String slash rest)).
  rewrite !split_slash_app.
  rewrite (split_slash_single pkg Hp).
  rewrite (split_slash_single (String "@" scope)).
  - destruct (split_slash rest) as [|h t] eqn:E.
    + now destruct (split_slash_nonempty rest).
    + now exists h, t.
  - rewrite has_char_cons. exact Hs.
Qed.

Lemma mem_In (x : string) (l : list string) : In x l -> mem x l = true.
Proof.
  intro H. unfold mem. apply existsb_exists. exists x. split; [exact H |].
  apply String.eqb_refl.
Qed.

(** C5, as stated, fails: the only pattern [detectNamespace] knows is the
    scoped one.  With the unscoped target [my-lib] configured, the file
    [my-lib/Card.tsx] of the override root, whose relative path begins
    with the bare segment [my-lib], lands in the flat mapping, and the
    namespaced mapping stays empty. *)
Lemma bare_name_directory_is_flat :
  mem "my-lib" (map package (targets bare_name_opts)) = true
  /\ normalizePath (Path.relative (cwd bare_name_fs) "/proj/src/overrides"
                                  "/proj/src/overrides/my-lib/Card.tsx")
     = "my-lib/Card.tsx"
  /\ flat (scanOverrides bare_name_fs bare_name_opts)
     = [("Card", "/proj/src/overrides/my-lib/Card.tsx")]
  /\ namespaced (scanOverrides bare_name_fs bare_name_opts) = [].
Proof. repeat split; vm_compute; reflexivity. Qed.

(** The body of the loop, for a collected file whose path relative to
    the override root begins with a segment pair [@scope/pkg] equal to a
    configured target's package identifier, and none of whose segments
    starts with the skip marker: the flat mapping is left untouched and,
    when the file's key is neither empty nor [index], the file is entered
    in the namespaced mapping under that identifier. *)
Lemma scanOverrides_file_scoped (fs : FileSystem) (opts : ResolvedOptions)
      (dir : string) (acc : ScanResult) (fullPath : string)
      (scope pkg rest : string) :
  normalizePath (Path.relative (cwd fs) dir fullPath)
  = String "@" scope ++ "/" ++ pkg ++ "/" ++ rest ->
  scope <> "" -> pkg <> "" ->
  has_char slash scope = false ->
  has_char slash pkg = false ->
  In (String "@" scope ++ "/" ++ pkg) (map package (targets opts)) ->
  existsb (fun part => startsWith part "_")
          (split_slash (normalizePath (Path.relative (cwd fs) dir fullPath)))
  = false ->
  namespace_of_target (detectNamespace fs fullPath dir)
                      (map package (targets opts))
  = Some (String "@" scope ++ "/" ++ pkg)
  /\ flat (scanOverrides_file fs opts dir acc fullPath) = flat acc
  /\ forall k,
      getOverrideKey fs fullPath
                     (Path.join dir (String "@" scope ++ "/" ++ pkg))
                     (match_ opts) = Some k ->
      k <> "" -> k <> "index" ->
      Plugin.ns_lookup
        (namespaced (scanOverrides_file fs opts dir acc fullPath))
        (String "@" scope ++ "/" ++ pkg) k
      = Some fullPath.
Proof.
  intros Hrel Hscope Hpkg Hs Hp Hin Hskip.
  destruct (split_scoped scope pkg rest Hs Hp) as (h & t & Hsplit).
  assert (Hns : namespace_of_target (detectNamespace fs fullPath dir)
                                    (map package (targets opts))
                = Some (String "@" scope ++ "/" ++ pkg)).
  { unfold detectNamespace. rewrite Hrel, Hsplit.
    rewrite Ascii.eqb_refl.
    rewrite (ResolutionFacts.truthy_ne scope Hscope),
            (ResolutionFacts.truthy_ne pkg Hpkg).
    cbn [andb]. unfold namespace_of_target.
    rewrite (mem_In _ _ Hin). reflexivity. }
  split; [exact Hns |]. split.
  - unfold scanOverrides_file. rewrite Hskip, Hns.
    destruct (getOverrideKey _ _ _ _) as [k0|]; [| reflexivity].
    now destruct (truthy k0 && negb (String.eqb k0 "index")).
  - intros k Hkey Hne Hidx.
    unfold scanOverrides_file. rewrite Hskip, Hns, Hkey.
    rewrite (ResolutionFacts.truthy_ne k Hne).
    apply String.eqb_neq in Hidx. rewrite Hidx. cbn [andb negb].
    unfold Plugin.ns_lookup. cbn [namespaced].
    rewrite get_set_same. apply get_set_same.
Qed.

End ScannerFacts.

(** ** Start-up and rebuild: what is filtered, what is warned about *)

Module IndexFacts.
Import Str Utils Types Fs Scanner Resolver Graph Plugin Watcher Sample.
Import Projects StrFacts JsMapFacts ListFacts.

Lemma all_info_logged (l : list LogEntry) (msg : string) :
  all_info l -> all_info (logged l Info msg).
Proof.
  intro H. unfold logged, all_info. apply Forall_app. split; [exact H |].
  now repeat constructor.
Qed.

Lemma all_info_app (a b : list LogEntry) :
  all_info a -> all_info b -> all_info (a ++ b).
Proof. intros Ha Hb. apply Forall_app. now split. Qed.

Lemma all_info_not_warn (l : list LogEntry) (e : LogEntry) :
  all_info l -> In e l -> fst e = Warn -> False.
Proof.
  intros H Hin Hw. unfold all_info in H. rewrite Forall_forall in H.
  specialize (H e Hin). congruence.
Qed.

Lemma scanOverrides_file_info (fs : FileSystem) (opts : ResolvedOptions)
      (dir : string) (acc : ScanResult) (fullPath : string) :
  all_info (scan_logs acc) ->
  all_info (scan_logs (scanOverrides_file fs opts dir acc fullPath)).
Proof.
  intro H. unfold scanOverrides_file.
  destruct (existsb _ _); [exact H |].
  destruct (namespace_of_target _ _) as [n|].
  - destruct (getOverrideKey _ _ _ _) as [k|]; [|exact H].
    destruct (truthy k && negb (String.eqb k "index")); [|exact H].
    now apply all_info_logged.
  - destruct (getOverrideKey _ _ _ _) as [k|]; [|exact H].
    destruct (truthy k && negb (String.eqb k "index")); [|exact H].
    now apply all_info_logged.
Qed.

(** The scan of the override tree never warns. *)
Lemma scanOverrides_info (fs : FileSystem) (opts : ResolvedOptions) :
  all_info (scan_logs (scanOverrides fs opts)).
Proof.
  unfold scanOverrides.
  apply (fold_left_invariant (fun acc => all_info (scan_logs acc))).
  - intros acc dir H. destruct (negb (existsSync fs dir)); [exact H |].
    apply (fold_left_invariant (fun acc => all_info (scan_logs acc)));
      [|exact H].
    intros x b Hx. now apply scanOverrides_file_info.
  - constructor.
Qed.

Lemma scanAllTargets_info (fs : FileSystem) (opts : ResolvedOptions) :
  all_info (snd (scanAllTargets fs opts)).
Proof.
  unfold scanAllTargets.
  apply (fold_left_invariant
           (fun acc : JsMap.t TargetFile * list LogEntry => all_info (snd acc))).
  - intros acc t H. cbn [snd]. now apply all_info_logged.
  - constructor.
Qed.

Lemma summary_logs_info (fileOverrides : OverrideMap)
      (namespaced : NamespacedOverrideMap) :
  all_info (summary_logs fileOverrides namespaced).
Proof.
  unfold summary_logs. destruct (Nat.ltb 0 _); [|constructor].
  apply (fold_left_invariant all_info).
  - intros l nm H. now apply all_info_logged.
  - destruct (Nat.ltb 0 (JsMap.size fileOverrides));
      repeat apply all_info_logged; constructor.
Qed.

(** The start-up filter keeps the same entries as the watcher's. *)
Lemma filter_flat_startup_fst (targetFiles : JsMap.t TargetFile)
      (flat : OverrideMap) :
  fst (filter_flat_startup targetFiles flat) = filter_flat targetFiles flat.
Proof.
  unfold filter_flat_startup, filter_flat.
  assert (H : forall (l : OverrideMap) (acc : OverrideMap) (logs : list LogEntry),
             fst (fold_left
                    (fun (acc : OverrideMap * list LogEntry) (kv : string * string) =>
                       if JsMap.has targetFiles (fst kv) then
                         (JsMap.set (fst acc) (fst kv) (snd kv), snd acc)
                       else
                         (fst acc,
                          logged (snd acc) Warn
                            ("Override " ++ dquote ++ fst kv ++ dquote
                             ++ " does not match any file in target packages — skipped")))
                    l (acc, logs))
             = fold_left
                 (fun (acc : OverrideMap) (kv : string * string) =>
                    if JsMap.has targetFiles (fst kv)
                    then JsMap.set acc (fst kv) (snd kv) else acc)
                 l acc).
  { induction l as [|kv l IH]; intros acc logs; simpl; [reflexivity |].
    destruct (JsMap.has targetFiles (fst kv)); apply IH. }
  apply H.
Qed.

Lemma logs_of_app (a b : list Effect) :
  logs_of (a ++ b) = (logs_of a ++ logs_of b)%list.
Proof.
  induction a as [|e a IH]; simpl; [reflexivity |].
  destruct e; simpl; now rewrite IH.
Qed.

Lemma logs_of_invalidate (l : list nat) : logs_of (map Invalidate l) = [].
Proof. induction l; simpl; auto. Qed.

Lemma logs_of_log (l : list LogEntry) : logs_of (map Log l) = l.
Proof. induction l as [|e l IH]; simpl; [reflexivity | now rewrite IH]. Qed.

Lemma logs_of_flat_map_info {A : Type} (f : A -> list Effect) (l : list A) :
  (forall x, all_info (logs_of (f x))) ->
  all_info (logs_of (flat_map f l)).
Proof.
  intro H. induction l as [|x l IH]; simpl; [constructor |].
  rewrite logs_of_app. now apply all_info_app.
Qed.

Lemma invalidateForKey_info (key : string) (isNowOverride : bool)
      (oldOverrides : OverrideMap) (state : ResolverState) (g : ModuleGraph) :
  all_info (logs_of (invalidateForKey key isNowOverride oldOverrides state g)).
Proof.
  unfold invalidateForKey.
  destruct (Nat.ltb 0 _).
  - rewrite !logs_of_app, !logs_of_invalidate. simpl.
    now repeat constructor.
  - simpl. now repeat constructor.
Qed.

Lemma diff_effects_info (label : string -> string)
      (oldMap newMap : OverrideMap) (state : ResolverState) (g : ModuleGraph) :
  all_info (logs_of (diff_effects label oldMap newMap state g)).
Proof.
  unfold diff_effects. apply logs_of_flat_map_info. intro key. simpl.
  constructor; [reflexivity | apply invalidateForKey_info].
Qed.

(** The debounced callback installs the unfiltered namespaced mapping of
    its scan next to the filtered flat one. *)
Lemma rebuild_state (fs : FileSystem) (opts : ResolvedOptions)
      (g : ModuleGraph) (state : ResolverState) :
  fst (rebuild fs opts g state)
  = object_assign state
      (filter_flat (targetFiles state) (flat (scanOverrides fs opts)))
      (namespaced (scanOverrides fs opts)).
Proof. reflexivity. Qed.

(** The debounced callback never warns. *)
Lemma rebuild_info (fs : FileSystem) (opts : ResolvedOptions)
      (g : ModuleGraph) (state : ResolverState) :
  all_info (logs_of (snd (rebuild fs opts g state))).
Proof.
  unfold rebuild. cbn [snd logs_of].
  rewrite !logs_of_app, logs_of_log.
  repeat apply all_info_app.
  - apply scanOverrides_info.
  - apply diff_effects_info.
  - apply logs_of_flat_map_info. intro ns. apply diff_effects_info.
  - destruct (_ || _); simpl; now repeat constructor.
Qed.

Lemma patch_logs_info (ps : list Patch.ResolvedPatch) :
  all_info (patch_logs ps).
Proof.
  unfold patch_logs. induction ps as [|patch ps IH]; simpl; [constructor |].
  constructor; [| exact IH].
  destruct (Patch.configPath patch) as [c|]; [destruct (truthy c) |];
    reflexivity.
Qed.

(** What [unlock] puts in the state of an activation that succeeds, and
    where its warnings come from. *)
Lemma unlock_active (fs : FileSystem) (opts : ResolvedOptions)
      (st : ResolverState) (logs : list LogEntry) :
  unlock fs opts = Active st logs ->
  namespacedOverrides st = namespaced (scanOverrides fs opts)
  /\ targetFiles st = fst (scanAllTargets fs opts)
  /\ flatOverrides st
     = filter_flat (targetFiles st) (flat (scanOverrides fs opts))
  /\ forall e, In e logs -> fst e = Warn ->
       In e (snd (filter_flat_startup (targetFiles st)
                                      (flat (scanOverrides fs opts))))
       \/ exists l3, detectConflicts fs (flatOverrides st) opts = inr l3
                     /\ In e l3.
Proof.
  unfold unlock. destruct (targets opts) as [|t0 ts] eqn:Hts; [discriminate |].
  pose proof (scanAllTargets_info fs opts) as Hinfo1.
  destruct (scanAllTargets fs opts) as [tf logs1]. cbn [fst snd] in *.
  pose proof (filter_flat_startup_fst tf (flat (scanOverrides fs opts))) as Hf.
  destruct (filter_flat_startup tf (flat (scanOverrides fs opts)))
    as [fileOverrides logs2] eqn:Hfilter.
  cbn [fst] in Hf.
  destruct (if Nat.ltb 1 (List.length (t0 :: ts))
               && Nat.ltb 0 (JsMap.size fileOverrides)
            then detectConflicts fs fileOverrides opts else inr [])
    as [err|logs3] eqn:Hconf; [discriminate |].
  intro H. inversion H. subst st logs. clear H. cbn.
  repeat split; [exact Hf |].
  intros e Hin Hw.
  rewrite !in_app_iff in Hin.
  destruct Hin as [[Hin | [Hin | Hin]] | [Hin | [Hin | Hin]]].
  - destruct (all_info_not_warn _ _ Hinfo1 Hin Hw).
  - destruct (all_info_not_warn _ _ (scanOverrides_info fs opts) Hin Hw).
  - left. rewrite Hfilter. exact Hin.
  - right. destruct (Nat.ltb 1 _ && Nat.ltb 0 _).
    + now exists logs3.
    + inversion Hconf. subst logs3. destruct Hin.
  - destruct (all_info_not_warn _ _ (summary_logs_info _ _) Hin Hw).
  - destruct (all_info_not_warn _ _ (patch_logs_info _) Hin Hw).
Qed.

(** C10, as stated, fails in its last clause: the project's only override
    is [@acme/ui/Orphan.tsx], whose key no target file has; it stays in the
    namespaced mapping, and yet a request from inside [@acme/ui] whose key
    is [Orphan] is declined, because its specifier is a virtual module id
    (it starts with U+0000) and the hook returns before any lookup. *)
Lemma orphan_virtual_request_declines :
  unlock orphan_fs two_targets = Active orphan_state orphan_logs
  /\ Plugin.ns_lookup (namespacedOverrides orphan_state) "@acme/ui" "Orphan"
     = Some "/proj/src/overrides/@acme/ui/Orphan.tsx"
  /\ JsMap.has (targetFiles orphan_state) "Orphan" = false
  /\ findImporterTarget ui_importer two_targets = Some ui
  /\ stripExtension (Path.basename virtual_orphan) = "Orphan"
  /\ fst (Async.run (flatOverrides orphan_state)
                    (namespacedOverrides orphan_state) no_host empty_fs
                    (resolveId two_targets virtual_orphan (Some ui_importer)))
     = None.
Proof. repeat split; vm_compute; reflexivity. Qed.

(** The same orphan, asked for from a file of [@acme/ui] when
    [@acme/dashboard], configured first, has its package root as source
    path: the ownership lookup answers [@acme/dashboard], whose namespaced
    mapping is consulted instead, and the request is declined. *)
Lemma orphan_request_from_misassigned_importer :
  Ownership.in_source_tree ui ui_importer = true
  /\ findImporterTarget ui_importer rooted_targets = Some dashboard_rooted
  /\ fst (Async.run (flatOverrides orphan_state)
                    (namespacedOverrides orphan_state) no_host empty_fs
                    (resolveId rooted_targets "./Orphan.tsx"
                               (Some ui_importer)))
     = None.
Proof. repeat split; vm_compute; reflexivity. Qed.

(** C10 (amended): only the flat mapping is filtered against the target
    file index, at start-up and in every rebuild of the watcher; the
    namespaced mapping is installed as scanned, every warning of an
    activation comes from the filter of the flat mapping or from conflict
    detection over the flat keys, and a rebuild logs no warning at all.  A
    namespaced override whose key matches no target file therefore stays in
    the namespaced mapping, and a request with that key, whose specifier
    is not a virtual module id, made from inside the source tree of its
    target [t] and from inside neither the source tree nor the directory
    holding the source root of a target configured before [t], returns
    the namespaced override file, at start-up and after any rebuild that
    still scans it. *)
Theorem namespaced_overrides_unfiltered
        (fs : FileSystem) (opts : ResolvedOptions) (st : ResolverState)
        (logs : list LogEntry)
        (host : string -> string -> option string) (fs' : FileSystem)
        (source importer : string)
        (earlier later : list ResolvedTarget) (t : ResolvedTarget)
        (p : string) :
  unlock fs opts = Active st logs ->
  startsWith source NUL = false ->
  importer_rejected (Some importer) = false ->
  targets opts = (earlier ++ t :: later)%list ->
  Ownership.in_source_tree t importer = true ->
  (forall u, In u earlier -> Ownership.claims u importer = false) ->
  stripExtension (Path.basename source) <> "" ->
  stripExtension (Path.basename source) <> "index" ->
  Plugin.ns_lookup (namespaced (scanOverrides fs opts)) (package t)
                   (stripExtension (Path.basename source)) = Some p ->
  JsMap.has (targetFiles st) (stripExtension (Path.basename source)) = false ->
  (namespacedOverrides st = namespaced (scanOverrides fs opts)
   /\ flatOverrides st
      = filter_flat (targetFiles st) (flat (scanOverrides fs opts))
   /\ (forall e, In e logs -> fst e = Warn ->
         In e (snd (filter_flat_startup (targetFiles st)
                                        (flat (scanOverrides fs opts))))
         \/ exists l3, detectConflicts fs (flatOverrides st) opts = inr l3
                       /\ In e l3)
   /\ fst (Async.run (flatOverrides st) (namespacedOverrides st) host fs'
                     (resolveId opts source (Some importer)))
      = Some p)
  /\ forall (fs2 : FileSystem) (g : ModuleGraph) (st1 : ResolverState),
      let st2 := fst (rebuild fs2 opts g st1) in
      namespacedOverrides st2 = namespaced (scanOverrides fs2 opts)
      /\ flatOverrides st2
         = filter_flat (targetFiles st1) (flat (scanOverrides fs2 opts))
      /\ all_info (logs_of (snd (rebuild fs2 opts g st1)))
      /\ forall p2,
          Plugin.ns_lookup (namespaced (scanOverrides fs2 opts)) (package t)
                           (stripExtension (Path.basename source)) = Some p2 ->
          fst (Async.run (flatOverrides st2) (namespacedOverrides st2) host fs'
                         (resolveId opts source (Some importer)))
          = Some p2.
Proof.
  intros Hact Hsrc Himp Hts Hin Hearlier Hne Hidx Hns _.
  assert (Hown : findImporterTarget importer opts = Some t).
  { apply (ResolutionFacts.findImporterTarget_first
             opts importer earlier later t Hts Hearlier).
    now apply ResolutionFacts.in_source_tree_claims. }
  destruct (unlock_active fs opts st logs Hact) as (Hn & _ & Hf & Hw).
  split.
  - repeat split; try assumption.
    apply (ResolutionFacts.resolveId_namespaced_hit
             opts _ _ host fs' source importer t p); try assumption.
    now rewrite Hn.
  - intros fs2 g st1 st2. subst st2. rewrite rebuild_state.
    repeat split.
    + apply rebuild_info.
    + intros p2 Hp2.
      now apply (ResolutionFacts.resolveId_namespaced_hit
                   opts _ _ host fs' source importer t p2).
Qed.

Lemma namespaced_overrides_unfiltered_witness :
  fst (Async.run (flatOverrides orphan_state)
                 (namespacedOverrides orphan_state) no_host empty_fs
                 (resolveId two_targets "./Orphan.tsx" (Some ui_importer)))
  = Some "/proj/src/overrides/@acme/ui/Orphan.tsx".
Proof.
  apply (namespaced_overrides_unfiltered
           orphan_fs two_targets orphan_state orphan_logs no_host empty_fs
           "./Orphan.tsx" ui_importer [dashboard] [] ui
           "/proj/src/overrides/@acme/ui/Orphan.tsx").
  - vm_compute. reflexivity.
  - reflexivity.
  - reflexivity.
  - reflexivity.
  - vm_compute. reflexivity.
  - intros u [<- | []]. vm_compute. reflexivity.
  - vm_compute. discriminate.
  - vm_compute. discriminate.
  - vm_compute. reflexivity.
  - vm_compute. reflexivity.
Defined.

End IndexFacts.

(** ** Conflicts between targets *)

Module ConflictFacts.
Import Str Utils Types Fs Scanner Resolver Graph Plugin Watcher Sample.

(** Under [first] the check never logs and never aborts. *)
Lemma detectConflicts_first_silent
      (perTargetMaps : list (ResolvedTarget * OverrideMap))
      (keys : list string) (logs : list LogEntry) :
  detectConflicts_loop perTargetMaps OnFirst keys logs = inr logs.
Proof.
  induction keys as [|key rest IH]; simpl; [reflexivity |].
  destruct (Nat.ltb 1 _); exact IH.
Qed.

(** Under [warn] the check never aborts. *)
Lemma detectConflicts_warn_proceeds
      (perTargetMaps : list (ResolvedTarget * OverrideMap))
      (keys : list string) (logs : list LogEntry) :
  exists logs', detectConflicts_loop perTargetMaps OnWarn keys logs = inr logs'.
Proof.
  revert logs. induction keys as [|key rest IH]; intro logs; simpl.
  - now exists logs.
  - destruct (Nat.ltb 1 _); apply IH.
Qed.

(** Under [error] the check aborts as soon as one of the flat keys is in
    the source files of more than one target. *)
Lemma detectConflicts_error_aborts
      (perTargetMaps : list (ResolvedTarget * OverrideMap))
      (keys : list string) (logs : list LogEntry) (key : string) :
  In key keys ->
  1 < List.length
        (filter (fun tm => JsMap.has (snd tm) key) perTargetMaps) ->
  exists msg, detectConflicts_loop perTargetMaps OnError keys logs = inl msg.
Proof.
  intros Hin Hmany. induction keys as [|k rest IH]; [destruct Hin |].
  simpl. destruct (Nat.ltb 1 _) eqn:E.
  - eexists. reflexivity.
  - destruct Hin as [-> | Hin]; [| exact (IH Hin)].
    apply Nat.ltb_ge in E. lia.
Qed.

(** Entering the files of one target into the combined index: a key of
    that target now names that target, every other key is untouched. *)
Lemma combine_target_get (t : ResolvedTarget) (targetMap : OverrideMap)
      (combined : JsMap.t TargetFile) (key : string) :
  (JsMap.has targetMap key = true ->
   exists f,
     In (key, f) targetMap
     /\ JsMap.get
          (fold_left
             (fun (combined : JsMap.t TargetFile) (kv : string * string) =>
                JsMap.set combined (fst kv)
                          {| target := t; filePath := snd kv |})
             targetMap combined) key
        = Some {| target := t; filePath := f |})
  /\ (JsMap.has targetMap key = false ->
      JsMap.get
        (fold_left
           (fun (combined : JsMap.t TargetFile) (kv : string * string) =>
              JsMap.set combined (fst kv)
                        {| target := t; filePath := snd kv |})
           targetMap combined) key
      = JsMap.get combined key).
Proof.
  revert combined.
  induction targetMap as [|[k v] targetMap IH]; intro combined.
  - split; [discriminate | reflexivity].
  - cbn [fold_left fst snd].
    destruct (IH (JsMap.set combined k {| target := t; filePath := v |}))
      as [IHyes IHno].
    destruct (JsMap.has targetMap key) eqn:Hrest.
    + split; [intros _ | intro Hc].
      * destruct (IHyes eq_refl) as (f & Hin & Hget).
        exists f. split; [now right | exact Hget].
      * exfalso. unfold JsMap.has in Hc, Hrest. cbn [JsMap.get] in Hc.
        destruct (String.eqb k key); [discriminate |].
        rewrite Hc in Hrest. discriminate.
    + rewrite (IHno eq_refl).
      destruct (String.eqb k key) eqn:E.
      * apply String.eqb_eq in E. subst k. split; [intros _ | intro Hc].
        -- exists v. split; [now left | apply JsMapFacts.get_set_same].
        -- exfalso. unfold JsMap.has in Hc. cbn [JsMap.get] in Hc.
           rewrite String.eqb_refl in Hc. discriminate.
      * apply String.eqb_neq in E. split; [intro Hc | intros _].
        -- exfalso. unfold JsMap.has in Hc, Hrest. cbn [JsMap.get] in Hc.
           apply String.eqb_neq in E. rewrite E in Hc.
           rewrite Hc in Hrest. discriminate.
        -- now apply JsMapFacts.get_set_other.
Qed.

(** The combined index built from [pre ++ more] is the one built from
    [pre], carried on over [more]. *)
Lemma scanAllTargets_unscanned (fs : FileSystem) (opts : ResolvedOptions)
      (key : string) (more : list ResolvedTarget)
      (acc : JsMap.t TargetFile * list LogEntry) :
  (forall u, In u more -> JsMap.has (scanTarget fs u opts) key = false) ->
  JsMap.get
    (fst (fold_left
            (fun (acc : JsMap.t TargetFile * list LogEntry) t =>
               let targetMap := scanTarget fs t opts in
               let line :=
                 "Scanned " ++ show_nat (JsMap.size targetMap) ++ " files in "
                 ++ package t ++ " (" ++ srcPath t ++ ")" in
               (fold_left
                  (fun (combined : JsMap.t TargetFile)
                       (kv : string * string) =>
                     JsMap.set combined (fst kv)
                               {| target := t; filePath := snd kv |})
                  targetMap (fst acc),
                logged (snd acc) Info line))
            more acc)) key
  = JsMap.get (fst acc) key.
Proof.
  revert acc. induction more as [|u more IH]; intros acc Hnone.
  - reflexivity.
  - cbn [fold_left]. rewrite IH by (intros u' Hu'; apply Hnone; now right).
    cbn [fst].
    apply (combine_target_get u (scanTarget fs u opts) (fst acc) key).
    apply Hnone. now left.
Qed.

(** X5: whatever the conflict policy, the file that the target file
    index keeps for a key is the file of the LAST configured target whose
    source tree has that key: each target overwrites the entries of the
    targets before it. *)
Lemma scanAllTargets_keeps_last_target (fs : FileSystem)
      (opts : ResolvedOptions) (key : string)
      (earlier later : list ResolvedTarget) (t : ResolvedTarget) :
  targets opts = (earlier ++ t :: later)%list ->
  JsMap.has (scanTarget fs t opts) key = true ->
  (forall u, In u later -> JsMap.has (scanTarget fs u opts) key = false) ->
  exists f,
    In (key, f) (scanTarget fs t opts)
    /\ JsMap.get (fst (scanAllTargets fs opts)) key
       = Some {| target := t; filePath := f |}.
Proof.
  intros Htargets Hhas Hlater. unfold scanAllTargets.
  rewrite Htargets, fold_left_app. cbn [fold_left].
  rewrite (scanAllTargets_unscanned fs opts key later _ Hlater).
  cbn [fst].
  apply (combine_target_get t (scanTarget fs t opts)). exact Hhas.
Qed.

Lemma scanAllTargets_keeps_last_target_witness :
  exists f,
    In ("Button", f) (scanTarget conflict_fs ui (conflict_opts OnWarn))
    /\ JsMap.get (fst (scanAllTargets conflict_fs (conflict_opts OnWarn)))
                 "Button"
       = Some {| target := ui; filePath := f |}.
Proof.
  apply (scanAllTargets_keeps_last_target
           conflict_fs (conflict_opts OnWarn) "Button" [dashboard] [] ui).
  - reflexivity.
  - vm_compute. reflexivity.
  - intros u [].
Defined.

(** C4 at the failing input: two targets, [@acme/dashboard] first and
    [@acme/ui] second, both contain [Button.tsx], and one flat override has
    the key [Button].  Under [error] the activation aborts and names both
    targets and the key; under [warn] it logs the same and says it uses the
    first match; under [first] it logs no warning.  In both running cases
    the target file index holds the [Button] of [@acme/ui], the target
    encountered last. *)
Theorem conflict_index_keeps_last_target :
  unlock conflict_fs (conflict_opts OnError)
  = Aborted
      ("[vite-plugin-unlock] " ++ conflict_names ++ ". "
       ++ "Use namespaced overrides (overrides/@scope/pkg/Button.tsx) or set onConflict: "
       ++ dquote ++ "warn" ++ dquote ++ ".")
      [(Info, "Scanned 1 files in @acme/dashboard (/proj/node_modules/@acme/dashboard/src)");
       (Info, "Scanned 1 files in @acme/ui (/proj/node_modules/@acme/ui/src)");
       (Info, "Override: Button -> /proj/src/overrides/Button.tsx")]
  /\ (exists logs,
        unlock conflict_fs (conflict_opts OnWarn) = Active conflict_state logs
        /\ filter (fun e : LogEntry =>
                     match fst e with Warn => true | _ => false end) logs
           = [(Warn, conflict_names ++ ". Using first match.")])
  /\ (exists logs,
        unlock conflict_fs (conflict_opts OnFirst) = Active conflict_state logs
        /\ all_info logs)
  /\ map package (targets (conflict_opts OnWarn))
     = ["@acme/dashboard"; "@acme/ui"]
  /\ JsMap.get (targetFiles conflict_state) "Button"
     = Some {| target := ui;
               filePath := "/proj/node_modules/@acme/ui/src/Button.tsx" |}.
Proof.
  split; [vm_compute; reflexivity |].
  split.
  { eexists. split; [vm_compute; reflexivity | vm_compute; reflexivity]. }
  split.
  { eexists. split; [vm_compute; reflexivity |].
    repeat constructor. }
  split; reflexivity.
Qed.

End ConflictFacts.

(** ** The walk over the importers *)

Module GraphFacts.
Import Graph.

Lemma mem_nat_In (x : nat) (l : list nat) : mem_nat x l = true <-> In x l.
Proof.
  unfold mem_nat. rewrite existsb_exists. split.
  - intros (y & Hy & E). apply Nat.eqb_eq in E. now subst.
  - intro H. exists x. split; [exact H | apply Nat.eqb_refl].
Qed.

Lemma mem_nat_snoc (x m : nat) (l : list nat) :
  mem_nat x (l ++ [m]) = mem_nat x l || Nat.eqb x m.
Proof.
  unfold mem_nat. rewrite existsb_app. simpl. now rewrite orb_false_r.
Qed.

Lemma unseen_weight_nil (nodes : list ModuleNode) :
  unseen_weight nodes []
  = fold_right (fun n acc => List.length (importers n) + acc) 0 nodes.
Proof.
  induction nodes as [|n nodes IH]; simpl; [reflexivity | now rewrite IH].
Qed.

Lemma unseen_weight_mono (nodes : list ModuleNode) (seen : list nat) (m : nat) :
  unseen_weight nodes (seen ++ [m]) <= unseen_weight nodes seen.
Proof.
  induction nodes as [|n nodes IH]; simpl; [lia |].
  rewrite mem_nat_snoc.
  destruct (mem_nat (id n) seen); simpl; [lia |].
  destruct (Nat.eqb (id n) m); lia.
Qed.

(** Seeing a module takes its importers off the weight. *)
Lemma unseen_weight_add (nodes : list ModuleNode) (seen : list nat) (m : nat) :
  mem_nat m seen = false ->
  unseen_weight nodes (seen ++ [m])
  + List.length (match find (fun n => Nat.eqb (id n) m) nodes with
                 | Some n => importers n
                 | None => []
                 end)
  <= unseen_weight nodes seen.
Proof.
  intro Hm. induction nodes as [|n nodes IH]; simpl; [lia |].
  rewrite mem_nat_snoc.
  destruct (Nat.eqb (id n) m) eqn:E.
  - apply Nat.eqb_eq in E. rewrite E, Hm, orb_true_r.
    pose proof (unseen_weight_mono nodes seen m). simpl. lia.
  - rewrite orb_false_r. destruct (mem_nat (id n) seen); simpl; lia.
Qed.

(** With enough fuel the loop ends on an empty queue: what it returns
    holds all that was seen or queued and is closed under [importers]. *)
Lemma bfs_ancestors_closed (g : ModuleGraph) (fuel : nat) :
  forall seen queue,
    List.length queue + unseen_weight (idToModuleMap g) seen < fuel ->
    (forall x p, In x seen -> In p (importers_of g x) ->
                 In p seen \/ In p queue) ->
    (forall x, In x seen \/ In x queue ->
               In x (bfs_ancestors fuel g seen queue))
    /\ (forall x p, In x (bfs_ancestors fuel g seen queue) ->
                    In p (importers_of g x) ->
                    In p (bfs_ancestors fuel g seen queue)).
Proof.
  induction fuel as [|fuel IH]; intros seen queue Hfuel Hinv; [lia |].
  destruct queue as [|m q]; cbn [bfs_ancestors].
  - split.
    + intros x [Hx | []]. exact Hx.
    + intros x p Hx Hp. destruct (Hinv x p Hx Hp) as [H | []]. exact H.
  - destruct (mem_nat m seen) eqn:Hm.
    + apply mem_nat_In in Hm.
      destruct (IH seen q) as [Hsub Hclosed].
      * simpl in Hfuel. lia.
      * intros x p Hx Hp. destruct (Hinv x p Hx Hp) as [H | [<- | H]]; auto.
      * split; [| exact Hclosed].
        intros x [Hx | [<- | Hx]]; apply Hsub; auto.
    + destruct (IH (seen ++ [m])%list (q ++ importers_of g m)%list)
        as [Hsub Hclosed].
      * pose proof (unseen_weight_add (idToModuleMap g) seen m Hm) as Hw.
        unfold importers_of. rewrite length_app. simpl in Hfuel. lia.
      * intros x p Hx Hp. apply in_app_or in Hx.
        destruct Hx as [Hx | [<- | []]].
        -- destruct (Hinv x p Hx Hp) as [H | [<- | H]].
           ++ left. apply in_or_app. now left.
           ++ left. apply in_or_app. right. now left.
           ++ right. apply in_or_app. now left.
        -- right. apply in_or_app. now right.
      * split; [| exact Hclosed].
        intros x [Hx | [<- | Hx]]; apply Hsub.
        -- left. apply in_or_app. now left.
        -- left. apply in_or_app. right. now left.
        -- right. apply in_or_app. now left.
Qed.

(** The walk, as the watcher starts it, reaches every module that imports
    one of [roots], directly or not. *)
Lemma bfs_reaches_ancestors (g : ModuleGraph) (roots : list nat) (m : nat) :
  ancestor g roots m ->
  In m roots
  \/ In m (bfs_ancestors (bfs_fuel g (flat_map (importers_of g) roots)) g []
                         (flat_map (importers_of g) roots)).
Proof.
  destruct (bfs_ancestors_closed
              g (bfs_fuel g (flat_map (importers_of g) roots)) []
              (flat_map (importers_of g) roots)) as [Hsub Hclosed].
  - unfold bfs_fuel. rewrite unseen_weight_nil. lia.
  - intros x p [].
  - induction 1 as [r Hr | x p Hx IH Hp]; [now left | right].
    destruct IH as [Hroot | Hseen].
    + apply Hsub. right. apply in_flat_map. now exists x.
    + now apply (Hclosed x p).
Qed.

Lemma add_all_In (roots mods : list nat) (m : nat) :
  In m (add_all roots mods) <-> In m roots \/ In m mods.
Proof.
  unfold add_all. revert roots.
  induction mods as [|x mods IH]; intro roots; simpl.
  - tauto.
  - rewrite IH. destruct (mem_nat x roots) eqn:E.
    + apply mem_nat_In in E. split; [tauto |].
      intros [H | [<- | H]]; auto.
    + rewrite in_app_iff. simpl. tauto.
Qed.

End GraphFacts.

(** ** Invalidation *)

Module WatcherFacts.
Import Str Utils Types Fs Scanner Resolver Graph Plugin Watcher Sample.
Import JsMapFacts.

Lemma invalidated_app (a b : list Effect) :
  invalidated (a ++ b) = (invalidated a ++ invalidated b)%list.
Proof.
  induction a as [|e a IH]; simpl; [reflexivity |].
  destruct e; simpl; now rewrite IH.
Qed.

Lemma invalidated_map (l : list nat) : invalidated (map Invalidate l) = l.
Proof. induction l as [|m l IH]; simpl; [reflexivity | now rewrite IH]. Qed.

(** The modules of the original target file of a key are roots. *)
Lemma roots_hold_target_modules (key : string) (isNowOverride : bool)
      (oldOverrides : OverrideMap) (st : ResolverState) (g : ModuleGraph)
      (targetInfo : TargetFile) (mods : list nat) (m : nat) :
  JsMap.get (targetFiles st) key = Some targetInfo ->
  getModulesByFile g (normalizePath (filePath targetInfo)) = Some mods ->
  In m mods ->
  In m (invalidation_roots key isNowOverride oldOverrides st g).
Proof.
  intros Hinfo Hmods Hin. unfold invalidation_roots. rewrite Hinfo, Hmods.
  assert (H1 : In m (add_all [] mods))
    by (apply GraphFacts.add_all_In; now right).
  destruct (if isNowOverride then _ else _) as [p|]; [| exact H1].
  destruct (truthy p); [| exact H1].
  destruct (getModulesByFile g (normalizePath p)); [| exact H1].
  apply GraphFacts.add_all_In. now left.
Qed.

(** So are the modules of the override file, when the path is taken from
    the mapping that holds it: the flat mapping of the new state for a key
    that is now an override, the old mapping otherwise. *)
Lemma roots_hold_override_modules (key : string) (isNowOverride : bool)
      (oldOverrides : OverrideMap) (st : ResolverState) (g : ModuleGraph)
      (p : string) (mods : list nat) (m : nat) :
  (if isNowOverride then JsMap.get (flatOverrides st) key
   else JsMap.get oldOverrides key) = Some p ->
  p <> "" ->
  getModulesByFile g (normalizePath p) = Some mods ->
  In m mods ->
  In m (invalidation_roots key isNowOverride oldOverrides st g).
Proof.
  intros Hp Hne Hmods Hin. unfold invalidation_roots.
  rewrite Hp, (ResolutionFacts.truthy_ne p Hne), Hmods.
  apply GraphFacts.add_all_In. now right.
Qed.

(** Whatever roots [invalidateForKey] has found, it invalidates them and
    every module that imports one of them, directly or not. *)
Lemma invalidateForKey_covers_ancestors (key : string) (isNowOverride : bool)
      (oldOverrides : OverrideMap) (st : ResolverState) (g : ModuleGraph)
      (m : nat) :
  ancestor g (invalidation_roots key isNowOverride oldOverrides st g) m ->
  In m (invalidated (invalidateForKey key isNowOverride oldOverrides st g)).
Proof.
  intro Hanc. unfold invalidateForKey.
  destruct (invalidation_roots key isNowOverride oldOverrides st g)
    as [|r roots] eqn:Hroots.
  - exfalso. induction Hanc as [x Hx | x p _ IH _]; [destruct Hx | exact IH].
  - cbn [List.length Nat.ltb Nat.leb].
    rewrite !invalidated_app, !invalidated_map. cbn [invalidated].
    rewrite app_nil_r. apply in_or_app.
    now apply GraphFacts.bfs_reaches_ancestors.
Qed.

(** For a key that is now an override, the roots do not depend on the
    namespaced mapping of the state at all: the path of the override file
    is taken from the flat mapping, also when the key was diffed in a
    namespaced mapping. *)
Lemma roots_ignore_namespaced_mapping (key : string)
      (oldOverrides : OverrideMap) (st : ResolverState)
      (namespaced : NamespacedOverrideMap) (g : ModuleGraph) :
  invalidation_roots key true oldOverrides
                     (assign_namespacedOverrides st namespaced) g
  = invalidation_roots key true oldOverrides st g.
Proof. reflexivity. Qed.

(** C2 at the failing input: the namespaced override
    [@acme/ui/Button.tsx] is created; the rebuild classifies the key
    [Button] of [@acme/ui] as changed, the graph holds a module for the new
    override file (module 3, imported by module 4), and the callback
    invalidates only the original target module and its importer (modules
    1 and 2): the new override path is looked up in the flat mapping, where
    it is not. *)
Theorem namespaced_create_misses_override_module :
  changed_keys
    (map_or_empty (namespacedOverrides before_create) "@acme/ui")
    (map_or_empty (namespaced (scanOverrides scoped_fs two_targets)) "@acme/ui")
  = ["Button"]
  /\ Plugin.ns_lookup
       (namespacedOverrides (fst (rebuild scoped_fs two_targets create_graph
                                          before_create)))
       "@acme/ui" "Button"
     = Some "/proj/src/overrides/@acme/ui/Button.tsx"
  /\ getModulesByFile create_graph "/proj/src/overrides/@acme/ui/Button.tsx"
     = Some [3]
  /\ importers_of create_graph 3 = [4]
  /\ invalidated (snd (rebuild scoped_fs two_targets create_graph before_create))
     = [1; 2]
  /\ count is_reload
           (snd (rebuild scoped_fs two_targets create_graph before_create))
     = 1.
Proof. repeat split; vm_compute; reflexivity. Qed.

Lemma count_app (p : Effect -> bool) (a b : list Effect) :
  count p (a ++ b) = count p a + count p b.
Proof. unfold count. now rewrite filter_app, length_app. Qed.

Lemma count_reload_invalidate (l : list nat) :
  count is_reload (map Invalidate l) = 0.
Proof. induction l as [|m l IH]; [reflexivity | exact IH]. Qed.

Lemma count_scan_invalidate (l : list nat) :
  count is_scan (map Invalidate l) = 0.
Proof. induction l as [|m l IH]; [reflexivity | exact IH]. Qed.

(** An event on a file that no patch declaration is bound to leaves the
    listener of config edits without effect. *)
Lemma config_edit_effects_unbound (g : ModuleGraph) (filePath : string)
      (ps : list Patch.ResolvedPatch) :
  bound_config ps filePath = false ->
  config_edit_effects g (normalizePath filePath) ps = [].
Proof.
  induction ps as [|patch ps IH]; simpl; intro H; [reflexivity |].
  apply orb_false_elim in H. destruct H as [H1 H2].
  destruct (Patch.configPath patch) as [c|]; [| now apply IH].
  rewrite H1. now apply IH.
Qed.

Lemma watcher_eta (w : Watcher) :
  {| pending := pending w; state := state w; bound := bound w;
     trace := (trace w ++ [])%list |} = w.
Proof. destruct w. cbn. now rewrite app_nil_r. Qed.

(** A content edit of a file that is not a bound config file is served by
    the listener of override edits alone. *)
Lemma dispatch_change (opts : ResolvedOptions) (world : World) (now : nat)
      (filePath : string) (w : Watcher) :
  bound_config (bound w) filePath = false ->
  bound (handleChange opts (graph_at world now) filePath w) = bound w ->
  dispatch opts world now (Change filePath) w
  = handleChange opts (graph_at world now) filePath w.
Proof.
  intros Hb Hsame. cbn [dispatch].
  destruct (Nat.ltb 0 (List.length (patches opts))); [| reflexivity].
  unfold handlePatchConfigContentEdit. rewrite Hsame.
  rewrite (config_edit_effects_unbound _ _ _ Hb).
  rewrite <- Hsame. apply watcher_eta.
Qed.

Lemma handleChange_bound (opts : ResolvedOptions) (g : ModuleGraph)
      (filePath : string) (w : Watcher) :
  bound (handleChange opts g filePath w) = bound w.
Proof.
  unfold handleChange.
  repeat match goal with
         | |- context [if ?c then _ else _] => destruct c
         | |- context [match ?x with _ => _ end] => destruct x
         end; reflexivity.
Qed.


(** What the change listener does on a content edit of a file with an
    allowed extension under an override directory, not the bound config
    file of a patch declaration, whose extension-stripped basename [K] is
    not empty and is a key of the flat mapping or of some namespaced
    mapping: if the host's graph holds a module for the edited file, it
    does nothing; otherwise, if the target file index has [K] and the
    graph has an entry for that original target file, it asks the host to
    invalidate exactly the modules of that entry, sends one full reload
    and changes nothing else. *)
Theorem content_edit_load_shim
        (opts : ResolvedOptions) (world : World) (now : nat)
        (filePath : string) (w : Watcher) (targetInfo : TargetFile)
        (origMods : list nat) :
  qualifies opts filePath = true ->
  bound_config (bound w) filePath = false ->
  stripExtension (Path.basename filePath) <> "" ->
  JsMap.has (flatOverrides (state w)) (stripExtension (Path.basename filePath))
  || existsb (fun m : OverrideMap =>
                JsMap.has m (stripExtension (Path.basename filePath)))
             (JsMap.values (namespacedOverrides (state w))) = true ->
  JsMap.get (targetFiles (state w)) (stripExtension (Path.basename filePath))
  = Some targetInfo ->
  getModulesByFile (graph_at world now)
                   (normalizePath (Types.filePath targetInfo))
  = Some origMods ->
  (forall m ms,
      getModulesByFile (graph_at world now) (normalizePath filePath)
      = Some (m :: ms) ->
      dispatch opts world now (Change filePath) w = w)
  /\ (getModulesByFile (graph_at world now) (normalizePath filePath) = None
      \/ getModulesByFile (graph_at world now) (normalizePath filePath)
         = Some [] ->
      let w' := dispatch opts world now (Change filePath) w in
      invalidated (trace w') = (invalidated (trace w) ++ origMods)%list
      /\ count is_reload (trace w') = count is_reload (trace w) + 1
      /\ count is_scan (trace w') = count is_scan (trace w)
      /\ state w' = state w
      /\ pending w' = pending w).
Proof.
  intros Hq Hb Hne Htracked Hinfo Horig.
  rewrite (dispatch_change opts world now filePath w Hb
                           (handleChange_bound _ _ _ _)).
  unfold qualifies in Hq. apply andb_prop in Hq. destruct Hq as [Hext Hdir].
  split.
  - intros m ms Hmods. unfold handleChange.
    rewrite Hext, Hdir. cbn [negb].
    rewrite (ResolutionFacts.truthy_ne _ Hne). cbn [negb].
    rewrite Htracked. cbn [negb]. now rewrite Hmods.
  - intros Hnone w'. subst w'. unfold handleChange.
    rewrite Hext, Hdir. cbn [negb].
    rewrite (ResolutionFacts.truthy_ne _ Hne). cbn [negb].
    rewrite Htracked. cbn [negb].
    destruct Hnone as [Hn | Hn]; rewrite Hn, Hinfo, Horig;
      cbn [trace state pending];
      rewrite !invalidated_app, invalidated_map, !count_app,
        count_reload_invalidate, count_scan_invalidate;
      cbn; rewrite app_nil_r; repeat split; lia.
Qed.

Lemma content_edit_load_shim_witness :
  (forall m ms,
      getModulesByFile (graph_at shim_world 0)
                       (normalizePath "/proj/src/overrides/Button.tsx")
      = Some (m :: ms) ->
      dispatch two_targets shim_world 0
               (Change "/proj/src/overrides/Button.tsx") (idle conflict_state)
      = idle conflict_state)
  /\ (getModulesByFile (graph_at shim_world 0)
                       (normalizePath "/proj/src/overrides/Button.tsx") = None
      \/ getModulesByFile (graph_at shim_world 0)
                          (normalizePath "/proj/src/overrides/Button.tsx")
         = Some [] ->
      let w' := dispatch two_targets shim_world 0
                         (Change "/proj/src/overrides/Button.tsx")
                         (idle conflict_state) in
      invalidated (trace w')
      = (invalidated (trace (idle conflict_state)) ++ [1])%list
      /\ count is_reload (trace w')
         = count is_reload (trace (idle conflict_state)) + 1
      /\ count is_scan (trace w') = count is_scan (trace (idle conflict_state))
      /\ state w' = state (idle conflict_state)
      /\ pending w' = pending (idle conflict_state)).
Proof.
  apply (content_edit_load_shim two_targets shim_world 0
           "/proj/src/overrides/Button.tsx" (idle conflict_state)
           ui_button [1]).
  - vm_compute. reflexivity.
  - reflexivity.
  - vm_compute. discriminate.
  - vm_compute. reflexivity.
  - vm_compute. reflexivity.
  - vm_compute. reflexivity.
Defined.

(** *** Debounce *)

Lemma quiet_app (a b : list Effect) : quiet a -> quiet b -> quiet (a ++ b).
Proof. intros Ha Hb. apply Forall_app. now split. Qed.

Lemma quiet_invalidate (l : list nat) : quiet (map Invalidate l).
Proof. induction l; simpl; constructor; auto. Qed.

Lemma quiet_log (l : list LogEntry) : quiet (map Log l).
Proof. induction l; simpl; constructor; auto. Qed.

Lemma quiet_flat_map {A : Type} (f : A -> list Effect) (l : list A) :
  (forall x, quiet (f x)) -> quiet (flat_map f l).
Proof.
  intro H. induction l as [|x l IH]; simpl; [constructor |].
  now apply quiet_app.
Qed.

Lemma quiet_count (tr : list Effect) :
  quiet tr -> count is_scan tr = 0 /\ count is_reload tr = 0.
Proof.
  unfold count. induction 1 as [|e tr He _ IH]; [now split |].
  simpl. apply orb_false_elim in He. destruct He as [-> ->]. exact IH.
Qed.

Lemma invalidateForKey_quiet (key : string) (isNowOverride : bool)
      (oldOverrides : OverrideMap) (st : ResolverState) (g : ModuleGraph) :
  quiet (invalidateForKey key isNowOverride oldOverrides st g).
Proof.
  unfold invalidateForKey. destruct (Nat.ltb 0 _).
  - repeat apply quiet_app; try apply quiet_invalidate.
    now repeat constructor.
  - now repeat constructor.
Qed.

Lemma diff_effects_quiet (label : string -> string)
      (oldMap newMap : OverrideMap) (st : ResolverState) (g : ModuleGraph) :
  quiet (diff_effects label oldMap newMap st g).
Proof.
  unfold diff_effects. apply quiet_flat_map. intro key.
  constructor; [reflexivity | apply invalidateForKey_quiet].
Qed.

(** One run of the debounced callback scans once and reloads at most
    once. *)
Lemma rebuild_counts (fs : FileSystem) (opts : ResolvedOptions)
      (g : ModuleGraph) (st : ResolverState) :
  count is_scan (snd (rebuild fs opts g st)) = 1
  /\ count is_reload (snd (rebuild fs opts g st)) <= 1.
Proof.
  unfold rebuild. cbn [snd].
  match goal with
  | |- context [(Scan :: ?l)%list] => change (Scan :: l) with ([Scan] ++ l)%list
  end.
  rewrite !count_app.
  destruct (quiet_count _ (quiet_log (scan_logs (scanOverrides fs opts))))
    as [-> ->].
  match goal with
  | |- context [count is_scan (diff_effects ?l ?o ?n ?s ?gr)] =>
      destruct (quiet_count _ (diff_effects_quiet l o n s gr)) as [-> ->]
  end.
  match goal with
  | |- context [count is_scan (flat_map ?f ?l)] =>
      destruct (quiet_count (flat_map f l)) as [-> ->];
        [apply quiet_flat_map; intro ns; apply diff_effects_quiet |]
  end.
  destruct (_ || _); cbn; split; lia.
Qed.

(** A qualifying structural event re-arms the timer and does nothing
    else. *)
Lemma handleStructuralChange_rearms (opts : ResolvedOptions) (now : nat)
      (filePath : string) (w : Watcher) :
  qualifies opts filePath = true ->
  handleStructuralChange opts now filePath w
  = {| pending := Some (now + DEBOUNCE_MS); state := state w;
       bound := bound w; trace := trace w |}.
Proof.
  intro Hq. unfold qualifies in Hq. apply andb_prop in Hq.
  destruct Hq as [Hext Hdir]. unfold handleStructuralChange.
  now rewrite Hext, Hdir.
Qed.

(** The listener of patch configs passes over a file that bears the name
    of no declared config file. *)
Lemma rebind_patches_other (fs : FileSystem) (opts : ResolvedOptions)
      (g : ModuleGraph) (filePath : string) (ps : list Patch.ResolvedPatch) :
  names_patch_config ps filePath = false ->
  rebind_patches fs opts g (stripExtension (Path.basename filePath)) ps
  = (ps, []).
Proof.
  induction ps as [|patch ps IH]; simpl; intro H; [reflexivity |].
  apply orb_false_elim in H. destruct H as [H1 H2].
  rewrite (IH H2), H1. reflexivity.
Qed.

Lemma handlePatchConfigStructural_other (fs : FileSystem)
      (opts : ResolvedOptions) (g : ModuleGraph) (filePath : string)
      (w : Watcher) :
  names_patch_config (bound w) filePath = false ->
  handlePatchConfigStructural fs opts g filePath w = w.
Proof.
  intro H. unfold handlePatchConfigStructural.
  destruct (negb (truthy _)); [reflexivity |].
  destruct (negb (isOverrideFile opts filePath)); [reflexivity |].
  rewrite (rebind_patches_other fs opts g filePath (bound w) H).
  apply watcher_eta.
Qed.

Lemma dispatch_structural (opts : ResolvedOptions) (world : World) (now : nat)
      (ev : FsEvent) (w : Watcher) :
  structural opts (bound w) ev = true ->
  dispatch opts world now ev w
  = {| pending := Some (now + DEBOUNCE_MS); state := state w;
       bound := bound w; trace := trace w |}.
Proof.
  destruct ev as [p | p | p]; cbn [structural dispatch]; intro H;
    try discriminate;
    apply andb_prop in H; destruct H as [Hq Hn];
    apply negb_true_iff in Hn;
    rewrite (handleStructuralChange_rearms opts now p w Hq);
    (destruct (Nat.ltb 0 (List.length (patches opts))); [| reflexivity]);
    now apply handlePatchConfigStructural_other.
Qed.

(** A timer that is not yet due does not fire. *)
Lemma advance_not_due (opts : ResolvedOptions) (world : World) (now due : nat)
      (w : Watcher) :
  pending w = Some due -> now < due -> advance opts world now w = w.
Proof.
  intros Hp Hlt. unfold advance. rewrite Hp.
  destruct (Nat.leb due now) eqn:E; [|reflexivity].
  apply Nat.leb_le in E. lia.
Qed.

(** While the events of a burst keep arriving inside the window, the
    callback does not run: each event supersedes the pending timer, and
    the timer left at the end is the one armed by the last event. *)
Lemma run_within_window (opts : ResolvedOptions) (world : World)
      (events : list (nat * FsEvent)) (prev : nat) (w : Watcher) :
  pending w = Some (prev + DEBOUNCE_MS) ->
  within_window opts (bound w) prev events ->
  pending (run opts world events w)
  = Some (last_instant prev events + DEBOUNCE_MS)
  /\ trace (run opts world events w) = trace w
  /\ state (run opts world events w) = state w.
Proof.
  revert prev w. induction events as [|[now ev] rest IH]; intros prev w Hp Hw.
  - now repeat split.
  - destruct Hw as (Hs & Hle & Hlt & Hrest). cbn [run last_instant].
    rewrite (advance_not_due opts world now (prev + DEBOUNCE_MS) w Hp Hlt).
    rewrite (dispatch_structural opts world now ev w Hs).
    destruct (IH now
                 {| pending := Some (now + DEBOUNCE_MS); state := state w;
                    bound := bound w; trace := trace w |}
                 eq_refl Hrest) as (H1 & H2 & H3).
    now repeat split.
Qed.

(** C6, as stated, fails: with a patch declared on [menu.config], the two
    creations of [menu.config.ts] and of [@acme/ui/Button.tsx], both files
    with an allowed extension under the override directory and 20 ms
    apart, cause one scan but two full reloads: the listener of patch
    configs sends its own at the first event, outside the debounce, and
    the debounced callback sends the other. *)
Lemma patch_config_in_burst_reloads_twice :
  qualifies patched_opts "/proj/src/overrides/menu.config.ts" = true
  /\ qualifies patched_opts "/proj/src/overrides/@acme/ui/Button.tsx" = true
  /\ count is_scan
           (trace (advance patched_opts patched_world 500
                           (run patched_opts patched_world patched_burst
                                patched_start)))
     = 1
  /\ count is_reload
           (trace (advance patched_opts patched_world 500
                           (run patched_opts patched_world patched_burst
                                patched_start)))
     = 2.
Proof. repeat split; vm_compute; reflexivity. Qed.

(** C6 (amended): a burst of creations or deletions of files with an
    allowed extension under an override directory, none of which bears
    the name of a declared patch config file, the first arriving before
    any timer still pending is due and each other one before the timer
    armed by the previous one has
    elapsed, runs nothing while it lasts; every event replaces the pending
    timer by one due [DEBOUNCE_MS] after itself; and once that last timer
    is due the callback has run exactly once: the whole burst causes
    exactly one scan of the override tree and at most one full reload. *)
Theorem debounce_coalesces
        (opts : ResolvedOptions) (world : World) (w : Watcher)
        (first : nat) (ev : FsEvent) (rest : list (nat * FsEvent))
        (later : nat) :
  (forall due, pending w = Some due -> first < due) ->
  structural opts (bound w) ev = true ->
  within_window opts (bound w) first rest ->
  last_instant first rest + DEBOUNCE_MS <= later ->
  let during := run opts world ((first, ev) :: rest) w in
  let after := advance opts world later during in
  trace during = trace w
  /\ pending during = Some (last_instant first rest + DEBOUNCE_MS)
  /\ count is_scan (trace after) = count is_scan (trace w) + 1
  /\ count is_reload (trace after) <= count is_reload (trace w) + 1
  /\ pending after = None.
Proof.
  intros Hp Hs Hw Hlater during after.
  assert (Hfirst : dispatch opts world first ev (advance opts world first w)
                   = {| pending := Some (first + DEBOUNCE_MS);
                        state := state w; bound := bound w;
                        trace := trace w |}).
  { assert (Hadv : advance opts world first w = w).
    { destruct (pending w) as [due|] eqn:Hpw.
      - apply (advance_not_due opts world first due w Hpw). now apply Hp.
      - unfold advance. now rewrite Hpw. }
    rewrite Hadv. now apply dispatch_structural. }
  destruct (run_within_window
              opts world rest first
              {| pending := Some (first + DEBOUNCE_MS); state := state w;
                 bound := bound w; trace := trace w |} eq_refl Hw)
    as (Hpend & Htrace & Hstate).
  assert (Hd : during
               = run opts world rest
                     {| pending := Some (first + DEBOUNCE_MS);
                        state := state w; bound := bound w;
                        trace := trace w |}).
  { subst during. cbn [run]. now rewrite Hfirst. }
  rewrite <- Hd in Hpend, Htrace, Hstate. cbn [trace] in Htrace.
  split; [exact Htrace |]. split; [exact Hpend |].
  subst after. unfold advance. rewrite Hpend.
  apply Nat.leb_le in Hlater. rewrite Hlater.
  unfold fire.
  destruct (rebuild_counts
              (fs_at world (last_instant first rest + DEBOUNCE_MS)) opts
              (graph_at world (last_instant first rest + DEBOUNCE_MS))
              (state during)) as [Hscan Hreload].
  destruct (rebuild _ opts _ (state during)) as [st' effects].
  cbn [trace pending snd] in *.
  rewrite !count_app, Htrace, Hscan.
  repeat split; lia.
Qed.

Lemma debounce_coalesces_witness :
  let during := run two_targets scoped_world
                    ((100, Add "/proj/src/overrides/Card.tsx") :: burst_rest)
                    armed in
  let after := advance two_targets scoped_world 500 during in
  trace during = trace armed
  /\ pending during = Some (last_instant 100 burst_rest + DEBOUNCE_MS)
  /\ count is_scan (trace after) = count is_scan (trace armed) + 1
  /\ count is_reload (trace after) <= count is_reload (trace armed) + 1
  /\ pending after = None.
Proof.
  apply (debounce_coalesces two_targets scoped_world armed
                            100 (Add "/proj/src/overrides/Card.tsx")
                            burst_rest 500).
  - intros due H. inversion H. lia.
  - vm_compute. reflexivity.
  - unfold burst_rest, within_window, DEBOUNCE_MS.
    repeat split; try lia; vm_compute; reflexivity.
  - simpl. unfold DEBOUNCE_MS. lia.
Defined.

End WatcherFacts.

(** ** The resolver state as a snapshot *)

Module SnapshotFacts.
Import Str Utils Types Fs Scanner Resolver Graph Plugin Watcher EventLoop.

Lemma read_free_reads_first {A : Type} (a : Async.t A) :
  read_free a -> reads_first a.
Proof. intro H. destruct H; constructor; assumption. Qed.

(** Within one turn every access reads the state as it is now. *)
Lemma run_turn_agrees (c : ResolverState) (a : Async.t Outcome) :
  Forall (agrees c) (snd (run_turn c a)).
Proof.
  induction a as [r | k IH | k IH | s i k IH]; simpl.
  - constructor.
  - specialize (IH (namespacedOverrides c)).
    destruct (run_turn c (k (namespacedOverrides c))) as [res obs].
    constructor; [reflexivity | exact IH].
  - specialize (IH (flatOverrides c)).
    destruct (run_turn c (k (flatOverrides c))) as [res obs].
    constructor; [reflexivity | exact IH].
  - constructor.
Qed.

(** A hook that has made all its accesses makes none when resumed, however
    often it awaits again. *)
Lemma run_turn_read_free (c : ResolverState) (a : Async.t Outcome) :
  read_free a ->
  snd (run_turn c a) = []
  /\ forall k, fst (run_turn c a) = inr k -> forall r fs, read_free (k r fs).
Proof.
  intro H. destruct H as [x | s i k Hk]; simpl.
  - split; [reflexivity | intros k Hk; discriminate].
  - split; [reflexivity |]. intros k' Hk'. inversion Hk'. now subst.
Qed.

(** A hook whose accesses all come before its first [await] suspends with
    nothing left to read. *)
Lemma run_turn_reads_first (c : ResolverState) (a : Async.t Outcome) :
  reads_first a ->
  forall k, fst (run_turn c a) = inr k -> forall r fs, read_free (k r fs).
Proof.
  induction 1 as [x | k Hk IH | k Hk IH | s i k Hk]; simpl; intros k' Hk'.
  - discriminate.
  - specialize (IH (namespacedOverrides c)).
    destruct (run_turn c (k (namespacedOverrides c))) as [res obs].
    now apply IH.
  - specialize (IH (flatOverrides c)).
    destruct (run_turn c (k (flatOverrides c))) as [res obs].
    now apply IH.
  - inversion Hk'. now subst.
Qed.

Lemma outside_loop_read_free (opts : ResolvedOptions) (source imp : string)
      (ts : list ResolvedTarget) :
  read_free (outside_loop opts source imp ts).
Proof.
  induction ts as [|t ts IH]; simpl; [constructor |].
  destruct (negb (imports_package source t)); [exact IH |].
  constructor. intros r fs.
  destruct (redirect_of opts r fs); [constructor | exact IH].
Qed.

Lemma entry_redirect_step_read_free (opts : ResolvedOptions)
      (t : ResolvedTarget) (source imp : string) :
  read_free (entry_redirect_step opts t source imp).
Proof.
  unfold entry_redirect_step.
  destruct (imports_package source t); constructor.
  intros r fs. destruct (redirect_of opts r fs); constructor.
Qed.

Lemma override_step_reads_first (t : ResolvedTarget) (source : string)
      (rest : Async.t ResolveResult) :
  reads_first rest -> reads_first (override_step t source rest).
Proof.
  intro Hrest. unfold override_step.
  destruct (truthy _ && negb _); [|exact Hrest].
  constructor. intro ns.
  destruct (ns_lookup ns (package t) _); [constructor |].
  constructor. intro flat.
  destruct (JsMap.get flat _); [constructor | exact Hrest].
Qed.

(** [resolveId] reads the two mappings only before its first [await]. *)
Lemma resolveId_reads_first (opts : ResolvedOptions) (source : string)
      (importer : option string) :
  reads_first (resolveId opts source importer).
Proof.
  unfold resolveId.
  destruct (startsWith source NUL || importer_rejected importer);
    [constructor |].
  destruct (findImporterTarget _ opts) as [t|].
  - apply override_step_reads_first, read_free_reads_first,
      entry_redirect_step_read_free.
  - apply read_free_reads_first, outside_loop_read_free.
Qed.

(** [load] never awaits: it reads the two mappings in one go. *)
Lemma load_reads_first (fs : FileSystem) (opts : ResolvedOptions)
      (ps : list Patch.ResolvedPatch) (id : string) :
  reads_first (load fs opts ps id).
Proof.
  unfold load.
  destruct (findImporterTarget id opts) as [t|]; [|constructor].
  destruct (negb _ || String.eqb _ "index"); [constructor |].
  constructor. intro ns.
  destruct (ns_lookup ns (package t) _) as [p|]; [constructor |].
  constructor. intro flat.
  destruct (JsMap.get flat _) as [p|]; constructor.
Qed.

Lemma hook_body_reads_first (fs : FileSystem) (opts : ResolvedOptions)
      (h : Hook) :
  reads_first (hook_body fs opts h).
Proof.
  destruct h; [apply resolveId_reads_first | apply load_reads_first].
Qed.

Lemma take_call_In (call : nat) (s : list (nat * Continuation))
      (k : Continuation) (others : list (nat * Continuation)) :
  take_call call s = Some (k, others) ->
  In (call, k) s /\ forall x, In x others -> In x s.
Proof.
  revert k others. induction s as [|[c k0] s IH]; intros k others H; simpl in H.
  - discriminate.
  - destruct (Nat.eqb c call) eqn:E.
    + apply Nat.eqb_eq in E. inversion H. subst. split; [now left |].
      intros x Hx. now right.
    + destruct (take_call call s) as [[k' rest']|]; [|discriminate].
      inversion H. subst. destruct (IH k rest' eq_refl) as [Hin Hsub].
      split; [now right |].
      intros x [<- | Hx]; [now left | right; now apply Hsub].
Qed.

Lemma calls_in_snoc (done : list Turn) (turn : Turn) :
  calls_in (done ++ [turn])
  = calls_in done + (if is_call turn then 1 else 0).
Proof.
  unfold calls_in. rewrite filter_app, length_app. cbn [filter].
  destruct (is_call turn); reflexivity.
Qed.

Lemma last_scanned_snoc (fs0 : FileSystem) (done : list Turn) (turn : Turn) :
  last_scanned fs0 (done ++ [turn])
  = match turn with
    | TimerFires fs' _ => fs'
    | _ => last_scanned fs0 done
    end.
Proof. unfold last_scanned. rewrite fold_left_app. reflexivity. Qed.

(** The state that [unlock] builds is the pair of the scan of
    start-up. *)
Lemma unlock_scanned_state (fs0 : FileSystem) (opts : ResolvedOptions)
      (cell0 : ResolverState) (logs : list LogEntry) :
  unlock fs0 opts = Active cell0 logs -> cell0 = scanned_state opts fs0 fs0.
Proof.
  intro Hact.
  destruct (IndexFacts.unlock_active fs0 opts cell0 logs Hact)
    as (Hn & Ht & Hf & _).
  destruct cell0 as [f n t]. cbn in Hn, Ht, Hf. unfold scanned_state.
  now subst.
Qed.

Lemma invariant_init (fs0 : FileSystem) (opts : ResolvedOptions)
      (cell0 : ResolverState) (logs : list LogEntry) :
  unlock fs0 opts = Active cell0 logs -> invariant opts fs0 [] (init cell0).
Proof.
  intro Hact. unfold invariant, init.
  cbn [cell next_call suspended observed].
  split; [exact (unlock_scanned_state fs0 opts cell0 logs Hact) |].
  split; [reflexivity |]. split.
  - intros c k [].
  - intros c o [].
Qed.

(** What was observed before a turn was observed in the same way once
    the turn has run. *)
Lemma observed_before_snoc (opts : ResolvedOptions) (fs0 : FileSystem)
      (done : list Turn) (turn : Turn) (c : nat) (o : Observation) :
  (exists before h fs after,
      done = (before ++ HookCalled h fs :: after)%list
      /\ calls_in before = c
      /\ agrees (scanned_state opts fs0 (last_scanned fs0 before)) o) ->
  exists before h fs after,
    (done ++ [turn])%list = (before ++ HookCalled h fs :: after)%list
    /\ calls_in before = c
    /\ agrees (scanned_state opts fs0 (last_scanned fs0 before)) o.
Proof.
  intros (before & h & fs & after & Hd & Hc & Ha).
  exists before, h, fs, (after ++ [turn])%list.
  split; [| now split].
  rewrite Hd, <- app_assoc. reflexivity.
Qed.

(** The callback of the timer installs the two mappings of the scan it
    has just made. *)
Lemma invariant_timer (opts : ResolvedOptions) (fs0 : FileSystem)
      (done : list Turn) (l : Loop) (fs : FileSystem) (g : ModuleGraph) :
  invariant opts fs0 done l ->
  invariant opts fs0 (done ++ [TimerFires fs g]) (step opts (TimerFires fs g) l).
Proof.
  intros (Hcell & Hnext & Hsusp & Hobs).
  unfold invariant. cbn [step cell next_call suspended observed].
  rewrite last_scanned_snoc, calls_in_snoc. cbn [is_call].
  split; [| split; [| split]].
  - rewrite IndexFacts.rebuild_state, Hcell. reflexivity.
  - rewrite Hnext. lia.
  - exact Hsusp.
  - intros c o Hin. apply observed_before_snoc. now apply Hobs.
Qed.

(** A turn of a hook that is resumed: it has nothing left to read. *)
Lemma invariant_resume (opts : ResolvedOptions) (fs0 : FileSystem)
      (done : list Turn) (l : Loop) (call : nat) (resolved : option string)
      (fs : FileSystem) :
  invariant opts fs0 done l ->
  invariant opts fs0 (done ++ [HostAnswers call resolved fs])
            (step opts (HostAnswers call resolved fs) l).
Proof.
  intros (Hcell & Hnext & Hsusp & Hobs).
  unfold invariant. rewrite last_scanned_snoc, calls_in_snoc. cbn [is_call step].
  destruct (take_call call (suspended l)) as [[k others]|] eqn:E.
  - destruct (take_call_In _ _ _ _ E) as [Hin Hsub].
    destruct (run_turn_read_free (cell l) (k resolved fs)
                                 (Hsusp call k Hin resolved fs))
      as [Hnil Hk].
    unfold settle. cbn [cell next_call suspended observed].
    rewrite Hnil. cbn [map]. rewrite app_nil_r.
    split; [exact Hcell |]. split; [rewrite Hnext; lia |]. split.
    + intros c k0 Hk0.
      destruct (fst (run_turn (cell l) (k resolved fs))) as [out | k1] eqn:Er.
      * apply (Hsusp c k0). now apply Hsub.
      * destruct Hk0 as [Heq | Hk0].
        -- inversion Heq. subst. now apply Hk.
        -- apply (Hsusp c k0). now apply Hsub.
    + intros c o Hin'. apply observed_before_snoc. now apply Hobs.
  - split; [exact Hcell |]. split; [rewrite Hnext; lia |].
    split; [exact Hsusp |].
    intros c o Hin'. apply observed_before_snoc. now apply Hobs.
Qed.

(** A turn of a hook that is started: every access it makes reads the
    state as it stands, and what it leaves suspended has nothing left to
    read. *)
Lemma invariant_call (opts : ResolvedOptions) (fs0 : FileSystem)
      (done : list Turn) (l : Loop) (h : Hook) (fs : FileSystem) :
  invariant opts fs0 done l ->
  invariant opts fs0 (done ++ [HookCalled h fs]) (step opts (HookCalled h fs) l).
Proof.
  intros (Hcell & Hnext & Hsusp & Hobs).
  unfold invariant. rewrite last_scanned_snoc, calls_in_snoc.
  cbn [is_call step]. unfold settle. cbn [cell next_call suspended observed].
  split; [exact Hcell |]. split; [rewrite Hnext; lia |]. split.
  - intros c k Hk.
    destruct (fst (run_turn (cell l) (hook_body fs opts h)))
      as [out | k1] eqn:Er.
    + now apply (Hsusp c k).
    + destruct Hk as [Heq | Hk].
      * inversion Heq. subst.
        apply (run_turn_reads_first (cell l) (hook_body fs opts h)
                                    (hook_body_reads_first fs opts h) k Er).
      * now apply (Hsusp c k).
  - intros c o Hin. apply in_app_or in Hin. destruct Hin as [Hin | Hin].
    + apply observed_before_snoc. now apply Hobs.
    + apply in_map_iff in Hin. destruct Hin as (o' & Heq & Hin).
      inversion Heq. subst c o'.
      exists done, h, fs, []. split; [reflexivity |].
      split; [now rewrite Hnext |].
      rewrite <- Hcell.
      pose proof (run_turn_agrees (cell l) (hook_body fs opts h)) as Hag.
      rewrite Forall_forall in Hag. now apply Hag.
Qed.

Lemma invariant_step (opts : ResolvedOptions) (fs0 : FileSystem)
      (done : list Turn) (turn : Turn) (l : Loop) :
  invariant opts fs0 done l ->
  invariant opts fs0 (done ++ [turn]) (step opts turn l).
Proof.
  intro Hinv. destruct turn as [fs g | h fs | call resolved fs].
  - now apply invariant_timer.
  - now apply invariant_call.
  - now apply invariant_resume.
Qed.

Lemma invariant_run (opts : ResolvedOptions) (fs0 : FileSystem)
      (turns done : list Turn) (l : Loop) :
  invariant opts fs0 done l ->
  invariant opts fs0 (done ++ turns) (run_loop opts turns l).
Proof.
  revert done l. induction turns as [|turn turns IH]; intros done l H.
  - rewrite app_nil_r. exact H.
  - replace (done ++ turn :: turns)%list with ((done ++ [turn]) ++ turns)%list
      by (rewrite <- app_assoc; reflexivity).
    cbn [run_loop fold_left]. apply IH, invariant_step, H.
Qed.

(** A run of the loop: the first call reads both mappings of the start-up
    state and finds no override; after the rebuild the second call reads
    the new namespaced mapping and is answered from it. *)
Example sample_run_observations :
  observed (run_loop Sample.two_targets Sample.sample_turns (init Sample.before_create))
  = [(0, SawNamespaced []); (0, SawFlat []);
     (1, SawNamespaced
           [("@acme/ui",
             [("Button", "/proj/src/overrides/@acme/ui/Button.tsx")])])]
  /\ map (fun f => (fst f, fst (snd f)))
         (finished (run_loop Sample.two_targets Sample.sample_turns
                             (init Sample.before_create)))
     = [(1, Some "/proj/src/overrides/@acme/ui/Button.tsx"); (0, None)].
Proof. split; vm_compute; reflexivity. Qed.

(** A call in flight over a rebuild: when the timer fires, call 0 is
    suspended at its [await], with both mappings of the start-up state
    read; the callback installs another namespaced mapping; resumed, the
    call reads nothing more, and the call made after it reads the new
    mapping. *)
Example suspended_call_keeps_old_pair :
  let mid := run_loop Sample.two_targets (firstn 2 Sample.suspended_turns)
                      (init Sample.orphan_state) in
  let final := run_loop Sample.two_targets Sample.suspended_turns
                        (init Sample.orphan_state) in
  map fst (suspended mid) = [0]
  /\ namespacedOverrides (cell mid)
     = [("@acme/ui", [("Button", "/proj/src/overrides/@acme/ui/Button.tsx")])]
  /\ namespacedOverrides (cell mid) <> namespacedOverrides Sample.orphan_state
  /\ observed final
     = [(0, SawNamespaced (namespacedOverrides Sample.orphan_state));
        (0, SawFlat (flatOverrides Sample.orphan_state));
        (1, SawNamespaced (namespacedOverrides (cell mid)))]
  /\ map (fun f => (fst f, fst (snd f))) (finished final)
     = [(1, Some "/proj/src/overrides/@acme/ui/Button.tsx"); (0, None)].
Proof.
  repeat split; try (vm_compute; reflexivity).
  vm_compute. intro H. discriminate H.
Qed.

(** Between the two assignments of [Object.assign] the state pairs the
    flat mapping of the new scan with the namespaced mapping of the old
    one; no turn ever starts on that state. *)
Example half_assigned_state_is_mixed :
  let old := Sample.conflict_state in
  let scan := scanOverrides Sample.scoped_fs Sample.two_targets in
  let half := assign_flatOverrides
                old (filter_flat (targetFiles old) (flat scan)) in
  flatOverrides half = flat scan
  /\ namespacedOverrides half = namespacedOverrides old
  /\ flatOverrides half <> flatOverrides old
  /\ namespacedOverrides half
     <> namespacedOverrides
          (fst (rebuild Sample.scoped_fs Sample.two_targets
                        Sample.create_graph old)).
Proof.
  repeat split; try (vm_compute; reflexivity);
    vm_compute; intro H; discriminate H.
Qed.

(** C7: from the state that [unlock] builds at start-up, whatever the
    order in which the loop runs the timer callback, the calls of the
    hooks and the resumptions of suspended calls: the shared state holds,
    after every turn, the flat and the namespaced mapping of one and the
    same scan, the one that the last timer callback made on the file
    system it found (or the scan of start-up when no timer has fired);
    and every access that a hook call makes to either mapping is answered
    by the state as it stood when that call was started, also when the
    call is suspended over later rebuilds and resumed after them: no call
    reads the flat mapping of one scan and the namespaced mapping of
    another. *)
Theorem snapshot_isolation (fs0 : FileSystem) (opts : ResolvedOptions)
        (cell0 : ResolverState) (logs : list LogEntry) (turns : list Turn) :
  unlock fs0 opts = Active cell0 logs ->
  cell (run_loop opts turns (init cell0))
  = scanned_state opts fs0 (last_scanned fs0 turns)
  /\ forall call o,
      In (call, o) (observed (run_loop opts turns (init cell0))) ->
      exists before h fs after,
        turns = (before ++ HookCalled h fs :: after)%list
        /\ calls_in before = call
        /\ agrees (scanned_state opts fs0 (last_scanned fs0 before)) o.
Proof.
  intro Hact.
  destruct (invariant_run opts fs0 turns [] (init cell0)
                          (invariant_init fs0 opts cell0 logs Hact))
    as (Hcell & _ & _ & Hobs).
  cbn [app] in Hcell, Hobs. split; [exact Hcell | exact Hobs].
Qed.

Lemma snapshot_isolation_witness :
  unlock Sample.orphan_fs Sample.two_targets
  = Active Sample.orphan_state Sample.orphan_logs
  /\ cell (run_loop Sample.two_targets Sample.suspended_turns
                    (init Sample.orphan_state))
     = scanned_state Sample.two_targets Sample.orphan_fs Sample.scoped_fs
  /\ forall o,
      In (0, o)
         (observed (run_loop Sample.two_targets Sample.suspended_turns
                             (init Sample.orphan_state))) ->
      exists before h fs after,
        Sample.suspended_turns = (before ++ HookCalled h fs :: after)%list
        /\ calls_in before = 0
        /\ agrees (scanned_state Sample.two_targets Sample.orphan_fs
                                 (last_scanned Sample.orphan_fs before)) o.
Proof.
  assert (Hact : unlock Sample.orphan_fs Sample.two_targets
                 = Active Sample.orphan_state Sample.orphan_logs)
    by (vm_compute; reflexivity).
  split; [exact Hact |].
  destruct (snapshot_isolation Sample.orphan_fs Sample.two_targets
                               Sample.orphan_state Sample.orphan_logs
                               Sample.suspended_turns Hact) as [Hcell Hobs].
  split; [exact Hcell | exact (Hobs 0)].
Defined.

End SnapshotFacts.

(* ===================================================================== *)
(** * Further properties of the code *)
(* ===================================================================== *)

(** ** [utils.ts] *)

Module UtilsFacts.
Import Str Utils.
Import StrFacts.

(** Two ways of cutting one string into a front and a tail: one tail is
    a tail of the other. *)
Lemma append_eq_split (a b s1 s2 : string) :
  a ++ s1 = b ++ s2 ->
  (exists m, s2 = m ++ s1 /\ a = b ++ m)
  \/ (exists m, s1 = m ++ s2 /\ b = a ++ m).
Proof.
  revert b. induction a as [|c a IH]; intros b H.
  - right. exists b. split; [exact H | reflexivity].
  - destruct b as [|d b].
    + left. exists (String c a). split; [symmetry; exact H | reflexivity].
    + simpl in H. inversion H as [[Hc Hrest]].
      destruct (IH b Hrest) as [(m & H1 & H2) | (m & H1 & H2)].
      * left. exists m. split; [exact H1 | simpl; now rewrite H2].
      * right. exists m. split; [exact H1 | simpl; now rewrite H2].
Qed.

Lemma endsWith_app (m suf : string) : endsWith (m ++ suf) suf = true.
Proof. unfold endsWith. now rewrite strip_suffix_app. Qed.

(** A name that ends with one extension does not end with another, when
    neither extension is a tail of the other. *)
Lemma strip_suffix_other (name e e' : string) :
  endsWith e e' = false -> endsWith e' e = false ->
  strip_suffix e' (name ++ e) = None.
Proof.
  intros H1 H2. destruct (strip_suffix e' (name ++ e)) as [p|] eqn:E;
    [| reflexivity].
  apply strip_suffix_sound in E.
  destruct (append_eq_split name p e e' E) as [(m & Hm & _) | (m & Hm & _)].
  - rewrite Hm, endsWith_app in H2. discriminate.
  - rewrite Hm, endsWith_app in H1. discriminate.
Qed.

Lemma strip_first_suffix_roundtrip (exts : list string) (name e : string) :
  In e exts ->
  (forall e', In e' exts -> e' <> e ->
              endsWith e e' = false /\ endsWith e' e = false) ->
  strip_first_suffix exts (name ++ e) = name.
Proof.
  induction exts as [|e0 exts IH]; intros Hin Hsep; [destruct Hin |].
  cbn [strip_first_suffix].
  destruct (string_dec e0 e) as [-> | Hne].
  - now rewrite strip_suffix_app.
  - destruct (Hsep e0 (or_introl eq_refl) Hne) as [H1 H2].
    rewrite (strip_suffix_other name e e0 H1 H2).
    apply IH.
    + destruct Hin as [Hin | Hin]; [contradiction | exact Hin].
    + intros e' He'. apply Hsep. now right.
Qed.

(** No alternative of the pattern is a tail of another one. *)
Lemma STRIPPED_EXTENSIONS_separate (e e' : string) :
  In e STRIPPED_EXTENSIONS -> In e' STRIPPED_EXTENSIONS -> e' <> e ->
  endsWith e e' = false /\ endsWith e' e = false.
Proof.
  unfold STRIPPED_EXTENSIONS. intros He He' Hne.
  cbn [In] in He, He'.
  repeat (destruct He as [<- | He]); try contradiction;
    repeat (destruct He' as [<- | He']); try contradiction;
      try (now elim Hne); split; vm_compute; reflexivity.
Qed.

(** [normalizePath] leaves no backslash, keeps the length of the
    path, and applying it twice is applying it once. *)
Theorem normalizePath_idempotent (p : string) :
  normalizePath (normalizePath p) = normalizePath p
  /\ has_char backslash (normalizePath p) = false
  /\ String.length (normalizePath p) = String.length p.
Proof.
  induction p as [|c p (IH1 & IH2 & IH3)]; [repeat split |].
  cbn [normalizePath String.length]. rewrite has_char_cons, IH1, IH2, IH3.
  destruct (Ascii.eqb c backslash) eqn:E.
  - repeat split.
  - rewrite E. repeat split.
Qed.

(** X1: [stripExtension] undoes the appending of any of the eight
    extensions of its pattern to any name, also to a name that itself
    ends with an extension. *)
Theorem stripExtension_roundtrip (name ext : string) :
  In ext STRIPPED_EXTENSIONS ->
  stripExtension (name ++ ext) = name.
Proof.
  intro Hin. unfold stripExtension.
  apply strip_first_suffix_roundtrip; [exact Hin |].
  intros e' He' Hne. now apply STRIPPED_EXTENSIONS_separate.
Qed.

Lemma stripExtension_roundtrip_witness :
  stripExtension ("Button.stories" ++ ".tsx") = "Button.stories".
Proof.
  apply (stripExtension_roundtrip "Button.stories" ".tsx").
  unfold STRIPPED_EXTENSIONS. simpl. now left.
Defined.

(** The pieces of a split hold no slash. *)
Lemma split_slash_no_slash (s x : string) :
  In x (split_slash s) -> has_char slash x = false.
Proof.
  revert x. induction s as [|c r IH]; intros x Hx; cbn [split_slash] in Hx.
  - destruct Hx as [<- | []]. reflexivity.
  - unfold is_slash in Hx. destruct (Ascii.eqb c slash) eqn:E.
    + destruct Hx as [<- | Hx]; [reflexivity | now apply IH].
    + destruct (split_slash r) as [|h t] eqn:Er.
      * destruct Hx as [<- | []]. rewrite has_char_cons, E. reflexivity.
      * destruct Hx as [<- | Hx].
        -- rewrite has_char_cons, E. apply IH. now left.
        -- apply IH. now right.
Qed.

Lemma last_In {A : Type} (l : list A) (d : A) : l <> [] -> In (last l d) l.
Proof.
  induction l as [|x l IH]; [congruence |]. intros _.
  destruct l as [|y l]; [now left |].
  right. apply IH. discriminate.
Qed.

Lemma last_app_nonempty {A : Type} (l l' : list A) (d : A) :
  l' <> [] -> last (l ++ l') d = last l' d.
Proof.
  intro Hne. induction l as [|x l IH]; [reflexivity |].
  cbn [app]. destruct (l ++ l')%list eqn:E.
  - destruct l; [simpl in E; congruence | discriminate E].
  - cbn [last]. exact IH.
Qed.

(** the alias generated for a package is [~] followed by what stands
    after the last slash of the package name, so it holds no slash; two
    packages of different scopes with the same name get the same alias. *)
Theorem generateAlias_last_segment (scope name : string) :
  has_char slash name = false ->
  generateAlias (scope ++ "/" ++ name) = "~" ++ name
  /\ generateAlias name = "~" ++ name
  /\ has_char slash (generateAlias (scope ++ "/" ++ name)) = false.
Proof.
  intro Hname. unfold generateAlias.
  change (scope ++ "/" ++ name) with (scope ++ String slash name).
  rewrite split_slash_app, (split_slash_single name Hname).
  rewrite last_app_nonempty by discriminate.
  cbn [last]. repeat split.
  change (has_char slash (String "~"%char name) = false).
  rewrite has_char_cons. exact Hname.
Qed.

Lemma generateAlias_last_segment_witness :
  generateAlias ("@acme" ++ "/" ++ "ui") = "~" ++ "ui"
  /\ generateAlias ("@other" ++ "/" ++ "ui") = "~" ++ "ui".
Proof.
  split.
  - apply (generateAlias_last_segment "@acme" "ui"). reflexivity.
  - apply (generateAlias_last_segment "@other" "ui"). reflexivity.
Defined.

End UtilsFacts.

(** ** [scanner.ts]: what the indexes hold *)

Module ScannerInvariants.
Import Str Utils Types Fs Scanner Sample Provenance.
Import JsMapFacts ListFacts.

Lemma has_set {V : Type} (m : JsMap.t V) (k k' : string) (v : V) :
  JsMap.has (JsMap.set m k v) k' = String.eqb k k' || JsMap.has m k'.
Proof.
  unfold JsMap.has. destruct (string_dec k k') as [-> | Hne].
  - now rewrite get_set_same, String.eqb_refl.
  - rewrite (get_set_other m k k' v Hne).
    apply String.eqb_neq in Hne. now rewrite Hne.
Qed.

Lemma get_set_cases {V : Type} (m : JsMap.t V) (k k' : string) (v p : V) :
  JsMap.get (JsMap.set m k v) k' = Some p ->
  (k = k' /\ p = v) \/ (k <> k' /\ JsMap.get m k' = Some p).
Proof.
  intro H. destruct (string_dec k k') as [-> | Hne].
  - rewrite get_set_same in H. inversion H. now left.
  - rewrite (get_set_other m k k' v Hne) in H. now right.
Qed.

Lemma get_In {V : Type} (m : JsMap.t V) (k : string) (v : V) :
  JsMap.get m k = Some v -> In (k, v) m.
Proof.
  induction m as [|[k0 v0] m IH]; cbn [JsMap.get]; [discriminate |].
  destruct (String.eqb k0 k) eqn:E.
  - apply String.eqb_eq in E. intro H. inversion H. subst. now left.
  - intro H. right. now apply IH.
Qed.

Lemma insert_sorted_In (x y : string) (l : list string) :
  In y (insert_sorted x l) <-> y = x \/ In y l.
Proof.
  induction l as [|z l IH]; cbn [insert_sorted].
  - simpl. intuition.
  - destruct (utf16_leb x z); simpl in *; intuition.
Qed.

(** Sorting keeps the files that were collected, and only those. *)
Lemma sort_In (y : string) (l : list string) : In y (sort l) <-> In y l.
Proof.
  unfold sort. induction l as [|x l IH]; cbn [fold_right]; [tauto |].
  rewrite insert_sorted_In, IH. simpl. intuition.
Qed.

(** *** [collectFiles] *)

Lemma collectFiles_at_sound (budget : nat) (fs : FileSystem)
      (extensionSet : list string) :
  forall dir p,
    In p (collectFiles_at budget fs dir extensionSet) ->
    exists d entries entry,
      readdirSync fs d = Some entries
      /\ In entry entries
      /\ kind entry = IsFile
      /\ p = Path.resolve (cwd fs) d (name entry)
      /\ mem (Path.extname (name entry)) extensionSet = true
      /\ startsWith (name entry) "." = false
      /\ name entry <> "node_modules".
Proof.
  induction budget as [|budget IH]; intros dir p Hp; [destruct Hp |].
  cbn [collectFiles_at] in Hp.
  destruct (readdirSync fs dir) as [entries|] eqn:Hread; [| destruct Hp].
  apply in_flat_map in Hp. destruct Hp as (entry & Hentry & Hp).
  destruct (startsWith (name entry) ".") eqn:Hdot; [destruct Hp |].
  destruct (String.eqb (name entry) "node_modules") eqn:Hnm; [destruct Hp |].
  cbn [orb] in Hp. apply String.eqb_neq in Hnm.
  destruct (kind entry) eqn:Hkind.
  - destruct (mem (Path.extname (name entry)) extensionSet) eqn:Hext;
      [| destruct Hp].
    destruct Hp as [<- | []].
    exists dir, entries, entry. repeat split; assumption.
  - exact (IH _ p Hp).
  - destruct Hp.
Qed.

(** X2: every path that [collectFiles] returns is a regular file found
    in a directory that could be read, whose name has one of the allowed
    extensions, does not start with a dot and is not [node_modules]. *)
Theorem collectFiles_sound (fs : FileSystem) (dir : string)
        (extensionSet : list string) (p : string) :
  In p (collectFiles fs dir extensionSet) ->
  exists d entries entry,
    readdirSync fs d = Some entries
    /\ In entry entries
    /\ kind entry = IsFile
    /\ p = Path.resolve (cwd fs) d (name entry)
    /\ mem (Path.extname (name entry)) extensionSet = true
    /\ startsWith (name entry) "." = false
    /\ name entry <> "node_modules".
Proof. apply collectFiles_at_sound. Qed.

Lemma collectFiles_sound_witness :
  exists d entries entry,
    readdirSync scoped_fs d = Some entries
    /\ In entry entries
    /\ kind entry = IsFile
    /\ "/proj/src/overrides/@acme/ui/Button.tsx"
       = Path.resolve (cwd scoped_fs) d (name entry)
    /\ mem (Path.extname (name entry)) default_extensions = true
    /\ startsWith (name entry) "." = false
    /\ name entry <> "node_modules".
Proof.
  apply (collectFiles_sound scoped_fs "/proj/src/overrides"
                            default_extensions
                            "/proj/src/overrides/@acme/ui/Button.tsx").
  vm_compute. now left.
Defined.

(** *** [scanTarget] *)

Section ScanTarget.
Variable fs : FileSystem.
Variable t : ResolvedTarget.
Variable opts : ResolvedOptions.

Lemma scanTarget_fold_has (key : string) (l : list string) :
  forall m0 : OverrideMap,
    JsMap.has
      (fold_left
         (fun (map : OverrideMap) f =>
            match getOverrideKey fs f (srcPath t) (match_ opts) with
            | Some key => if truthy key then JsMap.set map key f else map
            | None => map
            end) l m0) key = true
    <-> JsMap.has m0 key = true
        \/ exists f, In f l
                     /\ getOverrideKey fs f (srcPath t) (match_ opts) = Some key
                     /\ key <> "".
Proof.
  induction l as [|f l IH]; intro m0; cbn [fold_left].
  - split; [now left | intros [H | (f & [] & _)]; exact H].
  - rewrite IH. split.
    + intros [H | (f' & Hin & Hk & Hne)].
      * destruct (getOverrideKey fs f (srcPath t) (match_ opts)) as [k|] eqn:E;
          [| now left].
        destruct (truthy k) eqn:Ek; [| now left].
        rewrite has_set in H. apply orb_prop in H. destruct H as [H | H].
        -- apply String.eqb_eq in H. subst k. right. exists f.
           repeat split; [now left | exact E |].
           intro Hk. rewrite Hk in Ek. discriminate.
        -- now left.
      * right. exists f'. repeat split; [now right | exact Hk | exact Hne].
    + intros [H | (f' & [<- | Hin] & Hk & Hne)].
      * left. destruct (getOverrideKey fs f (srcPath t) (match_ opts)) as [k|];
          [| exact H].
        destruct (truthy k); [| exact H].
        rewrite has_set, H. apply orb_true_r.
      * left. rewrite Hk. destruct key as [|c key]; [congruence |].
        cbn [truthy]. rewrite has_set, String.eqb_refl. reflexivity.
      * right. exists f'. repeat split; assumption.
Qed.

Lemma scanTarget_fold_get (key f : string) (l : list string) :
  forall m0 : OverrideMap,
    JsMap.get
      (fold_left
         (fun (map : OverrideMap) f =>
            match getOverrideKey fs f (srcPath t) (match_ opts) with
            | Some key => if truthy key then JsMap.set map key f else map
            | None => map
            end) l m0) key = Some f ->
    JsMap.get m0 key = Some f
    \/ (In f l /\ getOverrideKey fs f (srcPath t) (match_ opts) = Some key).
Proof.
  induction l as [|f0 l IH]; intros m0 H; cbn [fold_left] in H.
  - now left.
  - destruct (IH _ H) as [H0 | [Hin Hk]].
    + destruct (getOverrideKey fs f0 (srcPath t) (match_ opts)) as [k|] eqn:E;
        [| now left].
      destruct (truthy k); [| now left].
      destruct (get_set_cases _ _ _ _ _ H0) as [[-> ->] | [_ Hm]].
      * right. split; [now left | exact E].
      * now left.
    + right. split; [now right | exact Hk].
Qed.

(** X3: the index of one target has a key exactly when one of the
    collected source files of the target has that key, and the file it
    gives for the key is one of those files. *)
Theorem scanTarget_index (key : string) :
  (JsMap.has (scanTarget fs t opts) key = true
   <-> exists f,
       In f (collectFiles fs (srcPath t) (extensions opts))
       /\ getOverrideKey fs f (srcPath t) (match_ opts) = Some key
       /\ key <> "")
  /\ forall f,
      JsMap.get (scanTarget fs t opts) key = Some f ->
      In f (collectFiles fs (srcPath t) (extensions opts))
      /\ getOverrideKey fs f (srcPath t) (match_ opts) = Some key.
Proof.
  unfold scanTarget. split.
  - rewrite scanTarget_fold_has. split.
    + intros [H | H]; [discriminate H | exact H].
    + intro H. now right.
  - intros f H. destruct (scanTarget_fold_get key f _ _ H) as [H0 | H0].
    + discriminate H0.
    + exact H0.
Qed.

End ScanTarget.

(** *** [scanAllTargets] *)

(** One target entered into the combined index adds its keys to those
    already there. *)
Lemma combine_target_has (t : ResolvedTarget) (targetMap : OverrideMap)
      (combined : JsMap.t TargetFile) (key : string) :
  JsMap.has
    (fold_left
       (fun (combined : JsMap.t TargetFile) (kv : string * string) =>
          JsMap.set combined (fst kv) {| target := t; filePath := snd kv |})
       targetMap combined) key
  = JsMap.has targetMap key || JsMap.has combined key.
Proof.
  revert combined. induction targetMap as [|[k v] targetMap IH];
    intro combined; cbn [fold_left fst snd].
  - reflexivity.
  - rewrite IH, has_set. unfold JsMap.has at 3. cbn [JsMap.get].
    destruct (String.eqb k key).
    + now rewrite orb_true_r.
    + reflexivity.
Qed.

Lemma combine_target_get_cases (t : ResolvedTarget) (targetMap : OverrideMap)
      (key : string) (tf : TargetFile) :
  forall combined : JsMap.t TargetFile,
    JsMap.get
      (fold_left
         (fun (combined : JsMap.t TargetFile) (kv : string * string) =>
            JsMap.set combined (fst kv) {| target := t; filePath := snd kv |})
         targetMap combined) key = Some tf ->
    JsMap.get combined key = Some tf
    \/ (target tf = t /\ In (key, filePath tf) targetMap).
Proof.
  induction targetMap as [|[k v] targetMap IH]; intros combined H;
    cbn [fold_left fst snd] in H.
  - now left.
  - destruct (IH _ H) as [H0 | [Ht Hin]].
    + destruct (get_set_cases _ _ _ _ _ H0) as [[-> ->] | [_ Hm]].
      * right. split; [reflexivity | now left].
      * now left.
    + right. split; [exact Ht | now right].
Qed.

Lemma fold_has_exists {A T V : Type} (step : A -> T -> A)
      (proj : A -> JsMap.t V) (hasT : T -> bool) (key : string) :
  (forall acc t, JsMap.has (proj (step acc t)) key
                 = hasT t || JsMap.has (proj acc) key) ->
  forall l acc,
    JsMap.has (proj (fold_left step l acc)) key
    = existsb hasT l || JsMap.has (proj acc) key.
Proof.
  intros Hstep. induction l as [|t l IH]; intro acc; cbn [fold_left existsb].
  - reflexivity.
  - rewrite IH, Hstep. destruct (hasT t), (existsb hasT l); reflexivity.
Qed.

Lemma scanAllTargets_has (fs : FileSystem) (opts : ResolvedOptions)
      (key : string) :
  JsMap.has (fst (scanAllTargets fs opts)) key
  = existsb (fun t => JsMap.has (scanTarget fs t opts) key) (targets opts).
Proof.
  unfold scanAllTargets.
  rewrite (fold_has_exists
             _ fst (fun t => JsMap.has (scanTarget fs t opts) key) key).
  - cbn [fst]. apply orb_false_r.
  - intros acc t. cbn [fst]. apply combine_target_has.
Qed.

(** X4: a key is in the combined target file index exactly when the
    index of some configured target has it, and the entry it holds names
    a configured target together with a file that this target's own index
    lists under the key. *)
Theorem targetFiles_index (fs : FileSystem) (opts : ResolvedOptions)
        (key : string) :
  (JsMap.has (fst (scanAllTargets fs opts)) key = true
   <-> exists t, In t (targets opts)
                 /\ JsMap.has (scanTarget fs t opts) key = true)
  /\ forall tf,
      JsMap.get (fst (scanAllTargets fs opts)) key = Some tf ->
      In (target tf) (targets opts)
      /\ In (key, filePath tf) (scanTarget fs (target tf) opts).
Proof.
  split.
  - rewrite scanAllTargets_has, existsb_exists. reflexivity.
  - unfold scanAllTargets.
    apply (fold_left_invariant_In
             (fun acc : JsMap.t TargetFile * list LogEntry =>
                forall tf,
                  JsMap.get (fst acc) key = Some tf ->
                  In (target tf) (targets opts)
                  /\ In (key, filePath tf) (scanTarget fs (target tf) opts))).
    + intros acc t Ht Hacc tf H. cbn [fst] in H.
      destruct (combine_target_get_cases _ _ _ _ _ H) as [H0 | [<- Hin]].
      * now apply Hacc.
      * split; [exact Ht | exact Hin].
    + intros tf H. discriminate H.
Qed.

(** *** [scanOverrides] *)

Lemma set_nonempty {V : Type} (m : JsMap.t V) (k : string) (v : V) :
  JsMap.set m k v <> [].
Proof.
  destruct m as [|[k0 v0] m]; cbn [JsMap.set]; [discriminate |].
  destruct (String.eqb k0 k); discriminate.
Qed.

Lemma namespace_of_target_Some (ns : option string) (pkgs : list string)
      (n : string) :
  namespace_of_target ns pkgs = Some n -> ns = Some n /\ In n pkgs.
Proof.
  unfold namespace_of_target. destruct ns as [n0|]; [| discriminate].
  destruct (truthy n0 && mem n0 pkgs) eqn:E; [| discriminate].
  intro H. inversion H. subst n0. split; [reflexivity |].
  apply andb_prop in E. destruct E as [_ E]. unfold mem in E.
  apply existsb_exists in E. destruct E as (x & Hx & Ex).
  apply String.eqb_eq in Ex. now subst.
Qed.

Lemma key_kept (k : string) :
  truthy k && negb (String.eqb k "index") = true ->
  k <> "" /\ k <> "index".
Proof.
  intro H. apply andb_prop in H. destruct H as [H1 H2]. split.
  - intro E. rewrite E in H1. discriminate.
  - now apply String.eqb_neq, negb_true_iff.
Qed.

Lemma scanOverrides_file_ok (fs : FileSystem) (opts : ResolvedOptions)
      (dir : string) (acc : ScanResult) (fullPath : string) :
  In dir (overrideDirs opts) ->
  existsSync fs dir = true ->
  In fullPath (collectFiles fs dir (extensions opts)) ->
  scan_ok fs opts acc ->
  scan_ok fs opts (scanOverrides_file fs opts dir acc fullPath).
Proof.
  intros Hdir Hexists Hfile [Hflat Hns]. unfold scanOverrides_file.
  destruct (existsb _ _) eqn:Hskip; [now split |].
  destruct (namespace_of_target _ _) as [n0|] eqn:Hn0.
  - destruct (getOverrideKey _ _ _ _) as [k|] eqn:Hk; [| now split].
    destruct (truthy k && negb (String.eqb k "index")) eqn:Hkeep;
      [| now split].
    destruct (key_kept k Hkeep) as [Hne Hidx].
    destruct (namespace_of_target_Some _ _ _ Hn0) as [Hdetect Hpkg].
    split; cbn [flat namespaced]; [exact Hflat |].
    intros ns m Hget.
    destruct (get_set_cases _ _ _ _ _ Hget) as [[-> ->] | [_ Hold]].
    + split; [exact Hpkg |]. split; [apply set_nonempty |].
      intros key p Hp.
      destruct (get_set_cases _ _ _ _ _ Hp) as [[-> ->] | [_ Hinner]].
      * exists dir. repeat split; assumption.
      * destruct (JsMap.get (namespaced acc) ns) as [inner|] eqn:Einner.
        -- destruct (Hns ns inner Einner) as (_ & _ & Hentries).
           now apply Hentries.
        -- discriminate Hinner.
    + now apply Hns.
  - destruct (getOverrideKey _ _ _ _) as [k|] eqn:Hk; [| now split].
    destruct (truthy k && negb (String.eqb k "index")) eqn:Hkeep;
      [| now split].
    destruct (key_kept k Hkeep) as [Hne Hidx].
    split; cbn [flat namespaced]; [| exact Hns].
    intros key p Hget.
    destruct (get_set_cases _ _ _ _ _ Hget) as [[-> ->] | [_ Hold]].
    + exists dir. repeat split; assumption.
    + now apply Hflat.
Qed.

Lemma scanOverrides_ok (fs : FileSystem) (opts : ResolvedOptions) :
  scan_ok fs opts (scanOverrides fs opts).
Proof.
  unfold scanOverrides. apply fold_left_invariant_In.
  - intros acc dir Hdir Hacc.
    destruct (existsSync fs dir) eqn:Hexists; cbn [negb]; [| exact Hacc].
    apply fold_left_invariant_In; [| exact Hacc].
    intros acc' f Hf Hacc'. apply scanOverrides_file_ok; try assumption.
    now apply sort_In.
  - split.
    + intros key p H. discriminate H.
    + intros ns m H. discriminate H.
Qed.

(** X6: every entry of the flat mapping of a scan is a file collected
    from an override directory that exists, no segment of whose path
    below that directory starts with [_], and is filed under the key
    derived from its path, which is neither empty nor [index]. *)
Theorem flat_override_provenance (fs : FileSystem) (opts : ResolvedOptions)
        (key p : string) :
  JsMap.get (flat (scanOverrides fs opts)) key = Some p ->
  exists dir,
    In dir (overrideDirs opts)
    /\ existsSync fs dir = true
    /\ In p (collectFiles fs dir (extensions opts))
    /\ existsb (fun part => startsWith part "_")
               (split_slash (normalizePath (Path.relative (cwd fs) dir p)))
       = false
    /\ getOverrideKey fs p dir (match_ opts) = Some key
    /\ key <> "" /\ key <> "index".
Proof.
  intro H. destruct (scanOverrides_ok fs opts) as [Hflat _].
  exact (Hflat key p H).
Qed.

(** X7: every namespace of the namespaced mapping of a scan is the
    package of a configured target and holds at least one entry, and each
    of its entries is a collected file that lies under the directory of
    that namespace, outside any [_] directory, filed under the key
    derived from its path, which is neither empty nor [index]. *)
Theorem namespaced_override_provenance (fs : FileSystem)
        (opts : ResolvedOptions) (ns : string) (m : OverrideMap) :
  JsMap.get (namespaced (scanOverrides fs opts)) ns = Some m ->
  In ns (map package (targets opts))
  /\ m <> []
  /\ forall key p,
      JsMap.get m key = Some p ->
      exists dir,
        In dir (overrideDirs opts)
        /\ existsSync fs dir = true
        /\ In p (collectFiles fs dir (extensions opts))
        /\ existsb (fun part => startsWith part "_")
                   (split_slash
                      (normalizePath (Path.relative (cwd fs) dir p)))
           = false
        /\ detectNamespace fs p dir = Some ns
        /\ getOverrideKey fs p (Path.join dir ns) (match_ opts) = Some key
        /\ key <> "" /\ key <> "index".
Proof.
  intro H. destruct (scanOverrides_ok fs opts) as [_ Hns].
  exact (Hns ns m H).
Qed.

Lemma flat_override_provenance_witness :
  exists dir,
    In dir (overrideDirs (conflict_opts OnWarn))
    /\ existsSync conflict_fs dir = true
    /\ In "/proj/src/overrides/Button.tsx"
          (collectFiles conflict_fs dir (extensions (conflict_opts OnWarn)))
    /\ existsb (fun part => startsWith part "_")
               (split_slash
                  (normalizePath
                     (Path.relative (cwd conflict_fs) dir
                                    "/proj/src/overrides/Button.tsx")))
       = false
    /\ getOverrideKey conflict_fs "/proj/src/overrides/Button.tsx" dir
                      (match_ (conflict_opts OnWarn)) = Some "Button"
    /\ "Button" <> "" /\ "Button" <> "index".
Proof.
  apply (flat_override_provenance conflict_fs (conflict_opts OnWarn)
                                  "Button" "/proj/src/overrides/Button.tsx").
  vm_compute. reflexivity.
Defined.

Lemma namespaced_override_provenance_witness :
  In "@acme/ui" (map package (targets two_targets))
  /\ [("Button", "/proj/src/overrides/@acme/ui/Button.tsx")] <> [].
Proof.
  assert (H : JsMap.get (namespaced (scanOverrides scoped_fs two_targets))
                        "@acme/ui"
              = Some [("Button", "/proj/src/overrides/@acme/ui/Button.tsx")])
    by (vm_compute; reflexivity).
  destruct (namespaced_override_provenance scoped_fs two_targets "@acme/ui"
                                           _ H) as (H1 & H2 & _).
  split; [exact H1 | exact H2].
Defined.

End ScannerInvariants.

(** ** [scanner.ts]: where a scoped file ends up *)

Module PlacementFacts.
Import Str Utils Types Fs Scanner Sample Projects Provenance.
Import StrFacts JsMapFacts ListFacts ScannerInvariants.

(** A fold reaches a property that one of its steps establishes and the
    others keep. *)
Lemma fold_left_reaches {A B : Type} (Q : A -> Prop) (f : A -> B -> A)
      (l : list B) (x : B) (a : A) :
  In x l ->
  (forall acc, Q (f acc x)) ->
  (forall acc y, Q acc -> Q (f acc y)) ->
  Q (fold_left f l a).
Proof.
  intros Hin Hx Hkeep. revert a.
  induction l as [|y l IH]; intro a; [destruct Hin |].
  cbn [fold_left]. destruct Hin as [-> | Hin].
  - apply fold_left_invariant; [| apply Hx].
    intros acc b Hacc. now apply Hkeep.
  - now apply IH.
Qed.

(** No step of the scan takes a key out of a namespace. *)
Lemma scanOverrides_file_keeps (fs : FileSystem) (opts : ResolvedOptions)
      (dir : string) (acc : ScanResult) (f n k : string) :
  (exists p, Plugin.ns_lookup (namespaced acc) n k = Some p) ->
  exists p,
    Plugin.ns_lookup (namespaced (scanOverrides_file fs opts dir acc f)) n k
    = Some p.
Proof.
  intros [p Hp]. unfold scanOverrides_file.
  destruct (existsb _ _); [now exists p |].
  destruct (namespace_of_target _ _) as [n0|].
  - destruct (getOverrideKey _ _ _ _) as [k0|]; [| now exists p].
    destruct (truthy k0 && negb (String.eqb k0 "index")); [| now exists p].
    unfold Plugin.ns_lookup in *. cbn [namespaced].
    destruct (string_dec n0 n) as [-> | Hn].
    + rewrite get_set_same.
      destruct (string_dec k0 k) as [-> | Hk].
      * exists f. apply get_set_same.
      * exists p. rewrite (get_set_other _ k0 k f Hk).
        destruct (JsMap.get (namespaced acc) n); [exact Hp | discriminate].
    + exists p. now rewrite (get_set_other _ n0 n _ Hn).
  - destruct (getOverrideKey _ _ _ _) as [k0|]; [| now exists p].
    destruct (truthy k0 && negb (String.eqb k0 "index")); now exists p.
Qed.

(** Every entry of the flat mapping of a scan was collected from an
    override directory relative to which it lies under no configured
    [@scope/name]. *)
Lemma flat_entries_collected_unscoped (fs : FileSystem)
      (opts : ResolvedOptions) (key p : string) :
  JsMap.get (flat (scanOverrides fs opts)) key = Some p ->
  exists d,
    In d (overrideDirs opts)
    /\ existsSync fs d = true
    /\ In p (collectFiles fs d (extensions opts))
    /\ namespace_of_target (detectNamespace fs p d)
                           (map package (targets opts)) = None.
Proof.
  revert key p. unfold scanOverrides.
  apply (fold_left_invariant_In
           (fun acc : ScanResult =>
              forall key p,
                JsMap.get (flat acc) key = Some p ->
                exists d,
                  In d (overrideDirs opts)
                  /\ existsSync fs d = true
                  /\ In p (collectFiles fs d (extensions opts))
                  /\ namespace_of_target (detectNamespace fs p d)
                                         (map package (targets opts))
                     = None)).
  - intros acc dir Hdir Hacc.
    destruct (existsSync fs dir) eqn:Hex; cbn [negb]; [| exact Hacc].
    apply fold_left_invariant_In; [| exact Hacc].
    clear acc Hacc. intros acc f Hf Hacc key p.
    apply (proj1 (sort_In _ _)) in Hf. unfold scanOverrides_file.
    destruct (existsb _ _); [apply Hacc |].
    destruct (namespace_of_target _ _) as [n0|] eqn:Hns.
    + destruct (getOverrideKey _ _ _ _) as [k0|]; [| apply Hacc].
      destruct (truthy k0 && negb (String.eqb k0 "index")); apply Hacc.
    + destruct (getOverrideKey _ _ _ _) as [k0|]; [| apply Hacc].
      destruct (truthy k0 && negb (String.eqb k0 "index")); [| apply Hacc].
      cbn [flat]. intro Hget.
      destruct (get_set_cases _ _ _ _ _ Hget) as [[_ ->] | [_ Hold]].
      * exists dir. repeat split; assumption.
      * now apply (Hacc key p).
  - intros key p H. discriminate H.
Qed.

(** With a second override root inside the directory of a namespace, the
    same file is collected twice: from the outer root it goes to the
    namespaced mapping, from the inner root to the flat one. *)
Example nested_roots_file_in_both_mappings :
  Plugin.ns_lookup (namespaced (scanOverrides nested_fs nested_opts))
                   "@acme/ui" "Button"
  = Some "/proj/src/overrides/@acme/ui/Button.tsx"
  /\ JsMap.get (flat (scanOverrides nested_fs nested_opts)) "Button"
     = Some "/proj/src/overrides/@acme/ui/Button.tsx".
Proof. split; vm_compute; reflexivity. Qed.

(** C5 (amended): for a file collected from an override root that
    exists, whose path relative to that root begins with a segment pair
    [@scope/pkg] equal to a configured target's package identifier and
    none of whose segments starts with the skip marker: the file is a
    value of the flat mapping of the scan only if it is also collected
    from an override root relative to which it lies under no configured
    [@scope/pkg]; and when its key is neither empty nor [index], the
    namespaced mapping of the scan has that key under that identifier,
    where it holds a collected file with that identifier and key: this
    file, when no other such file exists. *)
Theorem scoped_file_is_namespaced (fs : FileSystem) (opts : ResolvedOptions)
        (dir fullPath scope pkg rest : string) :
  In dir (overrideDirs opts) ->
  existsSync fs dir = true ->
  In fullPath (collectFiles fs dir (extensions opts)) ->
  normalizePath (Path.relative (cwd fs) dir fullPath)
  = String "@" scope ++ "/" ++ pkg ++ "/" ++ rest ->
  scope <> "" -> pkg <> "" ->
  has_char slash scope = false ->
  has_char slash pkg = false ->
  In (String "@" scope ++ "/" ++ pkg) (map package (targets opts)) ->
  existsb (fun part => startsWith part "_")
          (split_slash (normalizePath (Path.relative (cwd fs) dir fullPath)))
  = false ->
  (forall key,
      JsMap.get (flat (scanOverrides fs opts)) key = Some fullPath ->
      exists d,
        In d (overrideDirs opts)
        /\ d <> dir
        /\ existsSync fs d = true
        /\ In fullPath (collectFiles fs d (extensions opts))
        /\ namespace_of_target (detectNamespace fs fullPath d)
                               (map package (targets opts)) = None)
  /\ forall k,
      getOverrideKey fs fullPath
                     (Path.join dir (String "@" scope ++ "/" ++ pkg))
                     (match_ opts) = Some k ->
      k <> "" -> k <> "index" ->
      (exists p,
          Plugin.ns_lookup (namespaced (scanOverrides fs opts))
                           (String "@" scope ++ "/" ++ pkg) k = Some p
          /\ namespaced_entry_ok fs opts (String "@" scope ++ "/" ++ pkg) k p)
      /\ ((forall p, namespaced_entry_ok fs opts
                                         (String "@" scope ++ "/" ++ pkg) k p ->
                     p = fullPath) ->
          Plugin.ns_lookup (namespaced (scanOverrides fs opts))
                           (String "@" scope ++ "/" ++ pkg) k
          = Some fullPath).
Proof.
  intros Hdir Hex Hfile Hrel Hscope Hpkg Hs Hp Hin Hskip.
  destruct (ScannerFacts.scanOverrides_file_scoped
              fs opts dir empty_scan fullPath scope pkg rest
              Hrel Hscope Hpkg Hs Hp Hin Hskip) as (Hscoped & _ & _).
  split.
  { intros key Hget.
    destruct (flat_entries_collected_unscoped fs opts key fullPath Hget)
      as (d & Hd & Hexd & Hcol & Hnone).
    exists d. repeat split; try assumption.
    intros ->. rewrite Hscoped in Hnone. discriminate Hnone. }
  intros k Hkey Hne Hidx.
  assert (Hhas : exists p,
             Plugin.ns_lookup (namespaced (scanOverrides fs opts))
                              (String "@" scope ++ "/" ++ pkg) k = Some p).
  { unfold scanOverrides.
    apply (fold_left_reaches
             (fun acc : ScanResult =>
                exists p,
                  Plugin.ns_lookup (namespaced acc)
                                   (String "@" scope ++ "/" ++ pkg) k = Some p)
             _ (overrideDirs opts) dir empty_scan Hdir).
    - intro acc. rewrite Hex. cbn [negb].
      apply (fold_left_reaches
               (fun acc : ScanResult =>
                  exists p,
                    Plugin.ns_lookup (namespaced acc)
                                     (String "@" scope ++ "/" ++ pkg) k
                    = Some p)
               _ (sort (collectFiles fs dir (extensions opts))) fullPath acc).
      + now apply sort_In.
      + intro acc'. exists fullPath.
        destruct (ScannerFacts.scanOverrides_file_scoped
                    fs opts dir acc' fullPath scope pkg rest
                    Hrel Hscope Hpkg Hs Hp Hin Hskip) as (_ & _ & Hput).
        now apply Hput.
      + intros acc' y Hacc'. now apply scanOverrides_file_keeps.
    - intros acc d Hacc. destruct (negb (existsSync fs d)); [exact Hacc |].
      apply fold_left_invariant; [| exact Hacc].
      intros acc' y Hacc'. now apply scanOverrides_file_keeps. }
  destruct Hhas as [p Hp'].
  assert (Hok : namespaced_entry_ok fs opts
                                    (String "@" scope ++ "/" ++ pkg) k p).
  { unfold Plugin.ns_lookup in Hp'.
    destruct (JsMap.get (namespaced (scanOverrides fs opts))
                        (String "@" scope ++ "/" ++ pkg)) as [m|] eqn:Em;
      [| discriminate].
    destruct (scanOverrides_ok fs opts) as [_ Hns].
    destruct (Hns _ m Em) as (_ & _ & Hentries).
    now apply Hentries. }
  split.
  - exists p. now split.
  - intro Huniq. rewrite Hp'. f_equal. now apply Huniq.
Qed.

Lemma scoped_file_is_namespaced_witness :
  Plugin.ns_lookup (namespaced (scanOverrides mixed_fs two_targets))
                   (String "@" "acme" ++ "/" ++ "ui") "Button"
  = Some "/proj/src/overrides/@acme/ui/Button.tsx"
  /\ forall key,
      JsMap.get (flat (scanOverrides mixed_fs two_targets)) key
      <> Some "/proj/src/overrides/@acme/ui/Button.tsx".
Proof.
  assert (H : In "/proj/src/overrides" (overrideDirs two_targets)
              /\ existsSync mixed_fs "/proj/src/overrides" = true
              /\ In "/proj/src/overrides/@acme/ui/Button.tsx"
                    (collectFiles mixed_fs "/proj/src/overrides"
                                  (extensions two_targets))
              /\ normalizePath
                   (Path.relative (cwd mixed_fs) "/proj/src/overrides"
                                  "/proj/src/overrides/@acme/ui/Button.tsx")
                 = String "@" "acme" ++ "/" ++ "ui" ++ "/" ++ "Button.tsx"
              /\ "acme" <> "" /\ "ui" <> ""
              /\ has_char slash "acme" = false
              /\ has_char slash "ui" = false
              /\ In (String "@" "acme" ++ "/" ++ "ui")
                    (map package (targets two_targets))
              /\ existsb (fun part => startsWith part "_")
                         (split_slash
                            (normalizePath
                               (Path.relative
                                  (cwd mixed_fs) "/proj/src/overrides"
                                  "/proj/src/overrides/@acme/ui/Button.tsx")))
                 = false).
  { repeat split; try (vm_compute; reflexivity); try discriminate.
    - now left.
    - vm_compute. now left.
    - simpl. tauto. }
  destruct H as (H0 & H0' & H0'' & H1 & H2 & H3 & H4 & H5 & H6 & H7).
  destruct (scoped_file_is_namespaced
              mixed_fs two_targets "/proj/src/overrides"
              "/proj/src/overrides/@acme/ui/Button.tsx"
              "acme" "ui" "Button.tsx" H0 H0' H0'' H1 H2 H3 H4 H5 H6 H7)
    as (Hflat & Hns).
  split.
  - destruct (Hns "Button") as [_ Hthis];
      [vm_compute; reflexivity | discriminate | discriminate |].
    apply Hthis. intros p (d & Hd & _ & Hp & _ & _ & Hkey & _).
    destruct Hd as [<- | []]. vm_compute in Hp.
    destruct Hp as [<- | [<- | [<- | [<- | []]]]];
      try reflexivity; vm_compute in Hkey; discriminate Hkey.
  - intros key Hget.
    destruct (Hflat key Hget) as (d & Hd & Hne & _).
    destruct Hd as [<- | []]. now apply Hne.
Defined.

End PlacementFacts.

(** ** [config.ts] and [resolver.ts]: lookups *)

Module ResolverInvariants.
Import Str Utils Types Fs Scanner Config Resolver Sample.
Import StrFacts.

Lemma find_in_dir_spec (fs : FileSystem) (basename dir : string)
      (exts : list string) :
  match find_in_dir fs basename dir exts with
  | Some p =>
      existsSync fs p = true
      /\ exists ext, In ext exts
                     /\ p = Path.resolve (cwd fs) dir (basename ++ ext)
  | None =>
      forall ext, In ext exts ->
                  existsSync fs (Path.resolve (cwd fs) dir (basename ++ ext))
                  = false
  end.
Proof.
  induction exts as [|ext exts IH]; cbn [find_in_dir].
  - intros ext [].
  - destruct (existsSync fs (Path.resolve (cwd fs) dir (basename ++ ext)))
      eqn:E.
    + split; [exact E |]. exists ext. split; [now left | reflexivity].
    + destruct (find_in_dir fs basename dir exts) as [p|].
      * destruct IH as [Hp (e & He & ->)]. split; [exact Hp |].
        exists e. split; [now right | reflexivity].
      * intros e [<- | He]; [exact E | now apply IH].
Qed.

(** X8: what [findConfigFile] returns exists on disk and is
    [basename] with one of the four config extensions, resolved against
    one of the override directories; it returns nothing only when none
    of these candidates exists. *)
Theorem findConfigFile_spec (fs : FileSystem) (basename : string)
        (overrideDirs : list string) :
  match findConfigFile fs basename overrideDirs with
  | Some p =>
      existsSync fs p = true
      /\ exists dir ext,
          In dir overrideDirs /\ In ext CONFIG_EXTENSIONS
          /\ p = Path.resolve (cwd fs) dir (basename ++ ext)
  | None =>
      forall dir ext,
        In dir overrideDirs -> In ext CONFIG_EXTENSIONS ->
        existsSync fs (Path.resolve (cwd fs) dir (basename ++ ext)) = false
  end.
Proof.
  induction overrideDirs as [|dir dirs IH]; cbn [findConfigFile].
  - intros dir ext [].
  - pose proof (find_in_dir_spec fs basename dir CONFIG_EXTENSIONS) as Hdir.
    destruct (find_in_dir fs basename dir CONFIG_EXTENSIONS) as [p|].
    + destruct Hdir as [Hp (ext & Hext & ->)]. split; [exact Hp |].
      exists dir, ext. repeat split; [now left | exact Hext].
    + destruct (findConfigFile fs basename dirs) as [p|].
      * destruct IH as [Hp (d & ext & Hd & Hext & ->)]. split; [exact Hp |].
        exists d, ext. repeat split; [now right | exact Hext].
      * intros d ext [<- | Hd] Hext; [now apply Hdir | now apply IH].
Qed.

(** In one directory, the extensions are tried in the order [.tsx],
    [.ts], [.jsx], [.js], and an earlier directory is preferred to a
    later one. *)
Lemma findConfigFile_first (fs : FileSystem) (basename dir : string)
      (dirs : list string) (ext : string) (earlier later : list string) :
  CONFIG_EXTENSIONS = (earlier ++ ext :: later)%list ->
  (forall e, In e earlier ->
             existsSync fs (Path.resolve (cwd fs) dir (basename ++ e)) = false) ->
  existsSync fs (Path.resolve (cwd fs) dir (basename ++ ext)) = true ->
  findConfigFile fs basename (dir :: dirs)
  = Some (Path.resolve (cwd fs) dir (basename ++ ext)).
Proof.
  intros Hsplit Hearlier Hext. cbn [findConfigFile]. rewrite Hsplit.
  clear Hsplit.
  induction earlier as [|e earlier IH]; cbn [app find_in_dir].
  - now rewrite Hext.
  - rewrite (Hearlier e (or_introl eq_refl)).
    apply IH. intros e' He'. apply Hearlier. now right.
Qed.

(** *** [findImporterTarget] *)

Lemma normalizePath_twice (p : string) :
  normalizePath (normalizePath p) = normalizePath p.
Proof.
  induction p as [|c p IH]; [reflexivity |].
  cbn [normalizePath]. rewrite IH.
  destruct (Ascii.eqb c backslash) eqn:E; [reflexivity | now rewrite E].
Qed.

(** [findImporterTarget] answers for a path written with
    backslashes as for the same path written with slashes; what it
    returns is a configured target, and every file below the source path
    of a configured target, or below the directory that holds that source
    path, is attributed to a target. *)
Theorem findImporterTarget_owner (opts : ResolvedOptions)
        (t : ResolvedTarget) (importer rest : string) :
  In t (targets opts) ->
  findImporterTarget (normalizePath importer) opts
  = findImporterTarget importer opts
  /\ (forall u, findImporterTarget importer opts = Some u ->
                In u (targets opts))
  /\ (exists u, findImporterTarget (srcPath t ++ "/" ++ rest) opts = Some u)
  /\ (exists u, findImporterTarget (Path.dirname (srcPath t) ++ "/" ++ rest)
                                   opts = Some u).
Proof.
  intro Hin. unfold findImporterTarget. split; [| split; [| split]].
  - now rewrite normalizePath_twice.
  - intros u Hu. now apply find_some in Hu.
  - destruct (find (owns_importer (normalizePath (srcPath t ++ "/" ++ rest)))
                   (targets opts)) as [u|] eqn:E; [now exists u |].
    pose proof (find_none _ _ E t Hin) as Hno. unfold owns_importer in Hno.
    rewrite normalizePath_app in Hno.
    replace (normalizePath ("/" ++ rest)) with ("/" ++ normalizePath rest)
      in Hno by reflexivity.
    replace (normalizePath (srcPath t) ++ "/" ++ normalizePath rest)
      with ((normalizePath (srcPath t) ++ "/") ++ normalizePath rest)
      in Hno by (now rewrite append_assoc).
    unfold startsWith in Hno. rewrite prefix_app in Hno. discriminate Hno.
  - destruct (find (owns_importer
                      (normalizePath (Path.dirname (srcPath t) ++ "/" ++ rest)))
                   (targets opts)) as [u|] eqn:E; [now exists u |].
    pose proof (find_none _ _ E t Hin) as Hno. unfold owns_importer in Hno.
    destruct (startsWith _ (normalizePath (srcPath t) ++ "/")
              || String.eqb _ (normalizePath (srcPath t)));
      [discriminate Hno |].
    rewrite normalizePath_app in Hno.
    replace (normalizePath ("/" ++ rest)) with ("/" ++ normalizePath rest)
      in Hno by reflexivity.
    replace (normalizePath (Path.dirname (srcPath t)) ++ "/"
             ++ normalizePath rest)
      with ((normalizePath (Path.dirname (srcPath t)) ++ "/")
            ++ normalizePath rest)
      in Hno by (now rewrite append_assoc).
    unfold startsWith in Hno. rewrite prefix_app in Hno. discriminate Hno.
Qed.

Lemma findImporterTarget_owner_witness :
  exists u,
    findImporterTarget
      (Path.dirname (srcPath ui) ++ "/" ++ "dist/app.mjs") two_targets
    = Some u.
Proof.
  destruct (findImporterTarget_owner two_targets ui "" "dist/app.mjs")
    as (_ & _ & _ & H).
  - right. now left.
  - exact H.
Defined.

(** *** [resolveEntryRedirect] *)

Lemma entry_redirect_loop_exists (fs : FileSystem) (resolvedId norm : string)
      (ts : list ResolvedTarget) :
  match entry_redirect_loop fs resolvedId norm ts with
  | (Some p, logs) =>
      existsSync fs p = true
      /\ (exists msg, logs = [(Info, msg)])
      /\ exists t,
          In t ts
          /\ match entryRedirect t with
             | Some rule => p = Path.join (Path.dirname (srcPath t)) (to rule)
             | None => p = replace_dist_entry norm
             end
  | (None, logs) => logs = []
  end.
Proof.
  induction ts as [|t ts IH]; cbn [entry_redirect_loop]; [reflexivity |].
  assert (Hrest :
            match entry_redirect_loop fs resolvedId norm ts with
            | (Some p, logs) =>
                existsSync fs p = true
                /\ (exists msg, logs = [(Info, msg)])
                /\ exists t0,
                    In t0 (t :: ts)
                    /\ match entryRedirect t0 with
                       | Some rule =>
                           p = Path.join (Path.dirname (srcPath t0)) (to rule)
                       | None => p = replace_dist_entry norm
                       end
            | (None, logs) => logs = []
            end).
  { destruct (entry_redirect_loop fs resolvedId norm ts) as [[p|] logs];
      [| exact IH].
    destruct IH as (H1 & H2 & t0 & H3 & H4).
    repeat split; [exact H1 | exact H2 |]. exists t0. split; [now right | exact H4]. }
  destruct (entryRedirect t) as [rule|] eqn:Hrule.
  - destruct (endsWith norm ("/" ++ normalizePath (from rule))
              || includes norm ("/" ++ normalizePath (from rule)));
      [| exact Hrest].
    destruct (existsSync fs (Path.join (Path.dirname (srcPath t)) (to rule)))
      eqn:E; [| exact Hrest].
    repeat split; [exact E | eexists; reflexivity |].
    exists t. split; [now left | now rewrite Hrule].
  - destruct (includes norm ("/" ++ lastPart (package t) ++ "/dist/app."));
      [| exact Hrest].
    destruct (existsSync fs (replace_dist_entry norm)) eqn:E; [| exact Hrest].
    repeat split; [exact E | eexists; reflexivity |].
    exists t. split; [now left | now rewrite Hrule].
Qed.

(** X9: a path that [resolveEntryRedirect] returns exists on disk; it
    is either the destination of the explicit rule of a configured
    target, joined to the directory that holds the target's source path,
    or, for a target without a rule, the resolved id with its
    [/dist/app.mjs] or [/dist/app.js] ending replaced; the redirect is
    logged with one info line, and a decline logs nothing. *)
Theorem resolveEntryRedirect_exists (fs : FileSystem) (resolvedId : string)
        (opts : ResolvedOptions) :
  match resolveEntryRedirect fs resolvedId opts with
  | (Some p, logs) =>
      existsSync fs p = true
      /\ (exists msg, logs = [(Info, msg)])
      /\ exists t,
          In t (targets opts)
          /\ match entryRedirect t with
             | Some rule => p = Path.join (Path.dirname (srcPath t)) (to rule)
             | None =>
                 p = replace_dist_entry
                       (strip_query (normalizePath resolvedId))
             end
  | (None, logs) => logs = []
  end.
Proof.
  unfold resolveEntryRedirect. apply entry_redirect_loop_exists.
Qed.

End ResolverInvariants.

(** ** [plugin.ts]: the [resolveId] and [load] hooks *)

Module HookInvariants.
Import Str Utils Types Fs Scanner Config Resolver Plugin Sample.
Import StrFacts.

Lemma redirect_of_exists (opts : ResolvedOptions) (resolved : option string)
      (fs : FileSystem) (p : option string) (logs : list LogEntry) :
  redirect_of opts resolved fs = Some (p, logs) ->
  exists q, p = Some q /\ existsSync fs q = true.
Proof.
  unfold redirect_of. destruct resolved as [id|]; [| discriminate].
  unfold resolveEntryRedirect.
  pose proof (ResolverInvariants.entry_redirect_loop_exists
                fs id (strip_query (normalizePath id)) (targets opts)) as H.
  destruct (entry_redirect_loop fs id (strip_query (normalizePath id))
                                (targets opts)) as [[q|] l];
    [| discriminate].
  destruct (truthy q); [| discriminate].
  intro E. inversion E. subst. exists q. split; [reflexivity | apply H].
Qed.

(** X10: for an importer that belongs to no target, the answer of
    [resolveId] does not depend on the override mappings at all; when it
    is a path, the specifier names the package of a configured target and
    the path exists on disk. *)
Theorem resolveId_outside_targets (opts : ResolvedOptions)
        (source importer : string) (flat flat' : OverrideMap)
        (namespaced namespaced' : NamespacedOverrideMap)
        (host : string -> string -> option string) (fs : FileSystem) :
  findImporterTarget importer opts = None ->
  Async.run flat namespaced host fs (resolveId opts source (Some importer))
  = Async.run flat' namespaced' host fs (resolveId opts source (Some importer))
  /\ forall p,
      fst (Async.run flat namespaced host fs
                     (resolveId opts source (Some importer))) = Some p ->
      existsSync fs p = true
      /\ exists t, In t (targets opts) /\ imports_package source t = true.
Proof.
  intro Hout. unfold resolveId. rewrite Hout.
  destruct (startsWith source NUL || importer_rejected (Some importer)).
  - split; [reflexivity | intros p H; discriminate H].
  - rewrite !ResolutionFacts.outside_loop_run. split; [reflexivity |].
    intros p H.
    destruct (existsb (imports_package source) (targets opts)) eqn:E;
      [| discriminate H].
    apply existsb_exists in E.
    destruct (redirect_of opts (host source importer) fs) as [[r l]|] eqn:Er;
      [| discriminate H].
    destruct (redirect_of_exists _ _ _ _ _ Er) as (q & -> & Hq).
    cbn [fst] in H. inversion H. subst q. split; [exact Hq | exact E].
Qed.

Lemma resolveId_outside_targets_witness :
  Async.run (flatOverrides both_state) (namespacedOverrides both_state)
            no_host empty_fs
            (resolveId two_targets "./Button.tsx" (Some app_importer))
  = Async.run [] [] no_host empty_fs
              (resolveId two_targets "./Button.tsx" (Some app_importer)).
Proof.
  apply (resolveId_outside_targets
           two_targets "./Button.tsx" app_importer
           (flatOverrides both_state) [] (namespacedOverrides both_state) []
           no_host empty_fs).
  vm_compute. reflexivity.
Defined.

(** for an importer inside the target [t] and a specifier whose key
    is in the flat mapping but not in the namespaced mapping of [t],
    [resolveId] returns the flat override, without asking the host, and
    logs one info line. *)
Theorem resolveId_flat_fallback (opts : ResolvedOptions)
        (flat : OverrideMap) (namespaced : NamespacedOverrideMap)
        (host : string -> string -> option string) (fs : FileSystem)
        (source importer : string) (t : ResolvedTarget) (q : string) :
  startsWith source NUL = false ->
  importer_rejected (Some importer) = false ->
  findImporterTarget importer opts = Some t ->
  stripExtension (Path.basename source) <> "" ->
  stripExtension (Path.basename source) <> "index" ->
  ns_lookup namespaced (package t) (stripExtension (Path.basename source))
  = None ->
  JsMap.get flat (stripExtension (Path.basename source)) = Some q ->
  Async.run flat namespaced host fs (resolveId opts source (Some importer))
  = (Some q,
     [(Info, "Override: " ++ stripExtension (Path.basename source) ++ " -> "
             ++ Path.basename q)]).
Proof.
  intros Hsrc Himp Hown Hne Hidx Hns Hflat.
  unfold resolveId. rewrite Hsrc, Himp, Hown. cbn [orb].
  unfold override_step. rewrite (ResolutionFacts.truthy_ne _ Hne).
  apply String.eqb_neq in Hidx. rewrite Hidx. cbn [negb andb Async.run].
  rewrite Hns. cbn [Async.run]. now rewrite Hflat.
Qed.

Lemma resolveId_flat_fallback_witness :
  Async.run (flatOverrides both_state) (namespacedOverrides both_state)
            no_host empty_fs
            (resolveId two_targets "./Button"
                       (Some "/proj/node_modules/@acme/dashboard/src/App.tsx"))
  = (Some "/proj/src/overrides/Button.tsx",
     [(Info, "Override: " ++ stripExtension (Path.basename "./Button")
             ++ " -> " ++ Path.basename "/proj/src/overrides/Button.tsx")]).
Proof.
  apply (resolveId_flat_fallback
           two_targets (flatOverrides both_state)
           (namespacedOverrides both_state) no_host empty_fs "./Button"
           "/proj/node_modules/@acme/dashboard/src/App.tsx" dashboard
           "/proj/src/overrides/Button.tsx").
  - reflexivity.
  - reflexivity.
  - vm_compute. reflexivity.
  - vm_compute. discriminate.
  - vm_compute. discriminate.
  - vm_compute. reflexivity.
  - vm_compute. reflexivity.
Defined.

(** *** Keys that hold a slash *)

Lemma has_char_app (c : ascii) (a b : string) :
  has_char c (a ++ b) = has_char c a || has_char c b.
Proof.
  induction a as [|x a IH]; [reflexivity |].
  change (String x a ++ b) with (String x (a ++ b)).
  rewrite !has_char_cons, IH. now destruct (Ascii.eqb x c).
Qed.

Lemma basename_no_slash (p : string) :
  has_char slash (Path.basename p) = false.
Proof.
  unfold Path.basename, filter_truthy.
  destruct (filter truthy (split_slash p)) as [|x l] eqn:E; [reflexivity |].
  assert (Hin : In (last (x :: l) "") (filter truthy (split_slash p))).
  { rewrite E. apply UtilsFacts.last_In. discriminate. }
  apply filter_In in Hin. destruct Hin as [Hin _].
  exact (UtilsFacts.split_slash_no_slash p _ Hin).
Qed.

Lemma strip_first_suffix_prefix (exts : list string) (s : string) :
  exists e, s = strip_first_suffix exts s ++ e.
Proof.
  induction exts as [|ext exts IH]; cbn [strip_first_suffix].
  - exists "". now rewrite append_nil_r.
  - destruct (strip_suffix ext s) as [p|] eqn:E; [| exact IH].
    exists ext. now apply strip_suffix_sound.
Qed.

(** The key that the hooks look up never holds a slash. *)
Lemma lookup_key_no_slash (p : string) :
  has_char slash (stripExtension (Path.basename p)) = false.
Proof.
  unfold stripExtension.
  destruct (strip_first_suffix_prefix STRIPPED_EXTENSIONS (Path.basename p))
    as [e He].
  pose proof (basename_no_slash p) as H. rewrite He, has_char_app in H.
  now apply orb_false_elim in H.
Qed.

(** X11: the hooks never consult an entry whose key holds a slash:
    two pairs of mappings that agree on the keys without a slash get the
    same answers from [resolveId] and from [load]. *)
Theorem hooks_ignore_slash_keys (opts : ResolvedOptions)
        (ps : list Patch.ResolvedPatch)
        (source : string) (importer : option string) (id : string)
        (flat flat' : OverrideMap)
        (namespaced namespaced' : NamespacedOverrideMap)
        (host : string -> string -> option string) (fs : FileSystem) :
  (forall k, has_char slash k = false -> JsMap.get flat k = JsMap.get flat' k) ->
  (forall pkg k, has_char slash k = false ->
                 ns_lookup namespaced pkg k = ns_lookup namespaced' pkg k) ->
  Async.run flat namespaced host fs (resolveId opts source importer)
  = Async.run flat' namespaced' host fs (resolveId opts source importer)
  /\ Async.run flat namespaced host fs (load fs opts ps id)
     = Async.run flat' namespaced' host fs (load fs opts ps id).
Proof.
  intros Hflat Hns. split.
  - unfold resolveId.
    destruct (startsWith source NUL || importer_rejected importer);
      [reflexivity |].
    destruct (findImporterTarget _ opts) as [t|].
    + unfold override_step.
      destruct (truthy _ && negb _).
      * cbn [Async.run].
        rewrite (Hns (package t) _ (lookup_key_no_slash source)).
        destruct (ns_lookup namespaced' (package t) _); [reflexivity |].
        cbn [Async.run].
        rewrite (Hflat _ (lookup_key_no_slash source)).
        destruct (JsMap.get flat' _); [reflexivity |].
        unfold entry_redirect_step.
        destruct (imports_package source t); cbn [Async.run];
          [destruct (redirect_of _ _ _) |]; reflexivity.
      * unfold entry_redirect_step.
        destruct (imports_package source t); cbn [Async.run];
          [destruct (redirect_of _ _ _) |]; reflexivity.
    + now rewrite !ResolutionFacts.outside_loop_run.
  - unfold load. destruct (findImporterTarget id opts) as [t|]; [| reflexivity].
    destruct (negb _ || String.eqb _ "index"); [reflexivity |].
    cbn [Async.run].
    rewrite (Hns (package t) _ (lookup_key_no_slash id)).
    destruct (ns_lookup namespaced' (package t) _); [reflexivity |].
    cbn [Async.run].
    rewrite (Hflat _ (lookup_key_no_slash id)).
    destruct (JsMap.get flat' _); reflexivity.
Qed.

Lemma hooks_ignore_slash_keys_witness :
  Async.run [("components/Button", "/proj/src/overrides/components/Button.tsx")]
            [] no_host empty_fs
            (resolveId two_targets "./components/Button" (Some ui_importer))
  = Async.run [] [] no_host empty_fs
              (resolveId two_targets "./components/Button" (Some ui_importer)).
Proof.
  apply (hooks_ignore_slash_keys
           two_targets [] "./components/Button" (Some ui_importer) ""
           [("components/Button", "/proj/src/overrides/components/Button.tsx")]
           [] [] [] no_host empty_fs).
  - intros k Hk. cbn [JsMap.get].
    destruct (String.eqb "components/Button" k) eqn:E; [| reflexivity].
    apply String.eqb_eq in E. subst k. discriminate Hk.
  - reflexivity.
Defined.

(** *** [load] *)

Lemma load_patches_sound (fs : FileSystem) (id normalizedId : string)
      (ps : list Patch.ResolvedPatch) (code : string) (logs : list LogEntry) :
  load_patches fs id normalizedId ps = (Some code, logs) ->
  exists patch cfg original,
    In patch ps
    /\ Patch.target patch normalizedId = true
    /\ Patch.configPath patch = Some cfg
    /\ existsSync fs cfg = true
    /\ readFileSync fs id = Some original
    /\ code = Patch.apply patch original cfg.
Proof.
  induction ps as [|patch ps IH]; cbn [load_patches]; [discriminate |].
  assert (Hrest : load_patches fs id normalizedId ps = (Some code, logs) ->
                  exists patch0 cfg original,
                    In patch0 (patch :: ps)
                    /\ Patch.target patch0 normalizedId = true
                    /\ Patch.configPath patch0 = Some cfg
                    /\ existsSync fs cfg = true
                    /\ readFileSync fs id = Some original
                    /\ code = Patch.apply patch0 original cfg).
  { intro H. destruct (IH H) as (p0 & cfg & o & H1 & H2).
    exists p0, cfg, o. split; [now right | exact H2]. }
  destruct (Patch.target patch normalizedId) eqn:Ht; cbn [negb];
    [| exact Hrest].
  destruct (Patch.configPath patch) as [cfg|] eqn:Hcfg; [| exact Hrest].
  destruct (truthy cfg && existsSync fs cfg) eqn:Hex; [| exact Hrest].
  apply andb_prop in Hex. destruct Hex as [_ Hex].
  destruct (readFileSync fs id) as [original|] eqn:Hread; [| discriminate].
  intro H. inversion H. exists patch, cfg, original.
  repeat split; try assumption. now left.
Qed.

Lemma load_serve_sound (fs : FileSystem) (ps : list Patch.ResolvedPatch)
      (id basename overridePath code : string) (logs : list LogEntry) :
  load_serve fs ps id basename overridePath = (Some code, logs) ->
  (existsSync fs overridePath = true /\ code = shim_code overridePath)
  \/ load_patches fs id (normalizePath id) ps = (Some code, logs).
Proof.
  unfold load_serve.
  destruct (truthy overridePath && existsSync fs overridePath) eqn:E.
  - apply andb_prop in E. destruct E as [_ E].
    intro H. inversion H. left. now split.
  - intro H. now right.
Qed.

(** X12: when [load] returns code for an id, the id lies inside a
    configured target and its key is neither empty nor [index]; the code
    is either the re-export shim of the override file found for the key,
    in the namespaced mapping of that target first and in the flat
    mapping otherwise, a file that exists on disk, or the content of the
    id transformed by a declared patch whose pattern matches the id and
    whose config file exists. *)
Theorem load_sound (fs : FileSystem) (opts : ResolvedOptions)
        (ps : list Patch.ResolvedPatch) (id : string)
        (flat : OverrideMap) (namespaced : NamespacedOverrideMap)
        (host : string -> string -> option string)
        (code : string) (logs : list LogEntry) :
  Async.run flat namespaced host fs (load fs opts ps id) = (Some code, logs) ->
  exists t,
    findImporterTarget id opts = Some t
    /\ stripExtension (Path.basename id) <> ""
    /\ stripExtension (Path.basename id) <> "index"
    /\ ((exists p,
           match ns_lookup namespaced (package t)
                           (stripExtension (Path.basename id)) with
           | Some x => Some x
           | None => JsMap.get flat (stripExtension (Path.basename id))
           end = Some p
           /\ existsSync fs p = true
           /\ code = shim_code p)
        \/ exists patch cfg original,
            In patch ps
            /\ Patch.target patch (normalizePath id) = true
            /\ Patch.configPath patch = Some cfg
            /\ existsSync fs cfg = true
            /\ readFileSync fs id = Some original
            /\ code = Patch.apply patch original cfg).
Proof.
  unfold load. destruct (findImporterTarget id opts) as [t|];
    [| discriminate].
  destruct (truthy (stripExtension (Path.basename id))) eqn:Hne;
    cbn [negb orb]; [| discriminate].
  destruct (String.eqb (stripExtension (Path.basename id)) "index") eqn:Hidx;
    [discriminate |].
  cbn [Async.run]. intro H. exists t.
  split; [reflexivity |].
  split; [now apply ResolutionFacts.truthy_true |].
  split; [now apply String.eqb_neq |].
  destruct (ns_lookup namespaced (package t) _) as [p|] eqn:Hns.
  - cbn [Async.run] in H.
    destruct (load_serve_sound _ _ _ _ _ _ _ H) as [[Hex ->] | Hp].
    + left. exists p. now repeat split.
    + right. now apply load_patches_sound in Hp.
  - cbn [Async.run] in H.
    destruct (JsMap.get flat _) as [p|] eqn:Hflat; cbn [Async.run] in H.
    + destruct (load_serve_sound _ _ _ _ _ _ _ H) as [[Hex ->] | Hp].
      * left. exists p. now repeat split.
      * right. now apply load_patches_sound in Hp.
    + right. now apply load_patches_sound in H.
Qed.

Lemma load_sound_witness :
  exists t,
    findImporterTarget "/proj/node_modules/@acme/ui/src/Button.tsx"
                       two_targets = Some t.
Proof.
  destruct (load_sound Cases.button_fs two_targets []
                       "/proj/node_modules/@acme/ui/src/Button.tsx"
                       (flatOverrides conflict_state)
                       (namespacedOverrides conflict_state) no_host
                       (shim_code "/proj/src/overrides/Button.tsx")
                       [(Info, "Load override: Button -> Button.tsx")])
    as (t & Ht & _).
  - vm_compute. reflexivity.
  - exists t. exact Ht.
Defined.

(** X13: the two hooks choose the same override file: for a specifier
    that is no virtual module id (it does not start with U+0000), an
    importer that is not empty and no virtual module id, and a module
    id, where [findImporterTarget] assigns the importer and the id to
    the same target and the key of the specifier is the key of the id,
    neither empty nor [index]: when the lookup, namespaced mapping of the
    target first, flat mapping otherwise, gives a path that is not empty
    and exists on disk, [resolveId] returns that path and [load] returns
    the shim that re-exports from it. *)
Theorem hooks_agree_on_override (fs : FileSystem) (opts : ResolvedOptions)
        (ps : list Patch.ResolvedPatch)
        (flat : OverrideMap) (namespaced : NamespacedOverrideMap)
        (host : string -> string -> option string)
        (source importer id : string) (t : ResolvedTarget) (p : string) :
  startsWith source NUL = false ->
  importer_rejected (Some importer) = false ->
  findImporterTarget importer opts = Some t ->
  findImporterTarget id opts = Some t ->
  stripExtension (Path.basename source) = stripExtension (Path.basename id) ->
  stripExtension (Path.basename id) <> "" ->
  stripExtension (Path.basename id) <> "index" ->
  match ns_lookup namespaced (package t) (stripExtension (Path.basename id)) with
  | Some x => Some x
  | None => JsMap.get flat (stripExtension (Path.basename id))
  end = Some p ->
  p <> "" ->
  existsSync fs p = true ->
  fst (Async.run flat namespaced host fs
                 (resolveId opts source (Some importer))) = Some p
  /\ fst (Async.run flat namespaced host fs (load fs opts ps id))
     = Some (shim_code p).
Proof.
  intros Hsrc Himp Hown Hid Hkey Hne Hidx Hlook Hp Hex. split.
  - unfold resolveId. rewrite Hsrc, Himp, Hown. cbn [orb].
    unfold override_step. rewrite Hkey, (ResolutionFacts.truthy_ne _ Hne).
    pose proof Hidx as Hidx'. apply String.eqb_neq in Hidx'. rewrite Hidx'.
    cbn [negb andb Async.run].
    destruct (ns_lookup namespaced (package t) _) as [x|].
    + inversion Hlook. reflexivity.
    + cbn [Async.run]. rewrite Hlook. reflexivity.
  - unfold load. rewrite Hid, (ResolutionFacts.truthy_ne _ Hne).
    pose proof Hidx as Hidx'. apply String.eqb_neq in Hidx'. rewrite Hidx'.
    cbn [negb orb Async.run].
    assert (Hserve : fst (load_serve fs ps id
                                     (stripExtension (Path.basename id)) p)
                     = Some (shim_code p)).
    { unfold load_serve. rewrite (ResolutionFacts.truthy_ne _ Hp), Hex.
      reflexivity. }
    destruct (ns_lookup namespaced (package t) _) as [x|].
    + inversion Hlook. subst x. exact Hserve.
    + cbn [Async.run]. rewrite Hlook. exact Hserve.
Qed.

Lemma hooks_agree_on_override_witness :
  fst (Async.run (flatOverrides conflict_state)
                 (namespacedOverrides conflict_state) no_host Cases.button_fs
                 (resolveId two_targets "./Button" (Some ui_importer)))
  = Some "/proj/src/overrides/Button.tsx"
  /\ fst (Async.run (flatOverrides conflict_state)
                    (namespacedOverrides conflict_state) no_host
                    Cases.button_fs
                    (load Cases.button_fs two_targets []
                          "/proj/node_modules/@acme/ui/src/Button.tsx"))
     = Some (shim_code "/proj/src/overrides/Button.tsx").
Proof.
  apply (hooks_agree_on_override
           Cases.button_fs two_targets [] (flatOverrides conflict_state)
           (namespacedOverrides conflict_state) no_host "./Button"
           ui_importer "/proj/node_modules/@acme/ui/src/Button.tsx" ui
           "/proj/src/overrides/Button.tsx").
  - reflexivity.
  - reflexivity.
  - vm_compute. reflexivity.
  - vm_compute. reflexivity.
  - vm_compute. reflexivity.
  - vm_compute. discriminate.
  - vm_compute. discriminate.
  - vm_compute. reflexivity.
  - discriminate.
  - vm_compute. reflexivity.
Defined.

(** *** The path inside the shim *)

Lemma escape_dquote_normalized (p : string) :
  JsLiteral.has_bare_dquote (escape_dquote (normalizePath p)) = false
  /\ JsLiteral.read_literal (escape_dquote (normalizePath p))
     = normalizePath p.
Proof.
  induction p as [|c p [IH1 IH2]]; [now split |].
  cbn [normalizePath].
  destruct (Ascii.eqb c backslash) eqn:Eb.
  - (* a backslash has become a slash *)
    cbn [escape_dquote].
    replace (Ascii.eqb slash (ascii_of_nat 34)) with false by reflexivity.
    cbn [JsLiteral.has_bare_dquote JsLiteral.read_literal].
    replace (Ascii.eqb slash backslash) with false by reflexivity.
    replace (Ascii.eqb slash (ascii_of_nat 34)) with false by reflexivity.
    now rewrite IH1, IH2.
  - cbn [escape_dquote].
    destruct (Ascii.eqb c (ascii_of_nat 34)) eqn:Eq.
    + cbn [JsLiteral.has_bare_dquote JsLiteral.read_literal].
      rewrite Ascii.eqb_refl. now rewrite IH1, IH2.
    + cbn [JsLiteral.has_bare_dquote JsLiteral.read_literal].
      rewrite Eb, Eq. now rewrite IH1, IH2.
Qed.

(** the path that [load] writes between the double quotes of the
    shim holds no double quote that would end the literal early, and
    read back as a literal it is the override path with its backslashes
    turned into slashes. *)
Theorem shim_path_literal (overridePath : string) :
  shim_code overridePath
  = "export { default } from " ++ dquote
    ++ escape_dquote (normalizePath overridePath) ++ dquote ++ newline
    ++ "export * from " ++ dquote
    ++ escape_dquote (normalizePath overridePath) ++ dquote
  /\ JsLiteral.has_bare_dquote (escape_dquote (normalizePath overridePath))
     = false
  /\ JsLiteral.read_literal (escape_dquote (normalizePath overridePath))
     = normalizePath overridePath.
Proof.
  split; [reflexivity | apply escape_dquote_normalized].
Qed.

End HookInvariants.

(** ** [plugin.ts]: start-up *)

Module StartupInvariants.
Import Str Utils Types Fs Scanner Resolver Plugin Watcher Sample.
Import JsMapFacts ListFacts.

Lemma has_cons {V : Type} (k : string) (v : V) (m : JsMap.t V) (key : string) :
  JsMap.has ((k, v) :: m) key = String.eqb k key || JsMap.has m key.
Proof.
  unfold JsMap.has. cbn [JsMap.get]. now destruct (String.eqb k key).
Qed.

Lemma has_keys {V : Type} (m : JsMap.t V) (key : string) :
  JsMap.has m key = true <-> In key (JsMap.keys m).
Proof.
  induction m as [|[k v] m IH]; [split; [discriminate | intros []] |].
  rewrite has_cons. cbn [JsMap.keys map fst]. rewrite orb_true_iff, IH.
  rewrite String.eqb_eq. reflexivity.
Qed.

Lemma filter_flat_fold_has (targetFiles : JsMap.t TargetFile) (key : string)
      (l : OverrideMap) :
  forall acc : OverrideMap,
    JsMap.has
      (fold_left
         (fun (acc : OverrideMap) (kv : string * string) =>
            if JsMap.has targetFiles (fst kv)
            then JsMap.set acc (fst kv) (snd kv) else acc)
         l acc) key
    = JsMap.has acc key || (JsMap.has targetFiles key && JsMap.has l key).
Proof.
  induction l as [|[k v] l IH]; intro acc; cbn [fold_left fst snd].
  - now rewrite andb_false_r, orb_false_r.
  - rewrite IH, has_cons. destruct (String.eqb k key) eqn:E.
    + apply String.eqb_eq in E. subst k.
      destruct (JsMap.has targetFiles key) eqn:Ht.
      * rewrite ScannerInvariants.has_set, String.eqb_refl. cbn [orb andb].
        now rewrite orb_true_r.
      * reflexivity.
    + destruct (JsMap.has targetFiles k); [| reflexivity].
      rewrite ScannerInvariants.has_set, E. reflexivity.
Qed.

(** The filter keeps exactly the keys that the target file index has. *)
Lemma filter_flat_has (targetFiles : JsMap.t TargetFile) (flat : OverrideMap)
      (key : string) :
  JsMap.has (filter_flat targetFiles flat) key
  = JsMap.has targetFiles key && JsMap.has flat key.
Proof. unfold filter_flat. now rewrite filter_flat_fold_has. Qed.

Lemma filter_flat_startup_warns (targetFiles : JsMap.t TargetFile)
      (key : string) (l : OverrideMap) :
  forall acc : OverrideMap * list LogEntry,
    JsMap.has l key = true ->
    JsMap.has targetFiles key = false ->
    In (Warn, "Override " ++ dquote ++ key ++ dquote
              ++ " does not match any file in target packages — skipped")
       (snd (fold_left
               (fun (acc : OverrideMap * list LogEntry)
                    (kv : string * string) =>
                  if JsMap.has targetFiles (fst kv) then
                    (JsMap.set (fst acc) (fst kv) (snd kv), snd acc)
                  else
                    (fst acc,
                     logged (snd acc) Warn
                       ("Override " ++ dquote ++ fst kv ++ dquote
                        ++ " does not match any file in target packages — skipped")))
               l acc)).
Proof.
  induction l as [|[k v] l IH]; intros acc Hl Ht; [discriminate Hl |].
  cbn [fold_left fst snd]. rewrite has_cons in Hl.
  destruct (String.eqb k key) eqn:E.
  - apply String.eqb_eq in E. subst k. rewrite Ht.
    apply (fold_left_invariant
             (fun a : OverrideMap * list LogEntry =>
                In (Warn, "Override " ++ dquote ++ key ++ dquote
                          ++ " does not match any file in target packages — skipped")
                   (snd a))).
    + intros a kv Ha. destruct (JsMap.has targetFiles (fst kv)); cbn [snd].
      * exact Ha.
      * unfold logged. apply in_or_app. now left.
    + cbn [snd]. unfold logged. apply in_or_app. right. now left.
  - apply IH; assumption.
Qed.

(** The parts of a start-up that activates the plugin. *)
Lemma unlock_active_parts (fs : FileSystem) (opts : ResolvedOptions)
      (st : ResolverState) (logs : list LogEntry) :
  unlock fs opts = Active st logs ->
  exists logs3,
    st = {| flatOverrides :=
              fst (filter_flat_startup (fst (scanAllTargets fs opts))
                                       (flat (scanOverrides fs opts)));
            namespacedOverrides := namespaced (scanOverrides fs opts);
            targetFiles := fst (scanAllTargets fs opts) |}
    /\ logs = (snd (scanAllTargets fs opts)
               ++ scan_logs (scanOverrides fs opts)
               ++ snd (filter_flat_startup (fst (scanAllTargets fs opts))
                                           (flat (scanOverrides fs opts)))
               ++ logs3
               ++ summary_logs (flatOverrides st) (namespacedOverrides st)
               ++ patch_logs (patches opts))%list
    /\ (if Nat.ltb 1 (List.length (targets opts))
           && Nat.ltb 0 (JsMap.size (flatOverrides st))
        then detectConflicts fs (flatOverrides st) opts
        else inr []) = inr logs3.
Proof.
  unfold unlock. destruct (targets opts) as [|t0 ts] eqn:Hts; [discriminate |].
  destruct (scanAllTargets fs opts) as [tf logs1]. cbn [fst snd].
  destruct (filter_flat_startup tf (flat (scanOverrides fs opts)))
    as [fileOverrides logs2]. cbn [fst snd].
  destruct (if Nat.ltb 1 (List.length (t0 :: ts))
               && Nat.ltb 0 (JsMap.size fileOverrides)
            then detectConflicts fs fileOverrides opts else inr [])
    as [err|logs3] eqn:Hconf; [discriminate |].
  intro H. inversion H. subst st logs. clear H. exists logs3.
  cbn [flatOverrides namespacedOverrides].
  repeat split; [| exact Hconf].
  now rewrite <- !app_assoc.
Qed.

(** X14: at a start-up that activates the plugin, no flat override is
    dropped without notice: every key of the flat mapping of the scan is
    either an active flat override or the subject of a warning that it
    matches no file in the target packages. *)
Theorem unlock_warns_skipped (fs : FileSystem) (opts : ResolvedOptions)
        (st : ResolverState) (logs : list LogEntry) (key : string) :
  unlock fs opts = Active st logs ->
  JsMap.has (flat (scanOverrides fs opts)) key = true ->
  (JsMap.has (flatOverrides st) key = true
   /\ JsMap.has (targetFiles st) key = true)
  \/ (JsMap.has (flatOverrides st) key = false
      /\ In (Warn, "Override " ++ dquote ++ key ++ dquote
                   ++ " does not match any file in target packages — skipped")
            logs).
Proof.
  intros Hact Hkey.
  destruct (unlock_active_parts fs opts st logs Hact) as (logs3 & Hst & Hlogs & _).
  assert (Hflat : flatOverrides st
                  = filter_flat (targetFiles st) (flat (scanOverrides fs opts))).
  { rewrite Hst. cbn [flatOverrides targetFiles].
    apply IndexFacts.filter_flat_startup_fst. }
  assert (Htf : targetFiles st = fst (scanAllTargets fs opts))
    by (rewrite Hst; reflexivity).
  rewrite Hflat, filter_flat_has, Hkey, andb_true_r.
  destruct (JsMap.has (targetFiles st) key) eqn:Ht.
  - left. now split.
  - right. split; [reflexivity |].
    rewrite Hlogs. apply in_or_app. right. apply in_or_app. right.
    apply in_or_app. left. unfold filter_flat_startup.
    apply filter_flat_startup_warns; [exact Hkey | now rewrite <- Htf].
Qed.

Lemma unlock_warns_skipped_witness :
  (JsMap.has (flatOverrides Cases.ghost_state) "Ghost" = true
   /\ JsMap.has (targetFiles Cases.ghost_state) "Ghost" = true)
  \/ (JsMap.has (flatOverrides Cases.ghost_state) "Ghost" = false
      /\ In (Warn, "Override " ++ dquote ++ "Ghost" ++ dquote
                   ++ " does not match any file in target packages — skipped")
            Cases.ghost_logs).
Proof.
  apply (unlock_warns_skipped Cases.ghost_fs Cases.ghost_opts
                              Cases.ghost_state Cases.ghost_logs "Ghost").
  - vm_compute. reflexivity.
  - vm_compute. reflexivity.
Defined.

(** *** [detectConflicts] *)

Lemma filter_perTargetMaps {A B : Type} (f : A -> B) (p : B -> bool)
      (l : list A) :
  filter (fun tm : A * B => p (snd tm)) (map (fun t => (t, f t)) l)
  = map (fun t => (t, f t)) (filter (fun t => p (f t)) l).
Proof.
  induction l as [|x l IH]; [reflexivity |].
  cbn [map filter snd]. destruct (p (f x)); cbn [map]; now rewrite IH.
Qed.

Section Loop.
Variable fs : FileSystem.
Variable opts : ResolvedOptions.

Lemma perTargetMaps_length (key : string) :
  List.length
    (filter (fun tm : ResolvedTarget * OverrideMap => JsMap.has (snd tm) key)
            (map (fun t => (t, scanTarget fs t opts)) (targets opts)))
  = List.length (Conflicts.matchingTargets fs opts key).
Proof.
  rewrite (filter_perTargetMaps (fun t => scanTarget fs t opts)
                                (fun m => JsMap.has m key)).
  apply length_map.
Qed.

Lemma perTargetMaps_names (key : string) :
  map (fun tm : ResolvedTarget * OverrideMap => package (fst tm))
      (filter (fun tm : ResolvedTarget * OverrideMap => JsMap.has (snd tm) key)
              (map (fun t => (t, scanTarget fs t opts)) (targets opts)))
  = map package (Conflicts.matchingTargets fs opts key).
Proof.
  rewrite (filter_perTargetMaps (fun t => scanTarget fs t opts)
                                (fun m => JsMap.has m key)).
  rewrite map_map. reflexivity.
Qed.

Lemma detectConflicts_loop_error (keys : list string) (logs : list LogEntry) :
  detectConflicts_loop (map (fun t => (t, scanTarget fs t opts)) (targets opts))
                       OnError keys logs
  = match find (Conflicts.conflicting fs opts) keys with
    | Some key =>
        inl ("[" ++ PLUGIN_NAME ++ "] Override " ++ dquote ++ key
             ++ dquote ++ " matches files in multiple targets: "
             ++ join_with ", "
                  (map package (Conflicts.matchingTargets fs opts key))
             ++ ". "
             ++ "Use namespaced overrides (overrides/@scope/pkg/"
             ++ key ++ ".tsx) or set onConflict: " ++ dquote ++ "warn"
             ++ dquote ++ ".")
    | None => inr logs
    end.
Proof.
  induction keys as [|key keys IH]; [reflexivity |].
  cbn [detectConflicts_loop find]. unfold Conflicts.conflicting at 1.
  rewrite perTargetMaps_length, perTargetMaps_names.
  destruct (Nat.ltb 1 _); [reflexivity | exact IH].
Qed.

Lemma detectConflicts_loop_warn (keys : list string) :
  forall logs : list LogEntry,
    detectConflicts_loop
      (map (fun t => (t, scanTarget fs t opts)) (targets opts))
      OnWarn keys logs
    = inr (logs
           ++ map (fun key =>
                     (Warn,
                      ("Override " ++ dquote ++ key ++ dquote
                       ++ " matches files in multiple targets: "
                       ++ join_with ", "
                            (map package
                                 (Conflicts.matchingTargets fs opts key))
                       ++ ". Using first match.")%string))
                  (filter (Conflicts.conflicting fs opts) keys))%list.
Proof.
  induction keys as [|key keys IH]; intro logs.
  - cbn [detectConflicts_loop filter map]. now rewrite app_nil_r.
  - cbn [detectConflicts_loop filter]. unfold Conflicts.conflicting at 1.
    rewrite perTargetMaps_length, perTargetMaps_names.
    destruct (Nat.ltb 1 _).
    + rewrite IH. unfold logged. cbn [map]. now rewrite <- app_assoc.
    + apply IH.
Qed.

End Loop.

(** X15: the outcome of the conflict check.  Under [error] it throws
    for the first flat key, in the order of the mapping, that more than
    one target's index has, naming that key and the packages of those
    targets in configuration order, and returns silently when there is
    none; under [warn] it never throws and logs one warning for each such
    key, in order; under [first] it never throws and logs nothing. *)
Theorem detectConflicts_outcome (fs : FileSystem) (flat : OverrideMap)
        (opts : ResolvedOptions) :
  detectConflicts fs flat opts
  = match onConflict opts with
    | OnError =>
        match find (Conflicts.conflicting fs opts) (JsMap.keys flat) with
        | Some key =>
            inl ("[" ++ PLUGIN_NAME ++ "] Override " ++ dquote ++ key
                 ++ dquote ++ " matches files in multiple targets: "
                 ++ join_with ", "
                      (map package (Conflicts.matchingTargets fs opts key))
                 ++ ". "
                 ++ "Use namespaced overrides (overrides/@scope/pkg/"
                 ++ key ++ ".tsx) or set onConflict: " ++ dquote ++ "warn"
                 ++ dquote ++ ".")
        | None => inr []
        end
    | OnWarn =>
        inr (map (fun key =>
                    (Warn,
                     "Override " ++ dquote ++ key ++ dquote
                     ++ " matches files in multiple targets: "
                     ++ join_with ", "
                          (map package (Conflicts.matchingTargets fs opts key))
                     ++ ". Using first match."))
                 (filter (Conflicts.conflicting fs opts) (JsMap.keys flat)))
    | OnFirst => inr []
    end.
Proof.
  unfold detectConflicts. destruct (onConflict opts).
  - apply detectConflicts_loop_error.
  - now rewrite detectConflicts_loop_warn.
  - apply ConflictFacts.detectConflicts_first_silent.
Qed.

(** *** [unlock] and the conflict policy *)

Lemma matchingTargets_nonempty (fs : FileSystem) (opts : ResolvedOptions)
      (key : string) :
  JsMap.has (fst (scanAllTargets fs opts)) key = true ->
  1 <= List.length (Conflicts.matchingTargets fs opts key).
Proof.
  rewrite ScannerInvariants.scanAllTargets_has, existsb_exists.
  intros (t & Hin & Ht). unfold Conflicts.matchingTargets.
  assert (H : In t (filter (fun t => JsMap.has (scanTarget fs t opts) key)
                           (targets opts)))
    by (apply filter_In; now split).
  destruct (filter _ _); [destruct H | simpl; lia].
Qed.

Lemma has_size {V : Type} (m : JsMap.t V) (key : string) :
  JsMap.has m key = true -> 0 < JsMap.size m.
Proof.
  destruct m as [|kv m]; [discriminate |]. intros _. unfold JsMap.size.
  simpl. lia.
Qed.

(** X16: when the plugin activates under the policy [error], every
    active flat override matches the source files of exactly one
    configured target. *)
Theorem unlock_error_policy_unambiguous (fs : FileSystem)
        (opts : ResolvedOptions) (st : ResolverState)
        (logs : list LogEntry) (key : string) :
  onConflict opts = OnError ->
  unlock fs opts = Active st logs ->
  JsMap.has (flatOverrides st) key = true ->
  List.length (Conflicts.matchingTargets fs opts key) = 1.
Proof.
  intros Hpolicy Hact Hkey.
  destruct (unlock_active_parts fs opts st logs Hact)
    as (logs3 & Hst & _ & Hconf).
  assert (Hflat : flatOverrides st
                  = filter_flat (fst (scanAllTargets fs opts))
                                (flat (scanOverrides fs opts))).
  { rewrite Hst. cbn [flatOverrides].
    apply IndexFacts.filter_flat_startup_fst. }
  assert (Hlow : 1 <= List.length (Conflicts.matchingTargets fs opts key)).
  { apply matchingTargets_nonempty.
    rewrite Hflat, filter_flat_has in Hkey.
    now apply andb_prop in Hkey. }
  assert (Hhigh : List.length (Conflicts.matchingTargets fs opts key) <= 1);
    [| lia].
  destruct (Nat.ltb 1 (List.length (targets opts))) eqn:Hmany.
  - rewrite (proj2 (Nat.ltb_lt _ _) (has_size _ _ Hkey)) in Hconf.
    cbn [andb] in Hconf. unfold detectConflicts in Hconf.
    rewrite Hpolicy, detectConflicts_loop_error in Hconf.
    destruct (find (Conflicts.conflicting fs opts)
                   (JsMap.keys (flatOverrides st))) eqn:Hfind;
      [discriminate Hconf |].
    pose proof (find_none _ _ Hfind key (proj1 (has_keys _ _) Hkey)) as Hno.
    unfold Conflicts.conflicting in Hno. apply Nat.ltb_ge in Hno. exact Hno.
  - apply Nat.ltb_ge in Hmany. unfold Conflicts.matchingTargets.
    pose proof (filter_length_le
                  (fun t => JsMap.has (scanTarget fs t opts) key)
                  (targets opts)).
    lia.
Qed.

Lemma unlock_error_policy_unambiguous_witness :
  List.length (targets two_targets) = 2
  /\ List.length (Conflicts.matchingTargets Projects.card_fs two_targets
                                            "Card") = 1.
Proof.
  split; [reflexivity |].
  apply (unlock_error_policy_unambiguous
           Projects.card_fs two_targets Projects.card_state
           Projects.card_logs "Card").
  - reflexivity.
  - vm_compute. reflexivity.
  - vm_compute. reflexivity.
Defined.

(** X17: start-up aborts only under the policy [error], with more than
    one target configured, and for a flat override that the scan found
    and that more than one target's index has; the error names that
    key. *)
Theorem unlock_aborts_on_conflict (fs : FileSystem) (opts : ResolvedOptions)
        (err : string) (logs : list LogEntry) :
  unlock fs opts = Aborted err logs ->
  onConflict opts = OnError
  /\ 1 < List.length (targets opts)
  /\ exists key,
      JsMap.has (flat (scanOverrides fs opts)) key = true
      /\ 1 < List.length (Conflicts.matchingTargets fs opts key)
      /\ err = "[" ++ PLUGIN_NAME ++ "] Override " ++ dquote ++ key
               ++ dquote ++ " matches files in multiple targets: "
               ++ join_with ", "
                    (map package (Conflicts.matchingTargets fs opts key))
               ++ ". "
               ++ "Use namespaced overrides (overrides/@scope/pkg/"
               ++ key ++ ".tsx) or set onConflict: " ++ dquote ++ "warn"
               ++ dquote ++ ".".
Proof.
  unfold unlock. destruct (targets opts) as [|t0 ts] eqn:Hts; [discriminate |].
  destruct (scanAllTargets fs opts) as [tf logs1].
  pose proof (IndexFacts.filter_flat_startup_fst
                tf (flat (scanOverrides fs opts))) as Hf.
  destruct (filter_flat_startup tf (flat (scanOverrides fs opts)))
    as [fileOverrides logs2]. cbn [fst] in Hf.
  destruct (Nat.ltb 1 (List.length (t0 :: ts))) eqn:Hmany;
    cbn [andb]; [| discriminate].
  destruct (Nat.ltb 0 (JsMap.size fileOverrides)); [| discriminate].
  unfold detectConflicts. rewrite <- Hts.
  destruct (onConflict opts) eqn:Hpolicy.
  - rewrite detectConflicts_loop_error.
    destruct (find (Conflicts.conflicting fs opts) (JsMap.keys fileOverrides))
      as [key|] eqn:Hfind; [| discriminate].
    intro H. inversion H. subst. clear H.
    apply find_some in Hfind. destruct Hfind as [Hin Hc].
    split; [reflexivity |].
    split; [rewrite Hts; now apply Nat.ltb_lt |].
    exists key. split; [| split; [| reflexivity]].
    + apply has_keys in Hin. rewrite filter_flat_has in Hin.
      now apply andb_prop in Hin.
    + unfold Conflicts.conflicting in Hc. now apply Nat.ltb_lt.
  - rewrite detectConflicts_loop_warn. discriminate.
  - rewrite ConflictFacts.detectConflicts_first_silent. discriminate.
Qed.

Lemma unlock_aborts_on_conflict_witness :
  onConflict (conflict_opts OnError) = OnError
  /\ 1 < List.length (targets (conflict_opts OnError)).
Proof.
  destruct (unlock_aborts_on_conflict
              conflict_fs (conflict_opts OnError)
              ("[vite-plugin-unlock] " ++ conflict_names ++ ". "
               ++ "Use namespaced overrides (overrides/@scope/pkg/Button.tsx) or set onConflict: "
               ++ dquote ++ "warn" ++ dquote ++ ".")
              [(Info, "Scanned 1 files in @acme/dashboard (/proj/node_modules/@acme/dashboard/src)");
               (Info, "Scanned 1 files in @acme/ui (/proj/node_modules/@acme/ui/src)");
               (Info, "Override: Button -> /proj/src/overrides/Button.tsx")])
    as (H1 & H2 & _).
  - vm_compute. reflexivity.
  - split; [exact H1 | exact H2].
Defined.

End StartupInvariants.

(** ** [watcher.ts]: the walk over the importers *)

Module WalkInvariants.
Import Str Utils Types Fs Scanner Resolver Graph Plugin Watcher Sample.
Import GraphFacts.

Lemma NoDup_snoc {A : Type} (l : list A) (x : A) :
  NoDup l -> ~ In x l -> NoDup (l ++ [x]).
Proof.
  intros Hl Hx. induction Hl as [|y l Hy Hl IH]; cbn [app].
  - constructor; [intros [] | constructor].
  - constructor.
    + intro H. apply in_app_or in H. destruct H as [H | [H | []]].
      * contradiction.
      * subst y. apply Hx. now left.
    + apply IH. intro H. apply Hx. now right.
Qed.

(** The walk sees a module once, and only modules that import, directly
    or not, one of the modules it started from. *)
Lemma bfs_ancestors_sound (g : ModuleGraph) (start : list nat) (fuel : nat) :
  forall seen queue,
    NoDup seen ->
    (forall x, In x seen -> ancestor g start x) ->
    (forall x, In x queue -> ancestor g start x) ->
    NoDup (bfs_ancestors fuel g seen queue)
    /\ forall x, In x (bfs_ancestors fuel g seen queue) -> ancestor g start x.
Proof.
  induction fuel as [|fuel IH]; intros seen queue Hnd Hseen Hqueue;
    cbn [bfs_ancestors]; [now split |].
  destruct queue as [|m q]; [now split |].
  destruct (mem_nat m seen) eqn:Hm.
  - apply IH; [exact Hnd | exact Hseen |].
    intros x Hx. apply Hqueue. now right.
  - apply IH.
    + apply NoDup_snoc; [exact Hnd |].
      intro H. apply mem_nat_In in H. congruence.
    + intros x Hx. apply in_app_or in Hx. destruct Hx as [Hx | [<- | []]].
      * now apply Hseen.
      * apply Hqueue. now left.
    + intros x Hx. apply in_app_or in Hx. destruct Hx as [Hx | Hx].
      * apply Hqueue. now right.
      * apply (ancestor_step g start m x); [| exact Hx].
        apply Hqueue. now left.
Qed.

Lemma bfs_ancestors_complete (g : ModuleGraph) (queue : list nat) (m : nat) :
  ancestor g queue m ->
  In m (bfs_ancestors (bfs_fuel g queue) g [] queue).
Proof.
  destruct (bfs_ancestors_closed g (bfs_fuel g queue) [] queue)
    as [Hsub Hclosed].
  - unfold bfs_fuel. rewrite unseen_weight_nil. lia.
  - intros x p [].
  - induction 1 as [r Hr | x p Hx IH Hp].
    + apply Hsub. now right.
    + now apply (Hclosed x p).
Qed.

(** the walk over the importers, started on a queue of modules,
    ends with exactly the modules of the queue and the modules that
    import one of them, directly or through other modules, each of them
    once, also when the import graph has cycles. *)
Theorem bfs_ancestors_exact (g : ModuleGraph) (queue : list nat) :
  NoDup (bfs_ancestors (bfs_fuel g queue) g [] queue)
  /\ forall m,
      In m (bfs_ancestors (bfs_fuel g queue) g [] queue)
      <-> ancestor g queue m.
Proof.
  destruct (bfs_ancestors_sound g queue (bfs_fuel g queue) [] queue)
    as [Hnd Hsound].
  - constructor.
  - intros x [].
  - intros x Hx. now apply ancestor_root.
  - split; [exact Hnd |]. intro m. split.
    + apply Hsound.
    + apply bfs_ancestors_complete.
Qed.


(** The ancestors of [roots] are [roots] and the ancestors of their
    importers. *)
Lemma ancestor_roots_split (g : ModuleGraph) (roots : list nat) (m : nat) :
  ancestor g roots m
  <-> In m roots \/ ancestor g (flat_map (importers_of g) roots) m.
Proof.
  split.
  - induction 1 as [r Hr | x p _ IH Hp]; [now left | right].
    destruct IH as [Hroot | Hanc].
    + apply ancestor_root. apply in_flat_map. now exists x.
    + now apply (ancestor_step _ _ x p).
  - intros [Hroot | Hanc]; [now apply ancestor_root |].
    induction Hanc as [x Hx | x p _ IH Hp].
    + apply in_flat_map in Hx. destruct Hx as (r & Hr & Hx).
      apply (ancestor_step g roots r x); [now apply ancestor_root | exact Hx].
    + now apply (ancestor_step g roots x p).
Qed.

Lemma walk_from_roots (g : ModuleGraph) (roots : list nat) (m : nat) :
  In m roots
  \/ In m (bfs_ancestors (bfs_fuel g (flat_map (importers_of g) roots)) g []
                         (flat_map (importers_of g) roots))
  <-> ancestor g roots m.
Proof.
  rewrite ancestor_roots_split.
  destruct (bfs_ancestors_sound
              g (flat_map (importers_of g) roots)
              (bfs_fuel g (flat_map (importers_of g) roots)) []
              (flat_map (importers_of g) roots)) as [_ Hsound].
  - constructor.
  - intros x [].
  - intros x Hx. now apply ancestor_root.
  - split; (intros [H | H]; [now left | right]).
    + now apply Hsound.
    + now apply bfs_ancestors_complete.
Qed.

(** X18: [invalidateForKey] asks the host to invalidate exactly the
    modules it has collected as roots and the modules that import one of
    them, directly or not. *)
Theorem invalidateForKey_exact (key : string) (isNowOverride : bool)
        (oldOverrides : OverrideMap) (st : ResolverState) (g : ModuleGraph)
        (m : nat) :
  In m (invalidated (invalidateForKey key isNowOverride oldOverrides st g))
  <-> ancestor g (invalidation_roots key isNowOverride oldOverrides st g) m.
Proof.
  unfold invalidateForKey.
  destruct (invalidation_roots key isNowOverride oldOverrides st g)
    as [|r roots] eqn:Hroots.
  - cbn. split; [intros [] |].
    intro H. exfalso.
    induction H as [x Hx | x p _ IH _]; [destruct Hx | exact IH].
  - cbn [List.length Nat.ltb Nat.leb].
    rewrite !WatcherFacts.invalidated_app, !WatcherFacts.invalidated_map.
    cbn [invalidated]. rewrite app_nil_r, in_app_iff.
    apply walk_from_roots.
Qed.




End WalkInvariants.

(** ** [watcher.ts]: what the listeners keep *)

Module WatcherInvariants.
Import Str Utils Types Fs Scanner Config Resolver Graph Plugin Watcher Sample.
Import JsMapFacts ListFacts.

Lemma handleStructuralChange_state (opts : ResolvedOptions) (now : nat)
      (filePath : string) (w : Watcher) :
  state (handleStructuralChange opts now filePath w) = state w
  /\ bound (handleStructuralChange opts now filePath w) = bound w
  /\ trace (handleStructuralChange opts now filePath w) = trace w.
Proof.
  unfold handleStructuralChange.
  destruct (negb _); [now repeat split |].
  destruct (negb _); now repeat split.
Qed.

Lemma handleChange_state (opts : ResolvedOptions) (g : ModuleGraph)
      (filePath : string) (w : Watcher) :
  state (handleChange opts g filePath w) = state w
  /\ pending (handleChange opts g filePath w) = pending w.
Proof.
  unfold handleChange.
  repeat match goal with
         | |- context [if ?c then _ else _] => destruct c
         | |- context [match ?x with _ => _ end] => destruct x
         end; now split.
Qed.

Lemma handlePatchConfigStructural_state (fs : FileSystem)
      (opts : ResolvedOptions) (g : ModuleGraph) (filePath : string)
      (w : Watcher) :
  state (handlePatchConfigStructural fs opts g filePath w) = state w
  /\ pending (handlePatchConfigStructural fs opts g filePath w) = pending w.
Proof.
  unfold handlePatchConfigStructural.
  destruct (negb _); [now split |].
  destruct (negb _); [now split |].
  destruct (rebind_patches fs opts g _ (bound w)). now split.
Qed.

(** No listener writes to the resolver state. *)
Lemma dispatch_state (opts : ResolvedOptions) (world : World) (now : nat)
      (ev : FsEvent) (w : Watcher) :
  state (dispatch opts world now ev w) = state w.
Proof.
  unfold dispatch.
  destruct ev as [p | p | p];
    destruct (Nat.ltb 0 (List.length (patches opts)));
    try (rewrite (proj1 (handlePatchConfigStructural_state _ _ _ _ _)));
    try apply handleStructuralChange_state;
    apply handleChange_state.
Qed.

(** What every state of the watcher keeps: the target file index it was
    given, and flat overrides only for keys of that index. *)
Lemma advance_keeps_index (opts : ResolvedOptions) (world : World)
      (now : nat) (w : Watcher) (tf : JsMap.t TargetFile) :
  targetFiles (state w) = tf
  /\ (forall key, JsMap.has (flatOverrides (state w)) key = true ->
                  JsMap.has tf key = true) ->
  targetFiles (state (advance opts world now w)) = tf
  /\ (forall key,
        JsMap.has (flatOverrides (state (advance opts world now w))) key = true ->
        JsMap.has tf key = true).
Proof.
  intros [Htf Hflat]. unfold advance.
  destruct (pending w) as [due|]; [| now split].
  destruct (Nat.leb due now); [| now split].
  unfold fire.
  pose proof (IndexFacts.rebuild_state
                (fs_at world due) opts (graph_at world due) (state w)) as Hst.
  destruct (rebuild (fs_at world due) opts (graph_at world due) (state w))
    as [state' effects].
  cbn [fst] in Hst. cbn [state]. rewrite Hst.
  cbn [object_assign assign_namespacedOverrides assign_flatOverrides
                     targetFiles flatOverrides].
  split; [exact Htf |].
  intros key Hkey. rewrite StartupInvariants.filter_flat_has in Hkey.
  apply andb_prop in Hkey. now rewrite <- Htf.
Qed.

Lemma run_keeps_index (opts : ResolvedOptions) (world : World)
      (tf : JsMap.t TargetFile) (events : list (nat * FsEvent)) :
  forall w,
    targetFiles (state w) = tf
    /\ (forall key, JsMap.has (flatOverrides (state w)) key = true ->
                    JsMap.has tf key = true) ->
    targetFiles (state (run opts world events w)) = tf
    /\ (forall key,
          JsMap.has (flatOverrides (state (run opts world events w))) key
          = true ->
          JsMap.has tf key = true).
Proof.
  induction events as [|[now ev] events IH]; intros w Hw; [exact Hw |].
  cbn [run]. apply IH. rewrite dispatch_state.
  now apply advance_keeps_index.
Qed.

(** X20: the watcher never rebuilds the target file index: through any
    sequence of file events and timer firings after a start-up that
    activated the plugin, the resolver state holds the index built at
    start-up, and a flat override only for a key of that index. *)
Theorem watcher_keeps_target_index (fs : FileSystem) (opts : ResolvedOptions)
        (st : ResolverState) (logs : list LogEntry) (world : World)
        (events : list (nat * FsEvent)) (later : nat) (w : Watcher) :
  unlock fs opts = Active st logs ->
  state w = st ->
  targetFiles (state (advance opts world later (run opts world events w)))
  = fst (scanAllTargets fs opts)
  /\ forall key,
      JsMap.has (flatOverrides
                   (state (advance opts world later
                                   (run opts world events w)))) key = true ->
      JsMap.has (fst (scanAllTargets fs opts)) key = true.
Proof.
  intros Hact Hw.
  destruct (IndexFacts.unlock_active fs opts st logs Hact)
    as (_ & Htf & Hflat & _).
  apply advance_keeps_index, run_keeps_index. rewrite Hw.
  split; [exact Htf |].
  intros key Hkey. rewrite Hflat, StartupInvariants.filter_flat_has in Hkey.
  apply andb_prop in Hkey. now rewrite <- Htf.
Qed.

Lemma watcher_keeps_target_index_witness :
  targetFiles
    (state (advance two_targets scoped_world 200
                    (run two_targets scoped_world
                         ((100, Add "/proj/src/overrides/@acme/ui/Button.tsx")
                            :: burst_rest)
                         (idle orphan_state))))
  = fst (scanAllTargets orphan_fs two_targets).
Proof.
  apply (watcher_keeps_target_index
           orphan_fs two_targets orphan_state orphan_logs scoped_world
           ((100, Add "/proj/src/overrides/@acme/ui/Button.tsx") :: burst_rest)
           200 (idle orphan_state)).
  - vm_compute. reflexivity.
  - reflexivity.
Defined.

(** X21: a file event for a path that lies under no override directory
    and is not the config file that a patch is bound to changes nothing:
    no timer is armed, nothing is invalidated, no reload is sent and
    nothing is logged. *)
Theorem dispatch_ignores_foreign_files (opts : ResolvedOptions)
        (world : World) (now : nat) (filePath : string) (w : Watcher) :
  isOverrideFile opts filePath = false ->
  bound_config (bound w) filePath = false ->
  dispatch opts world now (Add filePath) w = w
  /\ dispatch opts world now (Unlink filePath) w = w
  /\ dispatch opts world now (Change filePath) w = w.
Proof.
  intros Hout Hcfg.
  assert (Hs : handleStructuralChange opts now filePath w = w).
  { unfold handleStructuralChange. rewrite Hout.
    now destruct (negb (extensionSet_has opts (Path.extname filePath))). }
  assert (Hp : handlePatchConfigStructural
                 (fs_at world now) opts (graph_at world now) filePath w = w).
  { unfold handlePatchConfigStructural. rewrite Hout.
    now destruct (negb (truthy (stripExtension (Path.basename filePath)))). }
  assert (Hc : handleChange opts (graph_at world now) filePath w = w).
  { unfold handleChange. rewrite Hout.
    now destruct (negb (extensionSet_has opts (Path.extname filePath))). }
  assert (He : handlePatchConfigContentEdit (graph_at world now) filePath w = w).
  { unfold handlePatchConfigContentEdit.
    rewrite (WatcherFacts.config_edit_effects_unbound _ _ _ Hcfg).
    apply WatcherFacts.watcher_eta. }
  unfold dispatch. rewrite Hs, Hc, Hp, He.
  destruct (Nat.ltb 0 (List.length (patches opts))); now repeat split.
Qed.

Lemma dispatch_ignores_foreign_files_witness :
  dispatch patched_opts patched_world 100 (Add "/proj/src/App.tsx")
           patched_start = patched_start
  /\ dispatch patched_opts patched_world 100 (Unlink "/proj/src/App.tsx")
              patched_start = patched_start
  /\ dispatch patched_opts patched_world 100 (Change "/proj/src/App.tsx")
              patched_start = patched_start.
Proof.
  apply (dispatch_ignores_foreign_files patched_opts patched_world 100
                                        "/proj/src/App.tsx" patched_start).
  - vm_compute. reflexivity.
  - vm_compute. reflexivity.
Defined.

(** *** Content edits *)

Lemma count_invalidatePatchTarget (patch : Patch.ResolvedPatch)
      (g : ModuleGraph) :
  count is_scan (invalidatePatchTarget patch g) = 0
  /\ count is_reload (invalidatePatchTarget patch g) = 0.
Proof.
  apply WatcherFacts.quiet_count. unfold invalidatePatchTarget.
  repeat apply WatcherFacts.quiet_app.
  - apply WatcherFacts.quiet_flat_map. intro n. now repeat constructor.
  - apply WatcherFacts.quiet_invalidate.
  - destruct (_ && _); now repeat constructor.
Qed.

Lemma count_config_edit_effects (g : ModuleGraph) (normFile : string)
      (ps : list Patch.ResolvedPatch) :
  count is_scan (config_edit_effects g normFile ps) = 0
  /\ count is_reload (config_edit_effects g normFile ps) <= 1.
Proof.
  induction ps as [|patch ps IH]; cbn [config_edit_effects]; [split; cbn; lia |].
  destruct (Patch.configPath patch) as [configPath|]; [| exact IH].
  destruct (truthy configPath && String.eqb (normalizePath configPath) normFile);
    [| exact IH].
  match goal with
  | |- context [(?e :: ?l ++ ?r)%list] =>
      change (e :: l ++ r)%list with ([e] ++ l ++ r)%list
  end.
  rewrite !WatcherFacts.count_app.
  destruct (count_invalidatePatchTarget patch g) as [-> ->].
  cbn. split; lia.
Qed.

Lemma count_handleChange (opts : ResolvedOptions) (g : ModuleGraph)
      (filePath : string) (w : Watcher) :
  count is_scan (trace (handleChange opts g filePath w))
  = count is_scan (trace w)
  /\ count is_reload (trace (handleChange opts g filePath w))
     <= count is_reload (trace w) + 1.
Proof.
  unfold handleChange.
  repeat match goal with
         | |- context [if ?c then _ else _] => destruct c
         | |- context [match ?x with _ => _ end] => destruct x
         end; try (split; lia).
  all: cbn [trace]; rewrite !WatcherFacts.count_app;
    rewrite WatcherFacts.count_scan_invalidate,
      WatcherFacts.count_reload_invalidate;
    cbn; split; lia.
Qed.

(** X22: a content edit never leads to a rescan: whatever file is
    edited, the listeners of [change] events leave the timer, the
    resolver state and the patch bindings as they are, start no scan, and
    send at most two reload messages, one for an override served through
    the load shim and one for a bound patch config. *)
Theorem change_event_keeps_state (opts : ResolvedOptions) (world : World)
        (now : nat) (filePath : string) (w : Watcher) :
  pending (dispatch opts world now (Change filePath) w) = pending w
  /\ state (dispatch opts world now (Change filePath) w) = state w
  /\ bound (dispatch opts world now (Change filePath) w) = bound w
  /\ count is_scan (trace (dispatch opts world now (Change filePath) w))
     = count is_scan (trace w)
  /\ count is_reload (trace (dispatch opts world now (Change filePath) w))
     <= count is_reload (trace w) + 2.
Proof.
  destruct (handleChange_state opts (graph_at world now) filePath w)
    as [Hst Hpend].
  pose proof (WatcherFacts.handleChange_bound
                opts (graph_at world now) filePath w) as Hbound.
  destruct (count_handleChange opts (graph_at world now) filePath w)
    as [Hscan Hreload].
  cbn [dispatch].
  destruct (Nat.ltb 0 (List.length (patches opts))).
  - cbn [handlePatchConfigContentEdit pending state bound trace].
    rewrite !WatcherFacts.count_app.
    destruct (count_config_edit_effects
                (graph_at world now) (normalizePath filePath)
                (bound (handleChange opts (graph_at world now) filePath w)))
      as [-> Hr].
    repeat split; try assumption; lia.
  - repeat split; try assumption; lia.
Qed.

(** *** A rebuild that finds nothing new *)

Lemma opt_string_eqb_refl (a : option string) : opt_string_eqb a a = true.
Proof. destruct a as [x|]; [apply String.eqb_refl | reflexivity]. Qed.

Lemma changed_keys_same (m : OverrideMap) : changed_keys m m = [].
Proof.
  unfold changed_keys.
  induction (JsMap.key_union (JsMap.keys m) (JsMap.keys m)) as [|k l IH];
    [reflexivity |].
  cbn [filter]. rewrite Bool.eqb_reflx, opt_string_eqb_refl. exact IH.
Qed.

Lemma diff_effects_same (label : string -> string) (m : OverrideMap)
      (st : ResolverState) (g : ModuleGraph) :
  diff_effects label m m st g = [].
Proof. unfold diff_effects. now rewrite changed_keys_same. Qed.

Lemma flat_map_nil {A B : Type} (f : A -> list B) (l : list A) :
  (forall x, f x = []) -> flat_map f l = [].
Proof.
  intro H. induction l as [|x l IH]; [reflexivity |].
  cbn [flat_map]. now rewrite H, IH.
Qed.

Lemma existsb_false {A : Type} (f : A -> bool) (l : list A) :
  (forall x, f x = false) -> existsb f l = false.
Proof.
  intro H. induction l as [|x l IH]; [reflexivity |].
  cbn [existsb]. now rewrite H, IH.
Qed.

Lemma invalidated_logs (l : list LogEntry) : invalidated (map Log l) = [].
Proof. induction l as [|e l IH]; [reflexivity | exact IH]. Qed.

(** X23: when the rescan of the debounced callback finds the same flat
    overrides, after filtering, and the same namespaced overrides as the
    state holds, the state is left as it is, no module is invalidated and
    no reload is sent: the only effects are the scan and its log
    lines. *)
Theorem rebuild_unchanged_is_silent (fs : FileSystem) (opts : ResolvedOptions)
        (g : ModuleGraph) (st : ResolverState) :
  filter_flat (targetFiles st) (flat (scanOverrides fs opts))
  = flatOverrides st ->
  namespaced (scanOverrides fs opts) = namespacedOverrides st ->
  rebuild fs opts g st
  = (st, (Scan :: map Log (scan_logs (scanOverrides fs opts)))%list).
Proof.
  intros Hflat Hns. unfold rebuild. rewrite Hflat, Hns.
  rewrite changed_keys_same, diff_effects_same.
  rewrite (flat_map_nil
             (fun ns =>
                diff_effects
                  (fun key => "Override [" ++ ns ++ "] " ++ dquote ++ key
                              ++ dquote)
                  (map_or_empty (namespacedOverrides st) ns)
                  (map_or_empty (namespacedOverrides st) ns)
                  (object_assign st (flatOverrides st) (namespacedOverrides st))
                  g))
    by (intro ns; apply diff_effects_same).
  rewrite (existsb_false
             (fun ns =>
                Nat.ltb 0
                  (List.length
                     (changed_keys (map_or_empty (namespacedOverrides st) ns)
                                   (map_or_empty (namespacedOverrides st) ns)))))
    by (intro ns; now rewrite changed_keys_same).
  cbn [List.length Nat.ltb Nat.leb orb]. rewrite !app_nil_r.
  destruct st. reflexivity.
Qed.

Lemma rebuild_unchanged_is_silent_witness :
  rebuild orphan_fs two_targets empty_graph orphan_state
  = (orphan_state,
     (Scan :: map Log (scan_logs (scanOverrides orphan_fs two_targets)))%list).
Proof.
  apply (rebuild_unchanged_is_silent orphan_fs two_targets empty_graph
                                     orphan_state).
  - vm_compute. reflexivity.
  - vm_compute. reflexivity.
Defined.

(** *** The binding of the patch configs *)

Lemma opt_string_eqb_eq (a b : option string) :
  opt_string_eqb a b = true -> a = b.
Proof.
  destruct a as [x|], b as [y|]; cbn; try discriminate; [| reflexivity].
  intro H. apply String.eqb_eq in H. now subst.
Qed.

Lemma rebind_patches_binds (fs : FileSystem) (opts : ResolvedOptions)
      (g : ModuleGraph) (basename : string) (ps : list Patch.ResolvedPatch) :
  map Patch.configFile (fst (rebind_patches fs opts g basename ps))
  = map Patch.configFile ps
  /\ forall patch,
      In patch (fst (rebind_patches fs opts g basename ps)) ->
      Patch.configFile patch = basename ->
      Patch.configPath patch
      = findConfigFile fs basename (overrideDirs opts).
Proof.
  induction ps as [|patch ps [IH1 IH2]]; [split; [reflexivity | intros ? []] |].
  cbn [rebind_patches].
  destruct (rebind_patches fs opts g basename ps) as [rest' effects].
  cbn [fst] in IH1, IH2.
  destruct (String.eqb basename (Patch.configFile patch)) eqn:Ename;
    cbn [negb].
  - apply String.eqb_eq in Ename.
    destruct (opt_string_eqb
                (findConfigFile fs (Patch.configFile patch) (overrideDirs opts))
                (Patch.configPath patch)) eqn:Esame; cbn [fst map].
    + split; [now rewrite IH1 |].
      intros p [<- | Hp] Hname; [| now apply IH2].
      apply opt_string_eqb_eq in Esame. now rewrite Ename, Esame.
    + split; [cbn [Patch.configFile]; now rewrite IH1 |].
      intros p [<- | Hp] Hname; [| now apply IH2].
      cbn [Patch.configPath]. now rewrite Ename.
  - cbn [fst map]. split; [now rewrite IH1 |].
    intros p [<- | Hp] Hname; [| now apply IH2].
    apply String.eqb_neq in Ename. congruence.
Qed.

(** X24: after the creation or deletion of a file under an override
    directory, every patch declaration whose config file name is the
    extension-stripped name of that file is bound to what [findConfigFile]
    finds at that moment, and the declarations are the same, in the same
    order. *)
Theorem patch_config_rebound (fs : FileSystem) (opts : ResolvedOptions)
        (g : ModuleGraph) (filePath : string) (w : Watcher) :
  stripExtension (Path.basename filePath) <> "" ->
  isOverrideFile opts filePath = true ->
  map Patch.configFile
      (bound (handlePatchConfigStructural fs opts g filePath w))
  = map Patch.configFile (bound w)
  /\ forall patch,
      In patch (bound (handlePatchConfigStructural fs opts g filePath w)) ->
      Patch.configFile patch = stripExtension (Path.basename filePath) ->
      Patch.configPath patch
      = findConfigFile fs (Patch.configFile patch) (overrideDirs opts).
Proof.
  intros Hname Hdir. unfold handlePatchConfigStructural.
  rewrite (ResolutionFacts.truthy_ne _ Hname), Hdir. cbn [negb].
  destruct (rebind_patches_binds
              fs opts g (stripExtension (Path.basename filePath)) (bound w))
    as [H1 H2].
  destruct (rebind_patches fs opts g _ (bound w)) as [ps effects].
  cbn [fst bound] in *. split; [exact H1 |].
  intros patch Hin Hcfg. rewrite Hcfg. now apply H2.
Qed.

Lemma patch_config_rebound_witness :
  map Patch.configFile
      (bound (handlePatchConfigStructural
                patched_fs patched_opts create_graph
                "/proj/src/overrides/menu.config.ts" patched_start))
  = map Patch.configFile (bound patched_start).
Proof.
  destruct (patch_config_rebound patched_fs patched_opts create_graph
                                 "/proj/src/overrides/menu.config.ts"
                                 patched_start) as [H _].
  - vm_compute. discriminate.
  - vm_compute. reflexivity.
  - exact H.
Defined.

(** *** The console *)

Lemma console_all_info (l : list LogEntry) :
  all_info l -> console false l = [].
Proof.
  unfold all_info, console. induction 1 as [|e l He _ IH]; [reflexivity |].
  cbn [flat_map]. unfold createLogger at 1. rewrite He. exact IH.
Qed.

(** with [debug] off, the debounced rebuild writes nothing to the
    console, whatever it finds; with [debug] on, it writes one line for
    each of its logger calls. *)
Theorem rebuild_console (fs : FileSystem) (opts : ResolvedOptions)
        (g : ModuleGraph) (st : ResolverState) :
  console false (logs_of (snd (rebuild fs opts g st))) = []
  /\ List.length (console true (logs_of (snd (rebuild fs opts g st))))
     = List.length (logs_of (snd (rebuild fs opts g st))).
Proof.
  split.
  - apply console_all_info, IndexFacts.rebuild_info.
  - unfold console.
    induction (logs_of (snd (rebuild fs opts g st))) as [|e l IH];
      [reflexivity |].
    cbn [flat_map]. rewrite length_app, IH.
    unfold createLogger. now destruct (fst e).
Qed.

End WatcherInvariants.


(** ** [plugin.ts]: the [config] and [configureServer] hooks *)

Module ConfigHookInvariants.
Import Str Utils Types Fs Hooks Sample.

Lemma filter_not_mem_nil (l : list string) :
  filter (fun dep => negb (mem dep [])) l = l.
Proof.
  induction l as [|x l IH]; [reflexivity |].
  cbn [filter mem existsb negb]. now f_equal.
Qed.

Lemma filter_not_mem_cons (x : string) (xs l : list string) :
  filter (fun dep => negb (mem dep xs))
         (filter (fun dep => negb (String.eqb dep x)) l)
  = filter (fun dep => negb (mem dep (x :: xs))) l.
Proof.
  induction l as [|y l IH]; [reflexivity |].
  cbn [filter]. unfold mem at 2. cbn [existsb]. fold (mem y xs).
  destruct (String.eqb y x); cbn [negb orb]; [exact IH |].
  cbn [filter]. destruct (mem y xs); cbn [negb]; now rewrite IH.
Qed.

Lemma exclude_target_fold (ts : list ResolvedTarget) :
  forall d : Vite.DepOptimizationOptions,
    exclude_or_empty (fold_left exclude_target ts d)
    = (exclude_or_empty d ++ map package ts)%list
    /\ Vite.include (fold_left exclude_target ts d)
       = match Vite.include d with
         | Some l =>
             Some (filter (fun dep => negb (mem dep (map package ts))) l)
         | None => None
         end
    /\ Vite.entries (fold_left exclude_target ts d) = Vite.entries d.
Proof.
  induction ts as [|t ts IH]; intro d; cbn [fold_left map].
  - rewrite app_nil_r. repeat split.
    destruct (Vite.include d) as [l|]; [| reflexivity].
    now rewrite filter_not_mem_nil.
  - destruct (IH (exclude_target d t)) as (IH1 & IH2 & IH3).
    rewrite IH1, IH2, IH3. unfold exclude_target at 1 2 3.
    cbn [exclude_or_empty Vite.exclude Vite.include Vite.entries].
    rewrite <- app_assoc. repeat split.
    destruct (Vite.include d) as [l|]; [| reflexivity].
    now rewrite filter_not_mem_cons.
Qed.

Lemma exclude_target_defined (ts : list ResolvedTarget) :
  forall d : Vite.DepOptimizationOptions,
    Vite.exclude d <> None ->
    Vite.exclude (fold_left exclude_target ts d) <> None.
Proof.
  induction ts as [|t ts IH]; intros d H; [exact H |].
  cbn [fold_left]. apply IH. discriminate.
Qed.

Lemma config_entries_keeps (fs : FileSystem) (opts : ResolvedOptions)
      (deps : Vite.DepOptimizationOptions) :
  Vite.exclude (config_entries fs opts deps) = Vite.exclude deps
  /\ Vite.include (config_entries fs opts deps) = Vite.include deps.
Proof.
  unfold config_entries.
  apply (ListFacts.fold_left_invariant
           (fun d : Vite.DepOptimizationOptions =>
              Vite.exclude d = Vite.exclude deps
              /\ Vite.include d = Vite.include deps)).
  - intros d t [H1 H2]. unfold add_entry.
    destruct (existsSync fs (Path.join (srcPath t) "app.tsx")); now split.
  - now split.
Qed.

(** X25: after the [config] hook, [optimizeDeps.exclude] is what it was
    followed by the package of every configured target, in order, and
    [optimizeDeps.include], when the configuration has one, is what it
    was without the packages of the targets; so every target is excluded
    from pre-bundling and none is left in the include list that would
    override the exclusion. *)
Theorem config_excludes_targets (fs : FileSystem) (opts : ResolvedOptions)
        (c : Vite.UserConfig) :
  exists d,
    Vite.optimizeDeps (config fs opts c) = Some d
    /\ Vite.exclude d
       = Some ((match Vite.optimizeDeps c with
                | Some d0 => exclude_or_empty d0
                | None => []
                end) ++ map package (targets opts))%list
    /\ Vite.include d
       = match Vite.optimizeDeps c with
         | Some d0 =>
             match Vite.include d0 with
             | Some l =>
                 Some (filter
                         (fun dep =>
                            negb (mem dep (map package (targets opts))))
                         l)
             | None => None
             end
         | None => None
         end.
Proof.
  eexists. split; [reflexivity |].
  destruct (config_entries_keeps fs opts
                                 (config_exclude opts (Vite.optimizeDeps c)))
    as [-> ->].
  unfold config_exclude.
  match goal with
  | |- context [fold_left exclude_target (targets opts) ?d0] =>
      destruct (exclude_target_fold (targets opts) d0) as (H1 & H2 & _);
        pose proof (exclude_target_defined (targets opts) d0) as H3
  end.
  cbn [exclude_or_empty Vite.exclude Vite.include] in H1, H2, H3.
  rewrite H2. split.
  - unfold exclude_or_empty in H1 at 1.
    destruct (Vite.exclude (fold_left exclude_target _ _)) as [l|];
      [| now elim H3].
    rewrite H1. now destruct (Vite.optimizeDeps c).
  - now destruct (Vite.optimizeDeps c).
Qed.

(** *** The allow list *)

Lemma allow_dir_fold (cwd : string) (dirs : list string) :
  forall allow,
    fold_left (allow_dir cwd) dirs allow
    = (allow ++ map (path_resolve cwd) dirs)%list.
Proof.
  induction dirs as [|dir dirs IH]; intro allow; cbn [fold_left map].
  - now rewrite app_nil_r.
  - rewrite IH. unfold allow_dir. now rewrite <- app_assoc.
Qed.

Lemma mem_iff (x : string) (l : list string) : mem x l = true <-> In x l.
Proof.
  unfold mem. rewrite existsb_exists. split.
  - intros (y & Hy & E). apply String.eqb_eq in E. now subst.
  - intro H. exists x. split; [exact H | apply String.eqb_refl].
Qed.

(** The loop of [configureServer] keeps what the list holds, adds every
    override directory that is missing, and adds nothing twice. *)
Lemma allow_missing_dir_fold (cwd : string) (dirs : list string) :
  forall allow,
    (forall x, In x (fold_left (allow_missing_dir cwd) dirs allow)
               <-> In x allow \/ In x (map (path_resolve cwd) dirs))
    /\ (NoDup allow -> NoDup (fold_left (allow_missing_dir cwd) dirs allow))
    /\ ((forall dir, In dir dirs -> In (path_resolve cwd dir) allow) ->
        fold_left (allow_missing_dir cwd) dirs allow = allow).
Proof.
  induction dirs as [|dir dirs IH]; intro allow; cbn [fold_left map].
  - repeat split; try tauto. intros [H | []]. exact H.
  - destruct (IH (allow_missing_dir cwd allow dir)) as (IH1 & IH2 & IH3).
    assert (Hstep : allow_missing_dir cwd allow dir
                    = if mem (path_resolve cwd dir) allow then allow
                      else (allow ++ [path_resolve cwd dir])%list)
      by reflexivity.
    rewrite Hstep in IH1, IH2, IH3 |- *. clear Hstep.
    destruct (mem (path_resolve cwd dir) allow) eqn:E.
    + apply mem_iff in E. split; [| split].
      * intro x. rewrite IH1. cbn [In]. split; [tauto |].
        intros [H | [<- | H]]; auto.
      * exact IH2.
      * intros H. apply IH3. intros d Hd. apply H. now right.
    + split; [| split].
      * intro x. rewrite IH1, in_app_iff. cbn [In]. tauto.
      * intro Hnd. apply IH2. apply WalkInvariants.NoDup_snoc; [exact Hnd |].
        intro H. apply mem_iff in H. congruence.
      * intro H. exfalso.
        assert (Hin : In (path_resolve cwd dir) allow)
          by (apply H; now left).
        apply mem_iff in Hin. congruence.
Qed.

(** X26: the [config] hook appends every override directory, resolved,
    to [server.fs.allow], keeping what was there; [configureServer], on a
    configuration that has an allow list, keeps the list, adds exactly
    the override directories that are missing, adds none twice, and on
    the list that the [config] hook has left it adds nothing. *)
Theorem allow_lists_hold_override_dirs (cwd : string)
        (opts : ResolvedOptions) (server : option Vite.ServerOptions)
        (allow : list string) :
  config_server cwd opts server
  = {| Vite.fs :=
         Some {| Vite.allow :=
                   Some (allow_or_empty server
                         ++ map (path_resolve cwd) (overrideDirs opts))%list |} |}
  /\ configureServer cwd opts (Some (config_server cwd opts server))
     = Some (config_server cwd opts server)
  /\ exists allow',
      configureServer cwd opts
                      (Some {| Vite.fs := Some {| Vite.allow := Some allow |} |})
      = Some {| Vite.fs := Some {| Vite.allow := Some allow' |} |}
      /\ (forall x, In x allow'
                    <-> In x allow
                        \/ In x (map (path_resolve cwd) (overrideDirs opts)))
      /\ (NoDup allow -> NoDup allow').
Proof.
  split; [| split].
  - unfold config_server. now rewrite allow_dir_fold.
  - unfold config_server, configureServer. cbn [Vite.fs Vite.allow].
    rewrite allow_dir_fold.
    destruct (allow_missing_dir_fold
                cwd (overrideDirs opts)
                (allow_or_empty server
                 ++ map (path_resolve cwd) (overrideDirs opts))%list)
      as (_ & _ & Hsame).
    rewrite Hsame; [reflexivity |].
    intros dir Hdir. apply in_or_app. right. now apply in_map.
  - eexists. split; [reflexivity |].
    destruct (allow_missing_dir_fold cwd (overrideDirs opts) allow)
      as (H1 & H2 & _).
    split; [exact H1 | exact H2].
Qed.

End ConfigHookInvariants.

(** ** [plugin.ts]: the [transform] hook *)

Module TransformInvariants.
Import Str Utils Types Fs Hooks Sample.
Import StrFacts.

Lemma strip_prefix_sound (p s a : string) :
  JsString.strip_prefix p s = Some a -> s = p ++ a.
Proof.
  revert s. induction p as [|c p IH]; intros s H; cbn in H.
  - inversion H. reflexivity.
  - destruct s as [|d s]; [discriminate |].
    destruct (Ascii.eqb c d) eqn:E; [| discriminate].
    apply Ascii.eqb_eq in E. subst d. cbn. now rewrite (IH s H).
Qed.

Lemma strip_prefix_prefix (p s : string) :
  String.prefix p s = true -> exists a, JsString.strip_prefix p s = Some a.
Proof.
  revert s. induction p as [|c p IH]; intros s H; cbn.
  - now exists s.
  - destruct s as [|d s]; [discriminate H |].
    cbn in H. destruct (ascii_dec c d) as [-> | Hne]; [| discriminate H].
    rewrite Ascii.eqb_refl. now apply IH.
Qed.

Lemma split_first_unfold (pat s : string) :
  JsString.split_first pat s
  = match JsString.strip_prefix pat s with
    | Some after => Some ("", after)
    | None =>
        match s with
        | EmptyString => None
        | String c r =>
            match JsString.split_first pat r with
            | Some (before, after) => Some (String c before, after)
            | None => None
            end
        end
    end.
Proof. destruct s; reflexivity. Qed.

(** The two pieces around the first occurrence make up the string. *)
Lemma split_first_sound (pat s before after : string) :
  JsString.split_first pat s = Some (before, after) ->
  s = before ++ pat ++ after.
Proof.
  revert before. induction s as [|c s IH]; intros before H;
    rewrite split_first_unfold in H.
  - destruct (JsString.strip_prefix pat "") as [a|] eqn:E; [| discriminate].
    inversion H. subst. exact (strip_prefix_sound _ _ _ E).
  - destruct (JsString.strip_prefix pat (String c s)) as [a|] eqn:E.
    + inversion H. subst. exact (strip_prefix_sound _ _ _ E).
    + destruct (JsString.split_first pat s) as [[b a]|]; [| discriminate].
      inversion H. subst. cbn. now rewrite (IH b eq_refl).
Qed.

Lemma split_first_includes (pat s : string) :
  includes s pat = true ->
  exists before after, JsString.split_first pat s = Some (before, after).
Proof.
  induction s as [|c s IH]; intro H;
    unfold includes in H; fold includes in H;
    rewrite split_first_unfold.
  - destruct (String.prefix pat "") eqn:E; [| discriminate].
    destruct (strip_prefix_prefix _ _ E) as [a ->]. now exists "", a.
  - destruct (String.prefix pat (String c s)) eqn:E.
    + destruct (strip_prefix_prefix _ _ E) as [a ->]. now exists "", a.
    + destruct (JsString.strip_prefix pat (String c s)) as [a|];
        [now exists "", a |].
      destruct (IH H) as (b & a & ->). now exists (String c b), a.
Qed.

(** A replacement text without a dollar sign stands for itself. *)
Lemma getSubstitution_plain (matched before after replacement : string) :
  has_char "$"%char replacement = false ->
  JsString.getSubstitution matched before after replacement = replacement.
Proof.
  induction replacement as [|c r IH]; intro H; [reflexivity |].
  rewrite has_char_cons in H. cbn [JsString.getSubstitution].
  destruct (Ascii.eqb c "$"%char); [discriminate |].
  now rewrite (IH H).
Qed.

Lemma replace_first (s pat replacement : string) :
  includes s pat = true ->
  has_char "$"%char replacement = false ->
  exists before after,
    s = before ++ pat ++ after
    /\ JsString.replace s pat replacement = before ++ replacement ++ after.
Proof.
  intros Hinc Hplain. unfold JsString.replace.
  destruct (split_first_includes pat s Hinc) as (b & a & E). rewrite E.
  exists b, a. split.
  - now apply split_first_sound.
  - now rewrite getSubstitution_plain.
Qed.

(** In the replacement text, [$&] stands for the matched text. *)
Example replace_dollar_pattern :
  JsString.replace "import x" "x" "[$&$&]" = "import [xx]".
Proof. reflexivity. Qed.

Lemma transform_targets_skip (code id : string) (pre rest : list ResolvedTarget) :
  (forall u, In u pre -> entry_hmr u id = None) ->
  transform_targets code id (pre ++ rest) = transform_targets code id rest.
Proof.
  intro H. induction pre as [|u pre IH]; [reflexivity |].
  cbn [app transform_targets]. rewrite (H u (or_introl eq_refl)).
  apply IH. intros v Hv. apply H. now right.
Qed.

(** X27: on the entry file of the first target that has it as entry,
    when the HMR configuration of that target redirects a CSS import,
    the code holds the import and the new path holds no dollar sign,
    [transform] rewrites one occurrence of [import "<from>"] into
    [import "<to>"] and leaves every other character of the code as it
    is, then appends the HMR boundary when [entryBoundary] is set; a
    React plugin makes no difference. *)
Theorem transform_css_redirect (opts : ResolvedOptions)
        (hasExternalReactPlugin : bool) (code id : string)
        (pre post : list ResolvedTarget) (t : ResolvedTarget)
        (h : TargetHmrConfig) (from_ to_ : string) :
  targets opts = (pre ++ t :: post)%list ->
  (forall u, In u pre -> entry_hmr u id = None) ->
  entry_hmr t id = Some h ->
  cssRedirect h = Some (from_, to_) ->
  has_char "$"%char to_ = false ->
  includes code ("import " ++ Plugin.dquote ++ from_ ++ Plugin.dquote) = true ->
  exists before after,
    code = before ++ ("import " ++ Plugin.dquote ++ from_ ++ Plugin.dquote)
                  ++ after
    /\ fst (transform opts hasExternalReactPlugin code id)
       = Some ((before ++ ("import " ++ Plugin.dquote ++ to_ ++ Plugin.dquote)
                       ++ after)
               ++ match entryBoundary h with
                  | Some true => HMR_BOUNDARY
                  | _ => ""
                  end).
Proof.
  intros Hts Hpre Hentry Hcss Hplain Hinc.
  assert (Hrepl : has_char "$"%char
                           ("import " ++ Plugin.dquote ++ to_ ++ Plugin.dquote)
                  = false).
  { rewrite !HookInvariants.has_char_app, Hplain. reflexivity. }
  destruct (replace_first code _ _ Hinc Hrepl) as (b & a & Hcode & Hnew).
  exists b, a. split; [exact Hcode |].
  unfold transform. rewrite Hts, (transform_targets_skip _ _ _ _ Hpre).
  cbn [transform_targets]. rewrite Hentry.
  unfold transform_entry. rewrite Hcss, Hinc, Hnew.
  destruct (entryBoundary h) as [[|]|]; cbn [fst];
    try reflexivity; now rewrite append_nil_r.
Qed.

Lemma transform_css_redirect_witness :
  exists before after,
    Cases.entry_code
    = before ++ ("import " ++ Plugin.dquote ++ "./index.css" ++ Plugin.dquote)
             ++ after
    /\ fst (transform Cases.hmr_opts true Cases.entry_code
                      "/proj/node_modules/@medusajs/dashboard/src/app.tsx")
       = Some ((before
                  ++ ("import " ++ Plugin.dquote ++ "../dist/app.css"
                                ++ Plugin.dquote)
                  ++ after)
               ++ HMR_BOUNDARY).
Proof.
  apply (transform_css_redirect
           Cases.hmr_opts true Cases.entry_code
           "/proj/node_modules/@medusajs/dashboard/src/app.tsx"
           [] [] Cases.dashboard_hmr
           {| cssRedirect := Some ("./index.css", "../dist/app.css");
              entryBoundary := Some true |}
           "./index.css" "../dist/app.css").
  - reflexivity.
  - intros u [].
  - vm_compute. reflexivity.
  - reflexivity.
  - vm_compute. reflexivity.
  - vm_compute. reflexivity.
Defined.

(** *** Files that are no entry *)

Lemma transform_targets_none (code id : string) (ts : list ResolvedTarget) :
  (forall u, In u ts -> entry_hmr u id = None) ->
  transform_targets code id ts = None.
Proof.
  intro H. rewrite <- (app_nil_r ts).
  now rewrite (transform_targets_skip code id ts [] H).
Qed.

(** The second half of [transform], for a file that is the entry file
    of no target. *)
Lemma transform_no_entry (opts : ResolvedOptions)
      (hasExternalReactPlugin : bool) (code id : string) :
  (forall u, In u (targets opts) -> entry_hmr u id = None) ->
  transform opts hasExternalReactPlugin code id
  = if negb hasExternalReactPlugin
       && negb (includes (normalizePath id) "/node_modules/")
       && existsb (fun p => includes code p) (hmrBoundaries opts)
    then (Some (code ++ HMR_BOUNDARY),
          [(Info, "HMR boundary injected: " ++ Path.basename id)])
    else (None, []).
Proof.
  intro H. unfold transform. rewrite (transform_targets_none _ _ _ H).
  destruct hasExternalReactPlugin; [reflexivity |]. cbn [negb andb].
  destruct (hmrBoundaries opts) as [|p ps] eqn:E.
  - cbn. now destruct (negb (includes (normalizePath id) "/node_modules/")).
  - cbn [List.length Nat.ltb Nat.leb].
    destruct (negb (includes (normalizePath id) "/node_modules/"));
      [| reflexivity].
    cbn [andb]. now destruct (existsb _ (p :: ps)).
Qed.

(** X28: [transform] leaves a file alone, and logs nothing, when the
    file is the entry file of no target and either a React plugin is
    registered or the file lies under [node_modules]: the content-based
    HMR boundary is never injected there, whatever the code holds. *)
Theorem transform_leaves_untouched (opts : ResolvedOptions)
        (hasExternalReactPlugin : bool) (code id : string) :
  (forall u, In u (targets opts) -> entry_hmr u id = None) ->
  hasExternalReactPlugin = true
  \/ includes (normalizePath id) "/node_modules/" = true ->
  transform opts hasExternalReactPlugin code id = (None, []).
Proof.
  intros Hentry Hguard. rewrite (transform_no_entry _ _ _ _ Hentry).
  destruct Hguard as [-> | ->]; [reflexivity |].
  now rewrite andb_false_r.
Qed.

Lemma transform_leaves_untouched_witness :
  transform Cases.hmr_opts true "export const config = defineRouteConfig({})"
            "/proj/src/admin/routes/page.tsx"
  = (None, []).
Proof.
  apply (transform_leaves_untouched
           Cases.hmr_opts true
           "export const config = defineRouteConfig({})"
           "/proj/src/admin/routes/page.tsx").
  - intros u [<- | []]. vm_compute. reflexivity.
  - now left.
Defined.

(** When no target redirects a CSS import, [transform] returns nothing
    or the code with the HMR boundary appended. *)
Lemma transform_only_appends (opts : ResolvedOptions)
      (hasExternalReactPlugin : bool) (code id : string) :
  (forall t h, In t (targets opts) -> hmr t = Some h -> cssRedirect h = None) ->
  fst (transform opts hasExternalReactPlugin code id) = None
  \/ fst (transform opts hasExternalReactPlugin code id)
     = Some (code ++ HMR_BOUNDARY).
Proof.
  intro Hcss. unfold transform.
  assert (Hloop : transform_targets code id (targets opts) = None
                  \/ exists logs,
                      transform_targets code id (targets opts)
                      = Some (code ++ HMR_BOUNDARY, logs)).
  { induction (targets opts) as [|t ts IH]; [now left |].
    cbn [transform_targets].
    assert (IH' : transform_targets code id ts = None
                  \/ exists logs,
                      transform_targets code id ts
                      = Some (code ++ HMR_BOUNDARY, logs)).
    { apply IH. intros u h Hu. apply Hcss. now right. }
    destruct (entry_hmr t id) as [h|] eqn:E; [| exact IH'].
    assert (Hh : hmr t = Some h).
    { unfold entry_hmr in E. destruct (hmr t) as [h0|]; [| discriminate].
      destruct (entryFilePath t); [| discriminate].
      destruct (_ && _); [| discriminate]. now inversion E. }
    unfold transform_entry. rewrite (Hcss t h (or_introl eq_refl) Hh).
    destruct (entryBoundary h) as [[|]|]; try exact IH'.
    right. eexists. reflexivity. }
  destruct Hloop as [-> | [logs ->]]; [| now right].
  destruct (negb hasExternalReactPlugin && _); [| now left].
  destruct (negb _); [| now left].
  destruct (existsb _ _); [now right | now left].
Qed.

End TransformInvariants.

(** ** [config.ts]: the resolved options *)

Module OptionsInvariants.
Import Str Utils Types Fs Config Options Sample.

Lemma resolve_absolute (cwd a b : string) :
  Path.isAbsolute (Path.resolve cwd a b) = true.
Proof.
  unfold Path.resolve, Path.isAbsolute, startsWith.
  destruct (String.prefix "/" b); [| destruct a];
    apply (StrFacts.prefix_app "/").
Qed.

Lemma resolveTarget_found (fs : FileSystem) (host : Host)
      (input : Input.UnlockTargetInput) (t : ResolvedTarget) :
  resolveTarget fs host input = Returns (Some t) ->
  package t = package (initial_target input)
  /\ alias t = alias (initial_target input)
  /\ srcDir t = srcDir (initial_target input)
  /\ srcPath t <> ""
  /\ findPackageSrcPath fs host (package t) (srcDir t)
     = Returns (Some (srcPath t))
  /\ forall e,
      entryFilePath t = Some e ->
      existsSync fs e = true /\ entryRedirect t <> None /\ hmr t <> None.
Proof.
  unfold resolveTarget.
  destruct (findPackageSrcPath fs host (package (initial_target input))
                               (srcDir (initial_target input)))
    as [[found|]|] eqn:E; try discriminate.
  destruct (truthy found) eqn:Hfound; cbn [negb]; [| discriminate].
  intro H. inversion H. subst t. clear H.
  cbn [package alias srcDir srcPath entryRedirect hmr entryFilePath].
  repeat split; try exact E.
  - intro H. rewrite H in Hfound. discriminate.
  - destruct (entryRedirect (initial_target input)) as [rule|];
      [| discriminate].
    destruct (hmr (initial_target input)); [| discriminate].
    destruct (existsSync fs _) eqn:Ex; [| discriminate].
    inversion H. now subst.
  - destruct (entryRedirect (initial_target input)); [discriminate |].
    discriminate H.
  - destruct (entryRedirect (initial_target input)); [| discriminate H].
    destruct (hmr (initial_target input)); [discriminate | discriminate H].
Qed.

Lemma resolve_targets_closed_form (fs : FileSystem) (host : Host)
      (inputs : list Input.UnlockTargetInput) (ts : list ResolvedTarget) :
  resolve_targets fs host inputs = Returns ts ->
  ts = flat_map (fun input =>
                   match resolveTarget fs host input with
                   | Returns (Some t) => [t]
                   | _ => []
                   end)
                inputs.
Proof.
  revert ts. induction inputs as [|input inputs IH]; intros ts H;
    cbn [resolve_targets flat_map] in *.
  - now inversion H.
  - destruct (resolveTarget fs host input) as [resolved|]; [| discriminate].
    destruct (resolve_targets fs host inputs) as [rest|]; [| discriminate].
    rewrite <- (IH rest eq_refl).
    destruct resolved as [t|]; now inversion H.
Qed.

(** X29: when [resolveOptions] returns, the targets are the inputs
    whose package was found, in the order of the inputs, each under the
    alias given or generated for it and with a source path that is not
    empty and is what [findPackageSrcPath] returned; a target has an
    entry file only when that file exists and the target has both an
    entry redirect and an HMR configuration; every override directory is
    an absolute path; and every patch is bound to what [findConfigFile]
    finds for its config file. *)
Theorem resolveOptions_postcondition (fs : FileSystem) (host : Host)
        (options : Input.UnlockOptions) (r : ResolvedOptions) :
  resolveOptions fs host options = Returns r ->
  targets r
  = flat_map (fun input =>
                match resolveTarget fs host input with
                | Returns (Some t) => [t]
                | _ => []
                end)
             (Input.targets options)
  /\ (forall t,
        In t (targets r) ->
        exists input,
          In input (Input.targets options)
          /\ package t = package (initial_target input)
          /\ alias t = alias (initial_target input)
          /\ srcPath t <> ""
          /\ findPackageSrcPath fs host (package t) (srcDir t)
             = Returns (Some (srcPath t))
          /\ forall e,
              entryFilePath t = Some e ->
              existsSync fs e = true
              /\ entryRedirect t <> None /\ hmr t <> None)
  /\ (forall dir, In dir (overrideDirs r) -> Path.isAbsolute dir = true)
  /\ forall patch,
      In patch (patches r) ->
      Patch.configPath patch
      = findConfigFile fs (Patch.configFile patch) (overrideDirs r).
Proof.
  unfold resolveOptions.
  destruct (resolve_targets fs host (Input.targets options)) as [ts|] eqn:E;
    [| discriminate].
  intro H. inversion H. subst r. clear H.
  cbn [targets overrideDirs patches].
  pose proof (resolve_targets_closed_form _ _ _ _ E) as Hts.
  split; [exact Hts |]. split; [| split].
  - intros t Ht. rewrite Hts in Ht. apply in_flat_map in Ht.
    destruct Ht as (input & Hin & Ht).
    destruct (resolveTarget fs host input) as [[t0|]|] eqn:Er;
      [| destruct Ht | destruct Ht].
    destruct Ht as [<- | []].
    destruct (resolveTarget_found _ _ _ _ Er) as (H1 & H2 & _ & H4 & H5 & H6).
    exists input.
    split; [exact Hin |]. split; [exact H1 |]. split; [exact H2 |].
    split; [exact H4 |]. split; [exact H5 | exact H6].
  - intros dir Hdir. apply in_map_iff in Hdir.
    destruct Hdir as (d & <- & _). apply resolve_absolute.
  - intros patch Hp. apply in_map_iff in Hp.
    destruct Hp as (p & <- & _). reflexivity.
Qed.

Lemma resolveOptions_postcondition_witness :
  targets MedusaProject.resolved
  = flat_map (fun input =>
                match resolveTarget MedusaProject.disk MedusaProject.node
                                    input with
                | Returns (Some t) => [t]
                | _ => []
                end)
             (Input.targets (Preset.medusa None)).
Proof.
  destruct (resolveOptions_postcondition
              MedusaProject.disk MedusaProject.node (Preset.medusa None)
              MedusaProject.resolved) as [H _].
  - vm_compute. reflexivity.
  - exact H.
Defined.

End OptionsInvariants.

(** ** [menu-patch.ts]: the patch of the Medusa layout *)

Module PresetInvariants.
Import Str Utils Types Plugin Preset.
Import StrFacts.

Lemma replace_grows (s pat replacement : string) :
  includes s pat = true ->
  has_char "$"%char replacement = false ->
  String.length (JsString.replace s pat replacement) + String.length pat
  = String.length s + String.length replacement.
Proof.
  intros Hinc Hplain.
  destruct (TransformInvariants.replace_first s pat replacement Hinc Hplain)
    as (b & a & Hs & ->).
  rewrite Hs. rewrite !length_append. lia.
Qed.

(** X30: [patchMenuLayout] returns the code as it is when the code does
    not hold the marker [const coreRoutes = useCoreRoutes()]; when it
    does, the result differs from the code: it is the three import lines,
    followed by the code in which one occurrence of the marker has become
    the call of [__applyMenuConfig] and nothing else has changed, except
    that the first extension marker, if there is one, is rewritten too,
    followed by the helper functions. *)
Theorem patchMenuLayout_marker (code configPath : string) :
  if includes code coreMarker then
    patchMenuLayout code configPath <> code
    /\ exists before after,
        code = before ++ coreMarker ++ after
        /\ patchMenuLayout code configPath
           = importLine configPath
             ++ (if includes (before ++ coreReplacement ++ after) extMarker
                 then JsString.replace (before ++ coreReplacement ++ after)
                                       extMarker extReplacement
                 else before ++ coreReplacement ++ after)
             ++ helperFn
  else patchMenuLayout code configPath = code.
Proof.
  assert (Hplain : has_char "$"%char coreReplacement = false)
    by (vm_compute; reflexivity).
  assert (Hplain' : has_char "$"%char extReplacement = false)
    by (vm_compute; reflexivity).
  destruct (includes code coreMarker) eqn:Hinc.
  - split.
    + unfold patchMenuLayout. rewrite Hinc. cbn [negb]. intro H.
      apply (f_equal String.length) in H.
      rewrite !length_append in H.
      pose proof (replace_grows code coreMarker coreReplacement Hinc Hplain)
        as Hcore.
      assert (H34 : String.length coreMarker = 34) by reflexivity.
      assert (H67 : String.length coreReplacement = 67)
        by (vm_compute; reflexivity).
      destruct (includes (JsString.replace code coreMarker coreReplacement)
                         extMarker) eqn:Hext.
      * pose proof (replace_grows _ extMarker extReplacement Hext Hplain')
          as Hgrow.
        assert (H74 : String.length extMarker = 74)
          by (vm_compute; reflexivity).
        assert (Hbig : 74 <= String.length extReplacement)
          by (vm_compute; lia).
        lia.
      * lia.
    + destruct (TransformInvariants.replace_first
                  code coreMarker coreReplacement Hinc Hplain)
        as (b & a & Hcode & Hnew).
      exists b, a. split; [exact Hcode |].
      unfold patchMenuLayout. rewrite Hinc, Hnew. reflexivity.
  - unfold patchMenuLayout. now rewrite Hinc.
Qed.

End PresetInvariants.
